(** * update-aether-files.py: the template-safe structured-config merge

    A shallow embedding of [.github/scripts/update-aether-files.py]:
    the placeholder codec ([replace_aether_templates_with_placeholders],
    [restore_aether_templates]), the merge engine ([deep_merge_dict]),
    the section enabler ([get_enabled_sections]), the chart introspector
    ([find_single_directory]), the override builder
    ([build_image_overrides]) and the orchestrator
    ([configure_sdcore_images]).

    Python [str] is a list of characters, a [dict] is an insertion-ordered
    association list, a function that may call [sys.exit] or raise returns
    a [result].  PyYAML, [helm] and [repr] are external collaborators and
    are taken as the fields of a class [PyEnv]. *)

From Stdlib Require Import List Ascii ZArith Bool Arith Lia.
From Stdlib Require Import DecimalString DecimalNat Permutation.
From Stdlib Require String.
Import ListNotations String.StringSyntax.

Open Scope string_scope.
Open Scope list_scope.

(* ================================================================== *)
(** * Part I: the embedding *)
(* ================================================================== *)

(** ** Python strings *)

Definition str := list ascii.

(** A string literal of the source. *)
Definition lit (s : String.string) : str := String.list_ascii_of_string s.
Coercion lit : String.string >-> str.
Arguments lit : simpl never.

Fixpoint str_eqb (a b : str) : bool :=
  match a, b with
  | [], [] => true
  | x :: a', y :: b' => Ascii.eqb x y && str_eqb a' b'
  | _, _ => false
  end.

(** [s.startswith(p)] *)
Fixpoint starts_with (p s : str) : bool :=
  match p, s with
  | [], _ => true
  | x :: p', y :: s' => Ascii.eqb x y && starts_with p' s'
  | _ :: _, [] => false
  end.

(** [needle in hay] *)
Fixpoint occurs (needle hay : str) : bool :=
  starts_with needle hay
  || match hay with
     | [] => false
     | _ :: hay' => occurs needle hay'
     end.

(** [s.replace(old, new)] for a non-empty [old]: scan from the left; at a
    match emit [new] and resume after the match ([skip] counts the
    characters of a match still to be passed over). *)
Fixpoint replace_from (old new : str) (skip : nat) (s : str) : str :=
  match s with
  | [] => []
  | c :: rest =>
      match skip with
      | S n => replace_from old new n rest
      | O =>
          if starts_with old s
          then new ++ replace_from old new (length old - 1) rest
          else c :: replace_from old new 0 rest
      end
  end.

(** [s.replace(old, new)]; an empty [old] matches before every character
    and at the end. *)
Definition py_replace (old new s : str) : str :=
  match old with
  | [] => new ++ flat_map (fun c => c :: new) s
  | _ :: _ => replace_from old new 0 s
  end.

(** [f"{n}"] for a non-negative [int]. *)
Definition str_of_nat (n : nat) : str :=
  lit (NilEmpty.string_of_uint (Nat.to_uint n)).

(** [f"{z}"] for an [int]. *)
Definition str_of_Z (z : Z) : str :=
  match z with
  | Zneg p => "-"%char :: str_of_nat (Pos.to_nat p)
  | _ => str_of_nat (Z.to_nat z)
  end.

(** ** Python dicts: insertion-ordered, looked up by key *)

Definition dict (V : Type) := list (str * V).

Fixpoint dict_get {V} (key : str) (d : dict V) : option V :=
  match d with
  | [] => None
  | (k, v) :: d' => if str_eqb key k then Some v else dict_get key d'
  end.

(** [d[key] = value]: an existing key keeps its position, a new key goes
    last. *)
Fixpoint dict_set {V} (key : str) (value : V) (d : dict V) : dict V :=
  match d with
  | [] => [(key, value)]
  | (k, v) :: d' =>
      if str_eqb key k then (k, value) :: d' else (k, v) :: dict_set key value d'
  end.

Definition dict_keys {V} (d : dict V) : list str := map fst d.

Fixpoint memb (k : str) (l : list str) : bool :=
  match l with
  | [] => false
  | x :: l' => str_eqb k x || memb k l'
  end.

Fixpoint distinct (l : list str) : bool :=
  match l with
  | [] => true
  | x :: l' => negb (memb x l') && distinct l'
  end.

(** ** Results of effectful code *)

Inductive pyexn : Type :=
| AttributeError | KeyError | TypeError | FileNotFoundError
| IsADirectoryError | OtherError (what : str).

(** What a call of an external collaborator does: return or raise. *)
Inductive outcome (A : Type) : Type :=
| Returns (a : A)
| Raises (e : pyexn).
Arguments Returns {A} a.
Arguments Raises {A} e.

(** What a function of the script does: return, [sys.exit(code)], or let
    an exception escape. *)
Inductive result (A : Type) : Type :=
| Ok (a : A)
| Exit (code : Z)
| Raise (e : pyexn).
Arguments Ok {A} a.
Arguments Exit {A} code.
Arguments Raise {A} e.

Definition bind {A B} (r : result A) (k : A -> result B) : result B :=
  match r with
  | Ok a => k a
  | Exit c => Exit c
  | Raise e => Raise e
  end.

Definition call {A} (o : outcome A) : result A :=
  match o with
  | Returns a => Ok a
  | Raises e => Raise e
  end.

Notation "x <- r ;; k" := (bind r (fun x => k))
  (at level 61, r at next level, right associativity).
Notation "' p <- r ;; k" := (bind r (fun x => let p := x in k))
  (at level 61, p pattern, r at next level, right associativity).

(** The status the process ends with: an escaped exception ends it with
    status 1. *)
Definition exit_status {A} (r : result A) : Z :=
  match r with
  | Ok _ => 0
  | Exit c => c
  | Raise _ => 1
  end.

(** ** Structured documents (what [yaml.safe_load] returns)

    Mappings (with text keys, as the values files have them), sequences
    and the scalars the script tells apart; floats and timestamps are
    left out. *)

Unset Elimination Schemes.
Inductive yaml : Type :=
| YNull
| YBool (b : bool)
| YInt (z : Z)
| YStr (s : str)
| YSeq (xs : list yaml)
| YMap (kvs : list (str * yaml)).
Set Elimination Schemes.

(** [bool(v)] *)
Definition py_truthy (v : yaml) : bool :=
  match v with
  | YNull => false
  | YBool b => b
  | YInt z => negb (Z.eqb z 0)
  | YStr s => match s with [] => false | _ => true end
  | YSeq xs => match xs with [] => false | _ => true end
  | YMap kvs => match kvs with [] => false | _ => true end
  end.

(** [v is True] *)
Definition is_True (v : yaml) : bool :=
  match v with
  | YBool true => true
  | _ => false
  end.

(** [v.get(key, default)]: only a dict has [get]. *)
Definition py_get (v : yaml) (key : str) (default : yaml) : result yaml :=
  match v with
  | YMap kvs =>
      Ok (match dict_get key kvs with Some x => x | None => default end)
  | _ => Raise AttributeError
  end.

(** [v.items()]: only a dict has [items]. *)
Definition py_items (v : yaml) : result (dict yaml) :=
  match v with
  | YMap kvs => Ok kvs
  | _ => Raise AttributeError
  end.

(** A document whose mappings have pairwise distinct keys, at every
    depth, as every Python dict has. *)
Fixpoint wf_yaml (v : yaml) : bool :=
  match v with
  | YSeq xs => forallb wf_yaml xs
  | YMap kvs =>
      distinct (map fst kvs) && forallb (fun kv => wf_yaml (snd kv)) kvs
  | _ => true
  end.

Definition wf_dict (d : dict yaml) : bool := wf_yaml (YMap d).

(** ** Structured Merge Engine: [deep_merge_dict] (lines 230-238) *)

(** The value stored under a key by one iteration of the loop:
    [deep_merge_dict(result[key], value)] when the key is in [result] and
    both values are dicts, [value] otherwise.  [current] is
    [result[key]] when the key is present. *)
Fixpoint merged_value (current : option yaml) (value : yaml) {struct value}
  : yaml :=
  match current, value with
  | Some (YMap base), YMap override =>
      YMap (fold_left
              (fun result kv =>
                 dict_set (fst kv)
                   (merged_value (dict_get (fst kv) result) (snd kv)) result)
              override base)
  | _, _ => value
  end.

Definition deep_merge_dict (base override : dict yaml) : dict yaml :=
  fold_left
    (fun result kv =>
       dict_set (fst kv) (merged_value (dict_get (fst kv) result) (snd kv))
         result)
    override base.

(** ** Placeholder Codec (lines 178-227) *)

(** The double-quote character. *)
Definition dquote : ascii := ascii_of_nat 34.

(** [f'"{s}"'] *)
Definition quoted (s : str) : str := dquote :: s ++ [dquote].

Definition not_rbrace (c : ascii) : bool := negb (Ascii.eqb c "}"%char).

(** The longest prefix of characters satisfying [p], and what follows. *)
Fixpoint span (p : ascii -> bool) (s : str) : str * str :=
  match s with
  | [] => ([], [])
  | c :: s' =>
      if p c then let '(a, b) := span p s' in (c :: a, b) else ([], s)
  end.

(** One attempt of the pattern [\{\{[^}]+\}\}] at the start of [s]: the
    text matched and what follows it.  [[^}]+] is greedy and what it
    leaves must start with two closing braces; giving back characters
    cannot help, since each of them is not a closing brace. *)
Definition match_template (s : str) : option (str * str) :=
  if starts_with "{{" s then
    let '(body, s2) := span not_rbrace (skipn 2 s) in
    match body with
    | [] => None
    | _ :: _ =>
        if starts_with "}}" s2
        then Some (("{{" : str) ++ body ++ ("}}" : str), skipn 2 s2)
        else None
    end
  else None.

(** [template_pattern.sub(repl, s)] with a callback that updates a state:
    the matches are found from left to right, never overlapping, and the
    callback is run on each in that order. *)
Fixpoint re_sub_from {St} (repl : str -> St -> str * St) (skip : nat)
  (s : str) (st : St) : str * St :=
  match s with
  | [] => ([], st)
  | c :: rest =>
      match skip with
      | S n => re_sub_from repl n rest st
      | O =>
          match match_template s with
          | Some (m, _) =>
              let '(r, st1) := repl m st in
              let '(out, st2) := re_sub_from repl (length m - 1) rest st1 in
              (r ++ out, st2)
          | None =>
              let '(out, st2) := re_sub_from repl 0 rest st in
              (c :: out, st2)
          end
      end
  end.

(** [f"AETHER_PLACEHOLDER_{placeholder_index}"] *)
Definition placeholder_name (placeholder_index : nat) : str :=
  ("AETHER_PLACEHOLDER_" : str) ++ str_of_nat placeholder_index.

(** The closure [replace_template]; its state is [templates] and
    [placeholder_index]. *)
Definition replace_template (template_text : str) (st : dict str * nat)
  : str * (dict str * nat) :=
  let '(templates, placeholder_index) := st in
  let placeholder := placeholder_name placeholder_index in
  (quoted placeholder,
   (dict_set placeholder template_text templates, S placeholder_index)).

Definition replace_aether_templates_with_placeholders (content : str)
  : str * dict str :=
  let '(modified_content, (templates, _)) :=
    re_sub_from replace_template 0 content ([], 0) in
  (modified_content, templates).

(** [sorted(l, key=len, reverse=True)]: stable, so strings of one length
    keep their order. *)
Fixpoint insert_by_len (x : str) (l : list str) : list str :=
  match l with
  | [] => [x]
  | y :: l' =>
      if length x <? length y then y :: insert_by_len x l' else x :: l
  end.

Definition sorted_longest_first (l : list str) : list str :=
  fold_right insert_by_len [] l.

(** The loop of [restore_aether_templates] over the sorted placeholders,
    with its two variables [content] and [replacements_made]. *)
Fixpoint restore_loop (templates : dict str) (placeholders : list str)
  (content : str) (replacements_made : nat) : result (str * nat) :=
  match placeholders with
  | [] => Ok (content, replacements_made)
  | placeholder :: rest =>
      match dict_get placeholder templates with
      | None => Raise KeyError
      | Some template =>
          let quoted_placeholder := quoted placeholder in
          if occurs quoted_placeholder content then
            restore_loop templates rest
              (py_replace quoted_placeholder template content)
              (S replacements_made)
          else if occurs placeholder content then
            restore_loop templates rest
              (py_replace placeholder template content)
              (S replacements_made)
          else restore_loop templates rest content replacements_made
      end
  end.

Definition restore_aether_templates (content : str) (templates : dict str)
  : result str :=
  let sorted_placeholders := sorted_longest_first (dict_keys templates) in
  '(content', replacements_made) <-
    restore_loop templates sorted_placeholders content 0;;
  let expected_count := length templates in
  if (replacements_made =? 0) && (0 <? expected_count)
  then Exit 1
  else Ok content'.

(** ** Chart directory trees *)

Unset Elimination Schemes.
Inductive fsnode : Type :=
| File (name : str) (content : str)
| Dir (name : str) (entries : list fsnode).
Set Elimination Schemes.

Definition node_name (n : fsnode) : str :=
  match n with
  | File name _ => name
  | Dir name _ => name
  end.

Definition is_dir (n : fsnode) : bool :=
  match n with
  | File _ _ => false
  | Dir _ _ => true
  end.

(** [d / name], when it exists. *)
Definition child (d : fsnode) (name : str) : option fsnode :=
  match d with
  | File _ _ => None
  | Dir _ entries => find (fun e => str_eqb (node_name e) name) entries
  end.

(** [open(p).read()] *)
Definition read_file (p : fsnode) : result str :=
  match p with
  | File _ content => Ok content
  | Dir _ _ => Raise IsADirectoryError
  end.

(** [[m for m in base_dir.rglob(name) if m.is_dir()]]: the directories
    called [name] at any depth below [base_dir].  Section names are plain
    path components, for which the pattern of [rglob] matches a name by
    equality. *)
Fixpoint rglob_dirs (name : str) (base_dir : fsnode) : list fsnode :=
  match base_dir with
  | File _ _ => []
  | Dir _ entries =>
      flat_map
        (fun e =>
           (if is_dir e && str_eqb (node_name e) name then [e] else [])
           ++ rglob_dirs name e)
        entries
  end.

(** ** Chart Introspector: [find_single_directory] (lines 270-283) *)

Definition find_single_directory (base_dir : fsnode) (name : str)
  : result (option fsnode) :=
  match rglob_dirs name base_dir with
  | [] => Ok None
  | [m] => Ok (Some m)
  | _ :: _ :: _ => Exit 1
  end.

(** ** External collaborators *)

Class PyEnv : Type := {
  (** [yaml.safe_load] on a text *)
  yaml_safe_load : str -> outcome yaml;
  (** [yaml.dump(v, default_flow_style=False, sort_keys=False)] *)
  yaml_dump : yaml -> str;
  (** [repr] of a list or a dict *)
  py_repr : yaml -> str;
  (** [helm pull chart_ref --version chart_version --untar]: the entries
      of the destination directory afterwards *)
  helm_pull : yaml -> yaml -> outcome (list fsnode)
}.

(** [f"{v}"] *)
Definition py_str `{PyEnv} (v : yaml) : str :=
  match v with
  | YNull => "None"
  | YBool true => "True"
  | YBool false => "False"
  | YInt z => str_of_Z z
  | YStr s => s
  | YSeq _ | YMap _ => py_repr v
  end.

(** ** Section Enabler: [get_enabled_sections] (lines 286-302) *)

(** [section_config.get(flag)] *)
Definition get_flag (flag : str) (section_config : dict yaml) : yaml :=
  match dict_get flag section_config with
  | Some v => v
  | None => YNull
  end.

(** The test of the loop body on one section. *)
Definition section_enabled (section_config : yaml) : bool :=
  match section_config with
  | YMap cfg =>
      is_True (get_flag "enable" cfg)
      || is_True (get_flag "enable5G" cfg)
      || is_True (get_flag "enable4G" cfg)
  | _ => false
  end.

(** [base_values] is the text of the file at [base_values_file]. *)
Definition get_enabled_sections `{PyEnv} (base_values : str)
  : result (list str) :=
  values <- call (yaml_safe_load base_values);;
  if py_truthy values then
    items <- py_items values;;
    Ok (fold_left
          (fun enabled_sections kv =>
             if section_enabled (snd kv)
             then enabled_sections ++ [fst kv]
             else enabled_sections)
          items [])
  else Ok [].

(** ** Override Builder: [build_image_overrides] (lines 305-357) *)

(** Lines 323-328: the chart directory of a section, with the fallback
    for the section whose subchart was renamed. *)
Definition locate_section_dir (chart_dir : fsnode) (section_name : str)
  : result (option fsnode) :=
  section_dir <- find_single_directory chart_dir section_name;;
  match section_dir with
  | None =>
      if str_eqb section_name "omec-user-plane"
      then find_single_directory chart_dir "bess-upf"
      else Ok None
  | Some _ => Ok section_dir
  end.

(** Lines 340-345: the replacement of each declared tag. *)
Definition override_tags `{PyEnv} (image_name local_image_name
  registry_prefix : str) (declared : dict yaml) : dict yaml :=
  fold_left
    (fun tags kv =>
       dict_set (fst kv)
         (if str_eqb (fst kv) image_name
          then YStr local_image_name
          else YStr (registry_prefix ++ py_str (snd kv)))
         tags)
    declared [].

(** Lines 348-353 *)
Definition override_struct (tags : dict yaml) : yaml :=
  YMap [("images" : str,
         YMap [("repository" : str, YStr ""); ("tags" : str, YMap tags)])].

(** Lines 323-353, one iteration: [None] when the iteration ends in
    [continue], the section's override structure otherwise. *)
Definition section_override `{PyEnv} (chart_dir : fsnode)
  (image_name local_image_name registry_prefix section_name : str)
  : result (option yaml) :=
  section_dir <- locate_section_dir chart_dir section_name;;
  match section_dir with
  | None => Ok None
  | Some dir =>
      match child dir "values.yaml" with
      | None => Ok None
      | Some values_file =>
          text <- read_file values_file;;
          chart_values <- call (yaml_safe_load text);;
          images <- py_get chart_values "images" (YMap []);;
          declared <- py_get images "tags" YNull;;
          if negb (py_truthy declared) then Ok None
          else
            images' <- py_get chart_values "images" (YMap []);;
            declared' <- py_get images' "tags" (YMap []);;
            items <- py_items declared';;
            Ok (Some (override_struct
                        (override_tags image_name local_image_name
                           registry_prefix items)))
      end
  end.

(** The loop over the enabled sections, with its variable [overrides]. *)
Fixpoint build_loop `{PyEnv} (chart_dir : fsnode)
  (image_name local_image_name registry_prefix : str)
  (enabled_sections : list str) (overrides : dict yaml)
  : result (dict yaml) :=
  match enabled_sections with
  | [] => Ok overrides
  | section_name :: rest =>
      o <- section_override chart_dir image_name local_image_name
             registry_prefix section_name;;
      build_loop chart_dir image_name local_image_name registry_prefix rest
        (match o with
         | None => overrides
         | Some s => dict_set section_name s overrides
         end)
  end.

Definition build_image_overrides `{PyEnv} (chart_dir : fsnode)
  (base_values : str) (image_name local_image_name registry_prefix : str)
  : result (dict yaml) :=
  enabled_sections <- get_enabled_sections base_values;;
  match enabled_sections with
  | [] => Ok []
  | _ :: _ =>
      build_loop chart_dir image_name local_image_name registry_prefix
        enabled_sections []
  end.

(** ** Orchestrator: [configure_sdcore_images] (lines 360-451) *)

(** [deep_merge_dict] as [merge_yaml_files] calls it, on whatever the two
    files hold: [base.copy()] needs a dict or a list, [override.items()]
    a dict, and [result[key]] a dict once the loop runs. *)
Definition deep_merge_loaded (base override : yaml) : result yaml :=
  match base, override with
  | YMap b, YMap o => Ok (YMap (deep_merge_dict b o))
  | YSeq xs, YMap [] => Ok (YSeq xs)
  | YSeq _, YMap (_ :: _) => Raise TypeError
  | _, _ => Raise AttributeError
  end.

(** [x or {}] *)
Definition or_empty_dict (v : yaml) : yaml :=
  if py_truthy v then v else YMap [].

(** [merge_yaml_files] (lines 241-249), on the texts of the two files. *)
Definition merge_yaml_files `{PyEnv} (base_text override_text : str)
  : result yaml :=
  base <- call (yaml_safe_load base_text);;
  override <- call (yaml_safe_load override_text);;
  deep_merge_loaded (or_empty_dict base) (or_empty_dict override).

(** The files of the aether-onramp tree the operation reads and writes:
    [sdcore-5g-values.yaml] and [vars/main.yml]; [None] is a file that
    does not exist. *)
Record world : Type := {
  values_file : option str;
  vars_file : option str
}.

(** [get_chart_info] (lines 252-267) *)
Definition get_chart_info `{PyEnv} (w : world) : result (yaml * yaml) :=
  match vars_file w with
  | None => Raise FileNotFoundError
  | Some text =>
      vars_data <- call (yaml_safe_load text);;
      core <- py_get vars_data "core" (YMap []);;
      helm <- py_get core "helm" (YMap []);;
      chart_ref <- py_get helm "chart_ref" YNull;;
      core' <- py_get vars_data "core" (YMap []);;
      helm' <- py_get core' "helm" (YMap []);;
      chart_version <- py_get helm' "chart_version" YNull;;
      if negb (py_truthy chart_ref) || negb (py_truthy chart_version)
      then Exit 1
      else Ok (chart_ref, chart_version)
  end.

Definition registry_prefix_const : str := "registry.aetherproject.org/proxy/".

(** Lines 378-435: everything between reading the values file and
    writing it back; the result is [final_content]. *)
Definition compute_final_content `{PyEnv} (w : world)
  (original_content image_name local_image_name : str) : result str :=
  let '(modified_content, template_map) :=
    replace_aether_templates_with_placeholders original_content in
  '(chart_ref, chart_version) <- get_chart_info w;;
  entries <- call (helm_pull chart_ref chart_version);;
  match filter (fun d => is_dir d && starts_with "sd-core" (node_name d))
          entries with
  | [] => Exit 1
  | [pulled_chart_dir] =>
      overrides <- build_image_overrides pulled_chart_dir modified_content
                     image_name local_image_name registry_prefix_const;;
      merged_data <- merge_yaml_files modified_content
                       (yaml_dump (YMap overrides));;
      restore_aether_templates (yaml_dump merged_data) template_map
  | _ :: _ :: _ => Exit 1
  end.

(** The operation returns how it ended and the files it leaves. *)
Definition configure_sdcore_images `{PyEnv} (w : world)
  (image_name local_image_name : str) : result unit * world :=
  match values_file w with
  | None => (Exit 1, w)
  | Some original_content =>
      match compute_final_content w original_content image_name
              local_image_name with
      | Ok final_content =>
          (Ok tt, {| values_file := Some final_content;
                     vars_file := vars_file w |})
      | Exit code => (Exit code, w)
      | Raise e => (Raise e, w)
      end
  end.


(* ================================================================== *)
(** * Notions used to state and prove the properties *)
(* ================================================================== *)

(** ** Induction on documents *)

Section YamlInd.
Variable P : yaml -> Prop.
Hypothesis Hnull : P YNull.
Hypothesis Hbool : forall b, P (YBool b).
Hypothesis Hint : forall z, P (YInt z).
Hypothesis Hstr : forall s, P (YStr s).
Hypothesis Hseq : forall xs, Forall P xs -> P (YSeq xs).
Hypothesis Hmap : forall kvs, Forall (fun kv => P (snd kv)) kvs -> P (YMap kvs).

Fixpoint yaml_ind (v : yaml) : P v :=
  match v with
  | YNull => Hnull
  | YBool b => Hbool b
  | YInt z => Hint z
  | YStr s => Hstr s
  | YSeq xs =>
      Hseq xs
        ((fix go (l : list yaml) : Forall P l :=
            match l with
            | [] => Forall_nil _
            | x :: l' => Forall_cons x (yaml_ind x) (go l')
            end) xs)
  | YMap kvs =>
      Hmap kvs
        ((fix go (l : list (str * yaml)) : Forall (fun kv => P (snd kv)) l :=
            match l with
            | [] => Forall_nil _
            | kv :: l' => Forall_cons kv (yaml_ind (snd kv)) (go l')
            end) kvs)
  end.
End YamlInd.

(** ** The merge, one iteration at a time *)

(** The equation the source reads as: one iteration of the loop. *)
Definition merge_step (result : dict yaml) (kv : str * yaml) : dict yaml :=
  dict_set (fst kv) (merged_value (dict_get (fst kv) result) (snd kv)) result.

(** ** The override of a section *)

(** The replacement of one declared tag (lines 342-345). *)
Definition tag_override `{PyEnv} (image_name local_image_name
  registry_prefix tag_name : str) (tag_value : yaml) : yaml :=
  if str_eqb tag_name image_name
  then YStr local_image_name
  else YStr (registry_prefix ++ py_str tag_value).

(** The chart of a section declares the mapping [tags] as its
    images.tags: the section's directory is found, it has a values file,
    and that file holds a mapping with [tags] under images.tags. *)
Definition chart_declares_tags `{PyEnv} (chart_dir : fsnode)
  (section_name : str) (tags : dict yaml) : Prop :=
  exists dir file_name text values images,
    locate_section_dir chart_dir section_name = Ok (Some dir)
    /\ child dir "values.yaml" = Some (File file_name text)
    /\ yaml_safe_load text = Returns (YMap values)
    /\ dict_get "images" values = Some (YMap images)
    /\ dict_get "tags" images = Some (YMap tags).

(** ** Template expressions and tokens *)

(** A decimal digit. *)
Definition is_digit (c : ascii) : bool :=
  match Init.Nat.leb 48 (nat_of_ascii c), Init.Nat.leb (nat_of_ascii c) 57 with
  | true, true => true
  | _, _ => false
  end.

(** The template expressions of a text, as [template_pattern.findall]
    lists them: the matches the substitution replaces, in order. *)
Fixpoint findall_from (skip : nat) (s : str) : list str :=
  match s with
  | [] => []
  | c :: rest =>
      match skip with
      | S n => findall_from n rest
      | O =>
          match match_template s with
          | Some (m, _) => m :: findall_from (length m - 1) rest
          | None => findall_from 0 rest
          end
      end
  end.

Definition template_expressions (s : str) : list str := findall_from 0 s.

(** A template expression: two opening braces, a non-empty body without
    closing brace, two closing braces. *)
Definition is_template (t : str) : Prop :=
  exists body,
    body <> [] /\ forallb not_rbrace body = true
    /\ t = ("{{" : str) ++ body ++ ("}}" : str).

(** A text holds no template expression. *)
Definition has_no_template (text : str) : Prop :=
  forall a t b, text = a ++ t ++ b -> ~ is_template t.

(** A protected text, cut at its tokens: stretches of text, and template
    expressions with the index of their token. *)
Inductive piece : Type :=
| Text (s : str)
| Tpl (index : nat) (template : str).

(** A piece as it stands in the content: a template whose token has been
    restored is the template text, another one is its quoted token. *)
Definition render (restored : nat -> bool) (p : piece) : str :=
  match p with
  | Text s => s
  | Tpl i t => if restored i then t else quoted (placeholder_name i)
  end.

Definition render_all (restored : nat -> bool) (ps : list piece) : str :=
  flat_map (render restored) ps.

Definition token_prefix : str := "AETHER_PLACEHOLDER_".

(** The same scan as [re_sub_from], keeping the pieces apart. *)
Fixpoint pieces_from (skip idx : nat) (s : str) : list piece :=
  match s with
  | [] => []
  | c :: rest =>
      match skip with
      | S n => pieces_from n idx rest
      | O =>
          match match_template s with
          | Some (m, _) => Tpl idx m :: pieces_from (length m - 1) (S idx) rest
          | None => Text [c] :: pieces_from 0 idx rest
          end
      end
  end.

Definition templates_of (ps : list piece) : list (nat * str) :=
  flat_map (fun p => match p with Tpl i t => [(i, t)] | Text _ => [] end) ps.

Definition token_entry (it : nat * str) : str * str :=
  (placeholder_name (fst it), snd it).


(** ** Example inputs *)

(** Collaborators given by a table: [files] maps the text of a file to
    what [yaml.safe_load] returns on it, [pulled] is what the chart pull
    leaves in its destination. *)
Definition table_env (files : dict yaml) (pulled : list fsnode) : PyEnv := {|
  yaml_safe_load := fun text =>
    match dict_get text files with
    | Some v => Returns v
    | None => Raises (OtherError "YAMLError")
    end;
  yaml_dump := fun _ => "{}";
  py_repr := fun _ => "[]";
  helm_pull := fun _ _ => Returns pulled
|}.

(** A values file with one section whose flag is the integer 1. *)
Definition flag_one_text : str := "amf:
  enable: 1
".

Definition flag_one_doc : dict yaml :=
  [("amf" : str, YMap [("enable" : str, YInt 1)])].

Definition flag_one_env : PyEnv :=
  table_env [(flag_one_text, YMap flag_one_doc)] [].

(** A values file with two enabled sections and one that is off. *)
Definition values_text : str := "amf:
  enable5G: true
omec-user-plane:
  enable: true
webui:
  enable: false
".

Definition values_doc : dict yaml :=
  [("amf" : str, YMap [("enable5G" : str, YBool true)]);
   ("omec-user-plane" : str, YMap [("enable" : str, YBool true)]);
   ("webui" : str, YMap [("enable" : str, YBool false)])].

Definition amf_values_text : str := "images:
  tags:
    amf: omecproject/5gc-amf:rel-1.6
    init: omecproject/busybox:stable
".

Definition amf_tags : dict yaml :=
  [("amf" : str, YStr "omecproject/5gc-amf:rel-1.6");
   ("init" : str, YStr "omecproject/busybox:stable")].

Definition amf_values_doc : yaml :=
  YMap [("images" : str, YMap [("tags" : str, YMap amf_tags)])].

Definition upf_values_text : str := "images:
  tags:
    bess: omecproject/upf-epc-bess:rel-2.1
".

Definition upf_tags : dict yaml :=
  [("bess" : str, YStr "omecproject/upf-epc-bess:rel-2.1")].

Definition upf_values_doc : yaml :=
  YMap [("images" : str, YMap [("tags" : str, YMap upf_tags)])].

(** A pulled chart: the subchart of [amf], and the user-plane subchart
    under its other name. *)
Definition sd_core_chart : fsnode :=
  Dir "sd-core"
    [File "Chart.yaml" "name: sd-core";
     Dir "charts"
       [Dir "5g-control-plane"
          [Dir "amf" [File "values.yaml" amf_values_text]];
        Dir "bess-upf" [File "values.yaml" upf_values_text]]].

Definition chart_env : PyEnv :=
  table_env
    [(values_text, YMap values_doc);
     (amf_values_text, amf_values_doc);
     (upf_values_text, upf_values_doc)]
    [sd_core_chart].

(** A chart whose [amf] subchart declares an empty tag mapping. *)
Definition no_tags_text : str := "images:
  tags: {}
".

Definition no_tags_doc : yaml :=
  YMap [("images" : str, YMap [("tags" : str, YMap [])])].

Definition no_tags_chart : fsnode :=
  Dir "sd-core" [Dir "amf" [File "values.yaml" no_tags_text]].

Definition no_tags_env : PyEnv :=
  table_env [(values_text, YMap values_doc); (no_tags_text, no_tags_doc)]
    [no_tags_chart].

(** A chart whose [amf] subchart has a values file holding comments
    only, which [yaml.safe_load] reads as [None]. *)
Definition comments_only_text : str := "# no values
".

Definition empty_values_chart : fsnode :=
  Dir "sd-core" [Dir "amf" [File "values.yaml" comments_only_text]].

Definition empty_values_env : PyEnv :=
  table_env [(values_text, YMap values_doc); (comments_only_text, YNull)]
    [empty_values_chart].

(** A chart with two directories called [amf]. *)
Definition ambiguous_chart : fsnode :=
  Dir "sd-core"
    [Dir "charts"
       [Dir "5g-control-plane" [Dir "amf" []];
        Dir "legacy" [Dir "amf" []]]].

Definition vars_text : str := "core:
  helm:
    chart_ref: aether/sd-core
    chart_version: 2.2.1
".

Definition vars_doc : yaml :=
  YMap [("core" : str,
         YMap [("helm" : str,
                YMap [("chart_ref" : str, YStr "aether/sd-core");
                      ("chart_version" : str, YStr "2.2.1")])])].

Definition ambiguous_env : PyEnv :=
  table_env [(values_text, YMap values_doc); (vars_text, vars_doc)]
    [ambiguous_chart].

Definition ambiguous_world : world :=
  {| values_file := Some values_text; vars_file := Some vars_text |}.

(** A base document and an override for it. *)
Definition merge_base : dict yaml :=
  [("amf" : str,
    YMap [("enable5G" : str, YBool true);
          ("images" : str, YMap [("pullPolicy" : str, YStr "Always")]);
          ("ports" : str, YSeq [YInt 80; YInt 443])]);
   ("webui" : str, YMap [("enable" : str, YBool false)])].

Definition merge_override : dict yaml :=
  [("amf" : str,
    YMap [("images" : str,
           YMap [("repository" : str, YStr "");
                 ("tags" : str, YMap [("amf" : str, YStr "local:test")])]);
          ("ports" : str, YSeq [YInt 8080])])].

(** A values text with two template expressions, one with none, and one
    that already holds a quoted token. *)
Definition templated_text : str := "amf:
  host: {{ core.amf.ip }}
  port: {{ core.amf.port }}
".

Definition plain_text : str := "amf:
  enable5G: true
  ports: {http: 80}
".

Definition collision_text : str :=
  ("name: " : str) ++ quoted "AETHER_PLACEHOLDER_0" ++ (" ip: {{ ip }}" : str).

Definition collision_result : str :=
  ("name: {{ ip }} ip: {{ ip }}" : str).

(* ================================================================== *)
(** * Part I, continued: the rest of the script *)
(* ================================================================== *)

(** ** [update_vars_main] (lines 121-141)

    The file is [vars/main.yml] of the world; a [RuntimeError] is not
    caught by [main] and escapes. *)

Definition RuntimeError : pyexn := OtherError "RuntimeError".

Definition update_vars_main (w : world) (interface ip_addr : str)
  : result unit * world :=
  match vars_file w with
  | None => (Raise FileNotFoundError, w)
  | Some content =>
      let updated_content := py_replace "ens18" interface content in
      if str_eqb updated_content content then (Raise RuntimeError, w)
      else
        let content := updated_content in
        let updated_content := py_replace "10.76.28.113" ip_addr content in
        if str_eqb updated_content content then (Raise RuntimeError, w)
        else
          (Ok tt,
           {| values_file := values_file w;
              vars_file := Some updated_content |})
  end.

(** ** Example inputs for the loaders *)

Definition empty_file_text : str := "".

(** The files of [merge_base] and [merge_override], and an empty file. *)
Definition merge_env : PyEnv :=
  table_env
    [("base.yaml" : str, YMap merge_base);
     ("override.yaml" : str, YMap merge_override);
     (empty_file_text, YNull);
     (vars_text, vars_doc)]
    [].

Definition vars_world : world :=
  {| values_file := None; vars_file := Some vars_text |}.

(** ** Notions for the chart tree *)


Section FsnodeInd.
Variable P : fsnode -> Prop.
Hypothesis Hfile : forall name content, P (File name content).
Hypothesis Hdir : forall name entries, Forall P entries -> P (Dir name entries).

End FsnodeInd.

(** ** Notions for the protected text *)

(** The protected form of a text whose first token has index [idx]. *)
Definition protected_from (idx : nat) (s : str) : str :=
  render_all (fun _ => false) (pieces_from 0 idx s).

(** What follows two opening braces completes a template expression: a
    non-empty stretch without closing brace, then two closing braces. *)
Definition closes_template (r : str) : bool :=
  let '(body, s2) := span not_rbrace r in
  match body with
  | [] => false
  | _ :: _ => starts_with "}}" s2
  end.

(** ** Example input for [update_vars_main] *)

Definition onramp_vars_text : str := "core:
  data_iface: ens18
  amf:
    ip: 10.76.28.113
".

Definition onramp_world : world :=
  {| values_file := None; vars_file := Some onramp_vars_text |}.

(** ** Notions for a content whose tokens have lost their quotes *)

(** A piece as it stands once the quotes of its token are gone (as
    [yaml.dump] writes a token that is a whole scalar). *)
Definition render_bare (restored : nat -> bool) (p : piece) : str :=
  match p with
  | Text s => s
  | Tpl i t => if restored i then t else placeholder_name i
  end.

Definition render_bare_all (restored : nat -> bool) (ps : list piece) : str :=
  flat_map (render_bare restored) ps.

(** A character that may follow a token: no digit (it would lengthen the
    number of the token) and no quote. *)
Definition follower_ok (c : ascii) : bool :=
  negb (is_digit c) && negb (Ascii.eqb c dquote).

Definition first_char_ok (ps : list piece) : bool :=
  match ps with
  | [] => true
  | Text [] :: _ => false
  | Text (c :: _) :: _ => follower_ok c
  | Tpl _ [] :: _ => false
  | Tpl _ (c :: _) :: _ => follower_ok c
  end.

(** What follows each template of the pieces starts with a character
    that may follow a token. *)
Fixpoint well_followed (ps : list piece) : bool :=
  match ps with
  | [] => true
  | Tpl _ _ :: ps' => first_char_ok ps' && well_followed ps'
  | Text _ :: ps' => well_followed ps'
  end.

(** The strings of a list come longest first. *)
Fixpoint longest_first (l : list str) : bool :=
  match l with
  | [] => true
  | x :: l' => forallb (fun y => length y <=? length x) l' && longest_first l'
  end.

(** A dumped file whose two tokens stand bare, the number of one
    starting the number of the other, and its table, held in the other
    order. *)
Definition dumped_pieces : list piece :=
  [Text "amf:"; Text "  ip: "; Tpl 10 "{{ core.amf.ip }}";
   Text [ascii_of_nat 10];
   Text "  name: "; Tpl 1 "{{ core.name }}"; Text "-amf"].

Definition dumped_table : dict str :=
  [(placeholder_name 1, lit "{{ core.name }}");
   (placeholder_name 10, lit "{{ core.amf.ip }}")].

(** ** Characters, lines and words

    The character classes of Python on the first 256 code points. *)

Definition between (lo hi n : nat) : bool := (lo <=? n) && (n <=? hi).

(** [c.isspace()], which is also [\s] of [re]. *)
Definition is_space (c : ascii) : bool :=
  let n := nat_of_ascii c in
  between 9 13 n || between 28 31 n || (n =? 32) || (n =? 133) || (n =? 160).

(** A line boundary of [str.splitlines]. *)
Definition is_linebreak (c : ascii) : bool :=
  let n := nat_of_ascii c in
  between 10 13 n || between 28 30 n || (n =? 133).

(** [\w] of [re]: letters, digits of every kind, and the underscore. *)
Definition is_word (c : ascii) : bool :=
  let n := nat_of_ascii c in
  between 48 57 n || between 65 90 n || (n =? 95) || between 97 122 n
  || (n =? 170) || between 178 179 n || (n =? 181) || between 185 186 n
  || between 188 190 n || between 192 214 n || between 216 246 n
  || between 248 255 n.

Definition newline : ascii := ascii_of_nat 10.
Definition carriage_return : ascii := ascii_of_nat 13.

(** [s.splitlines()]: [line] is the line being read, [after_cr] tells
    that the last character was a carriage return, whose line feed, if
    one follows, belongs to the same boundary.  A text ending in a
    boundary has no empty last line. *)
Fixpoint splitlines_from (line : str) (after_cr : bool) (s : str)
  : list str :=
  match s with
  | [] => match line with [] => [] | _ :: _ => [line] end
  | c :: rest =>
      if after_cr && Ascii.eqb c newline then splitlines_from line false rest
      else if is_linebreak c
           then line :: splitlines_from [] (Ascii.eqb c carriage_return) rest
           else splitlines_from (line ++ [c]) false rest
  end.

Definition py_splitlines (s : str) : list str := splitlines_from [] false s.

(** [s.split()]: the words between runs of whitespace. *)
Fixpoint split_from (word : str) (s : str) : list str :=
  match s with
  | [] => match word with [] => [] | _ :: _ => [word] end
  | c :: rest =>
      if is_space c
      then match word with
           | [] => split_from [] rest
           | _ :: _ => word :: split_from [] rest
           end
      else split_from (word ++ [c]) rest
  end.

Definition py_split (s : str) : list str := split_from [] s.

(** [l.index(x)] *)
Fixpoint py_index (x : str) (l : list str) : option nat :=
  match l with
  | [] => None
  | y :: l' => if str_eqb y x then Some 0 else option_map S (py_index x l')
  end.

(** [sep.join(l)] *)
Fixpoint py_join (sep : str) (l : list str) : str :=
  match l with
  | [] => []
  | [x] => x
  | x :: l' => x ++ sep ++ py_join sep l'
  end.

Definition ValueError : pyexn := OtherError "ValueError".
Definition IndexError : pyexn := OtherError "IndexError".

(** ** Network detection (get_network_info) *)

(** The [ip] command, as [run_command] calls it with output captured
    and [check=True]: the text it prints, or the error of a failed
    call. *)
Class IpCommand := {
  ip_route : outcome str;
  ip_addr_show : str -> outcome str
}.

(** The loop over the lines of [ip route]: the first line holding
    [default] decides; the interface is the word after the first word
    [dev] of that line.  The [else] of the loop raises. *)
Fixpoint default_interface (lines : list str) : result str :=
  match lines with
  | [] => Raise RuntimeError
  | line :: rest =>
      if occurs "default" line then
        let parts := py_split line in
        match py_index "dev" parts with
        | None => Raise ValueError
        | Some i =>
            match nth_error parts (i + 1) with
            | None => Raise IndexError
            | Some interface => Ok interface
            end
        end
      else default_interface rest
  end.

(** [\d+]: a non-empty run of digits, as long as it can be. *)
Definition match_number (s : str) : option (str * str) :=
  let '(digits, rest) := span is_digit s in
  match digits with
  | [] => None
  | _ :: _ => Some (digits, rest)
  end.

(** [\.] *)
Definition match_dot (s : str) : option str :=
  match s with
  | c :: rest => if Ascii.eqb c "."%char then Some rest else None
  | [] => None
  end.

(** One attempt of [inet\s+(\d+\.\d+\.\d+\.\d+)] at the start of [s]:
    the text of group 1.  Each repetition is greedy, and giving back
    characters cannot help: what follows a run of whitespace must be a
    digit, what follows the first three runs of digits a dot. *)
Definition match_inet (s : str) : option str :=
  if starts_with "inet" s then
    let '(spaces, s1) := span is_space (skipn 4 s) in
    match spaces with
    | [] => None
    | _ :: _ =>
        match match_number s1 with
        | None => None
        | Some (d1, s2) =>
        match match_dot s2 with
        | None => None
        | Some s3 =>
        match match_number s3 with
        | None => None
        | Some (d2, s4) =>
        match match_dot s4 with
        | None => None
        | Some s5 =>
        match match_number s5 with
        | None => None
        | Some (d3, s6) =>
        match match_dot s6 with
        | None => None
        | Some s7 =>
        match match_number s7 with
        | None => None
        | Some (d4, _) =>
            Some (d1 ++ lit "." ++ d2 ++ lit "." ++ d3 ++ lit "." ++ d4)
        end end end end end end end
    end
  else None.

(** [re.search] with that pattern: the first place where it matches. *)
Fixpoint search_inet (s : str) : option str :=
  match match_inet s with
  | Some ip_addr => Some ip_addr
  | None =>
      match s with
      | [] => None
      | _ :: rest => search_inet rest
      end
  end.

(** [get_network_info]: whatever is raised inside is caught, reported
    and turned into [sys.exit(1)]. *)
Definition get_network_info `{IpCommand} : result (str * str) :=
  let detected : result (str * str) :=
    stdout <- call ip_route;;
    interface <- default_interface (py_splitlines stdout);;
    stdout <- call (ip_addr_show interface);;
    match search_inet stdout with
    | None => Raise RuntimeError
    | Some ip_addr => Ok (interface, ip_addr)
    end in
  match detected with
  | Ok found => Ok found
  | Exit code => Exit code
  | Raise _ => Exit 1
  end.

(** Four non-empty runs of digits joined by dots. *)
Definition is_number (d : str) : Prop := d <> [] /\ forallb is_digit d = true.

Definition dotted_quad (ip_addr : str) : Prop :=
  exists d1 d2 d3 d4,
    is_number d1 /\ is_number d2 /\ is_number d3 /\ is_number d4
    /\ ip_addr = d1 ++ lit "." ++ d2 ++ lit "." ++ d3 ++ lit "." ++ d4.

(** A word: not empty, no whitespace. *)
Definition is_nonspace (c : ascii) : bool := negb (is_space c).

Definition is_py_word (w : str) : Prop :=
  w <> [] /\ forallb is_nonspace w = true.

(** An [ip] command given by its two outputs. *)
Definition ip_table (route : outcome str) (interface : str)
  (addr : outcome str) : IpCommand :=
  {| ip_route := route;
     ip_addr_show := fun i =>
       if str_eqb i interface then addr
       else Raises (OtherError "CalledProcessError") |}.

Definition route_text : str :=
  lit "default via 10.1.0.1 dev eth0 proto dhcp src 10.1.0.4 metric 100"
  ++ [newline]
  ++ lit "10.1.0.0/24 dev eth0 proto kernel scope link src 10.1.0.4".

Definition addr_text : str :=
  lit "2: eth0: <BROADCAST,MULTICAST,UP,LOWER_UP> mtu 1500 qdisc mq state UP"
  ++ [newline]
  ++ lit "    inet 10.1.0.4/24 metric 100 brd 10.1.0.255 scope global eth0"
  ++ [newline].

Definition usual_ip : IpCommand :=
  ip_table (Returns route_text) "eth0" (Returns addr_text).

(** A route table whose first default route names no device. *)
Definition unreachable_route_text : str :=
  lit "unreachable default metric 4278198272"
  ++ [newline] ++ lit "default via 10.1.0.1 dev eth0".

(** The text starts with a digit. *)
Definition starts_with_digit (s : str) : bool :=
  match s with
  | c :: _ => is_digit c
  | [] => false
  end.

(** The text is empty or starts with a line boundary. *)
Definition ends_line (s : str) : bool :=
  match s with
  | c :: _ => is_linebreak c
  | [] => true
  end.

(** ** Substitution by pattern ([re.sub], [re.subn]) *)

(** A replacement template, read: characters to put, and references to
    the groups of the match. *)
Inductive template_item : Type :=
| Literal (c : ascii)
| Group (index : nat).

Definition re_error : pyexn := OtherError "re.error".

Definition is_octal (c : ascii) : bool := between 48 55 (nat_of_ascii c).

Definition digit_value (c : ascii) : nat := nat_of_ascii c - 48.

(** A backslash and a digit [c] from 1 to 9 in a replacement template,
    [s] being what follows the digit, for a pattern with [groups]
    groups.  As [re] reads it: a second digit makes a two-digit group
    number, but three octal digits are no group at all, they are the
    character of that octal code. *)
Definition numeric_escape (groups : nat) (c : ascii) (s : str)
  : outcome (template_item * str) :=
  let group (index : nat) (rest : str) :=
    if index <=? groups then Returns (Group index, rest)
    else Raises re_error in
  match s with
  | d :: s1 =>
      if is_digit d then
        match s1 with
        | e :: s2 =>
            if is_octal c && is_octal d && is_octal e then
              let code :=
                64 * digit_value c + 8 * digit_value d + digit_value e in
              if code <=? 255 then Returns (Literal (ascii_of_nat code), s2)
              else Raises re_error
            else group (10 * digit_value c + digit_value d) s1
        | [] => group (10 * digit_value c + digit_value d) s1
        end
      else group (digit_value c) s
  | [] => group (digit_value c) s
  end.

(** A replacement without backslash is put as it is. *)
Definition literal_template (replacement : str) : list template_item :=
  map Literal replacement.

Definition expand_item (groups : list str) (item : template_item) : str :=
  match item with
  | Literal c => [c]
  | Group index => nth index groups []
  end.

(** What is put for a match whose groups are [groups], group 0, the
    whole match, first. *)
Definition expand_template (template : list template_item)
  (groups : list str) : str :=
  flat_map (expand_item groups) template.

(** [re.subn] for a pattern that matches no empty text.  [attempt prev s]
    tries the pattern at the start of [s], [prev] being the character
    before that place; it gives the groups of the match.  The scan goes
    from the left and resumes after each match; [skip] counts the
    characters of a match still to pass over. *)
Fixpoint subn_from (attempt : option ascii -> str -> option (list str))
  (template : list template_item) (prev : option ascii) (skip : nat)
  (s : str) : str * nat :=
  match s with
  | [] => ([], 0)
  | c :: rest =>
      match skip with
      | S n => subn_from attempt template (Some c) n rest
      | O =>
          match attempt prev s with
          | Some groups =>
              let '(out, count) :=
                subn_from attempt template (Some c)
                  (length (nth 0 groups []) - 1) rest in
              (expand_template template groups ++ out, S count)
          | None =>
              let '(out, count) :=
                subn_from attempt template (Some c) 0 rest in
              (c :: out, count)
          end
      end
  end.

Definition re_subn (attempt : option ascii -> str -> option (list str))
  (template : list template_item) (s : str) : str * nat :=
  subn_from attempt template None 0 s.

(** [\b]: a place between a word character and something else, the
    ends of the text counting as something else. *)
Definition word_before (prev : option ascii) : bool :=
  match prev with
  | Some c => is_word c
  | None => false
  end.

Definition word_at (s : str) : bool :=
  match s with
  | c :: _ => is_word c
  | [] => false
  end.

Definition boundary (prev : option ascii) (s : str) : bool :=
  xorb (word_before prev) (word_at s).

(** ** Timeouts (update_timeouts_and_fixes) *)

(** One attempt of the first pattern, the group [\btimeout:\s*]
    followed by [300s\b]: group 0 and group 1.  The
    run of whitespace is greedy; giving back whitespace cannot help,
    since 300s does not start with whitespace. *)
Definition match_timeout_300s (prev : option ascii) (s : str)
  : option (list str) :=
  if boundary prev s && starts_with "timeout:" s then
    let '(spaces, s1) := span is_space (skipn 8 s) in
    if starts_with "300s" s1 && boundary (Some "s"%char) (skipn 4 s1)
    then Some [lit "timeout:" ++ spaces ++ lit "300s";
               lit "timeout:" ++ spaces]
    else None
  else None.

(** The replacement template of the source, a backslash followed by
    1600s: a numeric escape, then plain characters. *)
Definition timeout_template : outcome (list template_item) :=
  match numeric_escape 1 "1" "600s" with
  | Returns (item, rest) => Returns (item :: literal_template rest)
  | Raises e => Raises e
  end.

(** One attempt of [--timeout\s+10m\b]. *)
Definition match_timeout_10m (prev : option ascii) (s : str)
  : option (list str) :=
  if starts_with "--timeout" s then
    let '(spaces, s1) := span is_space (skipn 9 s) in
    match spaces with
    | [] => None
    | _ :: _ =>
        if starts_with "10m" s1 && boundary (Some "m"%char) (skipn 3 s1)
        then Some [lit "--timeout" ++ spaces ++ lit "10m"]
        else None
    end
  else None.

(** One attempt of [\b2m30s\b]. *)
Definition match_2m30s (prev : option ascii) (s : str) : option (list str) :=
  if boundary prev s && starts_with "2m30s" s
     && boundary (Some "s"%char) (skipn 5 s)
  then Some [lit "2m30s"]
  else None.

(** The line that waits for a deployment of kube-system. *)
Definition is_deployment_wait (line : str) : bool :=
  occurs "kubectl" line && occurs "wait deployment" line
  && occurs "kube-system" line.

(** The lines that are kept, joined by line feeds. *)
Definition drop_deployment_wait (content : str) : str :=
  py_join [newline]
    (filter (fun line => negb (is_deployment_wait line))
       (py_splitlines content)).

(** The two task files the function rewrites. *)
Record install_files : Type := {
  rke2_install : option str;
  core_install : option str
}.

(** [update_timeouts_and_fixes]: the RKE2 file is read, rewritten and
    written, then the 5gc file.  The numbers of replacements only
    decide about warnings. *)
Definition update_timeouts_and_fixes (f : install_files)
  : result unit * install_files :=
  match rke2_install f with
  | None => (Raise FileNotFoundError, f)
  | Some content =>
      match timeout_template with
      | Raises e => (Raise e, f)
      | Returns template =>
          let '(updated_content, timeout_replacements) :=
            re_subn match_timeout_300s template content in
          let content := updated_content in
          let content := drop_deployment_wait content in
          let f := {| rke2_install := Some content;
                      core_install := core_install f |} in
          match core_install f with
          | None => (Raise FileNotFoundError, f)
          | Some core_content =>
              let '(core_content, timeout_flag_replacements) :=
                re_subn match_timeout_10m (literal_template "--timeout 25m")
                  core_content in
              let '(core_content, duration_replacements) :=
                re_subn match_2m30s (literal_template "10m") core_content in
              (Ok tt,
               {| rke2_install := rke2_install f;
                  core_install := Some core_content |})
          end
      end
  end.

(** The character before the place reached after [l], [prev] being the
    character before [l]. *)
Definition last_char (prev : option ascii) (l : str) : option ascii :=
  fold_left (fun _ c => Some c) l prev.

(** No line boundary but the line feed. *)
Definition only_line_feeds (s : str) : bool :=
  forallb (fun c => negb (is_linebreak c) || Ascii.eqb c newline) s.

(** No place of [l] starts the pattern [p], whatever follows [l]: at
    every place the two differ before either ends. *)
Definition clashes_inside (p l : str) : bool :=
  forallb (fun k => negb (starts_with p (skipn k l))
                    && negb (starts_with (skipn k l) p))
    (seq 0 (length l)).

(** The pattern [p] starts at no place of [l], when [rest] follows. *)
Definition starts_nowhere (p l rest : str) : Prop :=
  forall l1 l2, l = l1 ++ l2 -> l2 <> [] -> starts_with p (l2 ++ rest) = false.

(** A task file of RKE2 with one timeout field, and a 5gc task file. *)
Definition rke2_text : str :=
  lit "- name: wait for rke2" ++ [newline]
  ++ lit "  wait_for:" ++ [newline]
  ++ lit "    timeout: 300s" ++ [newline].

Definition core_text : str :=
  lit "  shell: helm upgrade --wait --timeout 2m30s sd-core" ++ [newline].

Definition install_example : install_files :=
  {| rke2_install := Some rke2_text; core_install := Some core_text |}.

(** ** The inventory (update_hosts_ini) *)

(** [re]'s reader of replacement templates, for the replacements that
    hold a backslash. *)
Class PyRe := {
  parse_template : str -> outcome (list template_item)
}.

Definition backslash : ascii := ascii_of_nat 92.

Definition has_backslash (s : str) : bool := existsb (Ascii.eqb backslash) s.

(** The template of a replacement is read before the text is scanned; a
    replacement without backslash is put as it is. *)
Definition read_replacement `{PyRe} (replacement : str)
  : outcome (list template_item) :=
  if has_backslash replacement then parse_template replacement
  else Returns (literal_template replacement).

(** [re.sub] *)
Definition re_sub `{PyRe}
  (attempt : option ascii -> str -> option (list str))
  (replacement s : str) : result str :=
  template <- call (read_replacement replacement);;
  Ok (fst (re_subn attempt template s)).

(** One attempt of [key=\S+], [key] standing for the name and the
    equals sign: the value is the longest run without whitespace, and
    it is not empty. *)
Definition match_parameter (key : str) (prev : option ascii) (s : str)
  : option (list str) :=
  if starts_with key s then
    let '(value, _) := span is_nonspace (skipn (length key) s) in
    match value with
    | [] => None
    | _ :: _ => Some [key ++ value]
    end
  else None.

(** [s.strip()] *)
Definition py_lstrip (s : str) : str := snd (span is_space s).

Definition py_strip (s : str) : str := rev (py_lstrip (rev (py_lstrip s))).

(** What the process finds around it: the variable [USER], and which of
    the key files exist. *)
Class HostEnv := {
  env_user : option str;
  key_exists : str -> bool
}.

(** [os.environ.get(name, default)], [variable] being what the
    environment holds under the name. *)
Definition environ_get (variable : option str) (default : str) : str :=
  match variable with
  | Some value => value
  | None => default
  end.

Definition ssh_key_locations : list str :=
  [lit "~/.ssh/id_rsa"; lit "~/.ssh/id_ed25519"; lit "~/.ssh/id_ecdsa"].

(** The loop over the key locations, left at the first that exists. *)
Fixpoint first_existing_key `{HostEnv} (locations : list str) (default : str)
  : str :=
  match locations with
  | [] => default
  | key_path :: rest =>
      if key_exists key_path then key_path
      else first_existing_key rest default
  end.

(** A line that is skipped: empty, blank, or a comment. *)
Definition is_skipped_line (line : str) : bool :=
  match py_strip line with
  | [] => true
  | _ :: _ => starts_with "#" (py_strip line)
  end.

(** The loop over the lines of an existing file. *)
Fixpoint update_host_lines `{PyRe}
  (ip_addr ansible_user ssh_key_file : str) (lines : list str)
  : result (list str) :=
  match lines with
  | [] => Ok []
  | line :: rest =>
      if is_skipped_line line then
        updated_lines <-
          update_host_lines ip_addr ansible_user ssh_key_file rest;;
        Ok (line :: updated_lines)
      else
        line <- re_sub (match_parameter "ansible_host=")
                  (lit "ansible_host=" ++ ip_addr) line;;
        line <- re_sub (match_parameter "ansible_user=")
                  (lit "ansible_user=" ++ ansible_user) line;;
        line <- re_sub (match_parameter "ansible_ssh_private_key_file=")
                  (lit "ansible_ssh_private_key_file=" ++ ssh_key_file) line;;
        updated_lines <-
          update_host_lines ip_addr ansible_user ssh_key_file rest;;
        Ok (line :: updated_lines)
  end.

(** The file that is created when there is none. *)
Definition new_hosts_text (ip_addr ansible_user ssh_key_file : str) : str :=
  lit "[all]" ++ [newline]
  ++ lit "node1 ansible_host=" ++ ip_addr
  ++ lit " ansible_user=" ++ ansible_user ++ lit " "
  ++ lit "ansible_ssh_private_key_file=" ++ ssh_key_file ++ [newline]
  ++ [newline]
  ++ lit "[master_nodes]" ++ [newline]
  ++ lit "node1" ++ [newline]
  ++ [newline]
  ++ lit "[worker_nodes]" ++ [newline]
  ++ [newline]
  ++ lit "[gnbsim_nodes]" ++ [newline]
  ++ lit "node1" ++ [newline].

(** [update_hosts_ini], on the file [hosts.ini], [None] when it does
    not exist: how the function ends and the file it leaves. *)
Definition update_hosts_ini `{HostEnv} `{PyRe} (hosts_file : option str)
  (ip_addr : str) : result unit * option str :=
  let ansible_user := environ_get env_user "runner" in
  let ssh_key_file := first_existing_key ssh_key_locations "~/.ssh/id_rsa" in
  match hosts_file with
  | Some content =>
      let lines := py_splitlines content in
      match update_host_lines ip_addr ansible_user ssh_key_file lines with
      | Ok updated_lines =>
          (Ok tt, Some (py_join [newline] updated_lines))
      | Exit code => (Exit code, hosts_file)
      | Raise e => (Raise e, hosts_file)
      end
  | None =>
      (Ok tt, Some (new_hosts_text ip_addr ansible_user ssh_key_file))
  end.

(** A process of user runner with an ed25519 key, and a reader of
    templates that refuses every template. *)
Definition runner_env : HostEnv :=
  {| env_user := None;
     key_exists := fun p => str_eqb p "~/.ssh/id_ed25519" |}.

Definition strict_re : PyRe :=
  {| parse_template := fun _ => Raises re_error |}.

Definition ci_env : HostEnv :=
  {| env_user := Some (lit "ci");
     key_exists := fun p => str_eqb p "~/.ssh/id_ecdsa" |}.

(** A value that can stand in a line of the inventory: no equals sign,
    no backslash. *)
Definition is_plain (value : str) : Prop :=
  occurs "=" value = false /\ has_backslash value = false.

(** An inventory with a comment, a blank line, a section and a node. *)
Definition hosts_text : str :=
  lit "# inventory" ++ [newline]
  ++ lit "  " ++ [newline]
  ++ lit "[all]" ++ [newline]
  ++ lit "node1 ansible_host=10.76.28.113 ansible_user=aether" ++ [newline].


(** The line of the node in the file the function creates. *)
Definition node_line (ip_addr ansible_user ssh_key_file : str) : str :=
  lit "node1 " ++ lit "ansible_host=" ++ ip_addr
  ++ lit " " ++ lit "ansible_user=" ++ ansible_user
  ++ lit " " ++ lit "ansible_ssh_private_key_file=" ++ ssh_key_file.

(** ** The whole run (main) *)

(** The arguments as [argparse] hands them over: whether the directory
    named first exists, and the two optional names, [None] when not
    given. *)
Record arguments : Type := {
  aether_onramp_dir_exists : bool;
  image_name : option str;
  local_image_name : option str
}.

(** The files of the aether-onramp tree the run reads and writes. *)
Record onramp : Type := {
  hosts_ini : option str;
  sdcore : world;
  installs : install_files
}.

(** A step of the run: how it ends, and the files it leaves. *)
Definition step (A : Type) : Type := onramp -> result A * onramp.

Definition pure_step {A : Type} (r : result A) : step A := fun o => (r, o).

(** Sequencing: a step that does not return ends the run, with the
    files as they are by then. *)
Definition and_then {A B : Type} (m : step A) (k : A -> step B) : step B :=
  fun o =>
    match m o with
    | (Ok a, o') => k a o'
    | (Exit code, o') => (Exit code, o')
    | (Raise e, o') => (Raise e, o')
    end.

Notation "x <-- m ;;; k" := (and_then m (fun x => k))
  (at level 61, m at next level, right associativity).

Definition on_hosts (f : option str -> result unit * option str)
  : step unit :=
  fun o =>
    let '(r, hosts) := f (hosts_ini o) in
    (r, {| hosts_ini := hosts; sdcore := sdcore o; installs := installs o |}).

Definition on_sdcore (f : world -> result unit * world) : step unit :=
  fun o =>
    let '(r, w) := f (sdcore o) in
    (r, {| hosts_ini := hosts_ini o; sdcore := w; installs := installs o |}).

Definition on_installs (f : install_files -> result unit * install_files)
  : step unit :=
  fun o =>
    let '(r, i) := f (installs o) in
    (r, {| hosts_ini := hosts_ini o; sdcore := sdcore o; installs := i |}).

(** The truth value of an optional text: given and not empty. *)
Definition given (name : option str) : bool :=
  match name with
  | Some (_ :: _) => true
  | _ => false
  end.

(** [main], after the arguments are parsed. *)
Definition main `{IpCommand} `{HostEnv} `{PyRe} `{PyEnv} (args : arguments)
  : step unit :=
  if negb (aether_onramp_dir_exists args) then pure_step (Exit 1)
  else
    network <-- pure_step get_network_info ;;;
    let '(interface, ip_addr) := network in
    _ <-- on_hosts (fun hosts => update_hosts_ini hosts ip_addr) ;;;
    _ <-- on_sdcore (fun w => update_vars_main w interface ip_addr) ;;;
    _ <-- on_installs update_timeouts_and_fixes ;;;
    match image_name args, local_image_name args with
    | Some image, Some local_image =>
        if given (image_name args) && given (local_image_name args)
        then on_sdcore (fun w => configure_sdcore_images w image local_image)
        else pure_step (Ok tt)
    | _, _ => pure_step (Ok tt)
    end.

(** A run without image names, on a tree without inventory. *)
Definition plain_arguments : arguments :=
  {| aether_onramp_dir_exists := true;
     image_name := None;
     local_image_name := None |}.

Definition onramp_example : onramp :=
  {| hosts_ini := None; sdcore := onramp_world; installs := install_example |}.

(* ================================================================== *)
(** * Part II: properties *)
(* ================================================================== *)

(** ** Strings and dicts *)

Lemma str_eqb_eq (a b : str) : str_eqb a b = true <-> a = b.
Proof.
  revert b; induction a as [|x a IH]; intros [|y b]; simpl;
    try (split; [discriminate | discriminate]); [tauto|].
  rewrite andb_true_iff, Ascii.eqb_eq, IH.
  split; [intros [-> ->]; reflexivity | intros [= -> ->]; auto].
Qed.

Lemma str_eqb_refl (a : str) : str_eqb a a = true.
Proof. apply str_eqb_eq; reflexivity. Qed.

Lemma str_eqb_neq (a b : str) : a <> b -> str_eqb a b = false.
Proof.
  intros Hne; destruct (str_eqb a b) eqn:E; [|reflexivity].
  apply str_eqb_eq in E; contradiction.
Qed.

Lemma str_eqb_sym (a b : str) : str_eqb a b = str_eqb b a.
Proof.
  destruct (str_eqb b a) eqn:E.
  - apply str_eqb_eq in E; subst; apply str_eqb_refl.
  - apply str_eqb_neq; intros ->; rewrite str_eqb_refl in E; discriminate.
Qed.

Ltac case_key k k' :=
  let E := fresh "E" in
  destruct (str_eqb k k') eqn:E;
  [apply str_eqb_eq in E; try subst | ].

Lemma memb_In (k : str) (l : list str) : memb k l = true <-> In k l.
Proof.
  induction l as [|x l IH]; simpl; [split; [discriminate|tauto]|].
  rewrite orb_true_iff, str_eqb_eq, IH; split; intros [H|H]; auto.
Qed.

Lemma distinct_NoDup (l : list str) : distinct l = true <-> NoDup l.
Proof.
  induction l as [|x l IH]; simpl; [split; [constructor|reflexivity]|].
  rewrite andb_true_iff, negb_true_iff, IH; split.
  - intros [Hx Hl]; constructor; [|assumption].
    intros Hin; apply memb_In in Hin; congruence.
  - intros H; inversion H as [|? ? Hx Hl]; subst; split; [|assumption].
    destruct (memb x l) eqn:E; [apply memb_In in E; contradiction|reflexivity].
Qed.

Section DictFacts.
Context {V : Type}.
Implicit Types (d : dict V) (k : str) (v : V).

Lemma dict_get_set_same k v d : dict_get k (dict_set k v d) = Some v.
Proof.
  induction d as [|[k' v'] d IH]; simpl.
  - now rewrite str_eqb_refl.
  - destruct (str_eqb k k') eqn:E; simpl; rewrite E; auto.
Qed.

Lemma dict_get_set_other k k' v d :
  k <> k' -> dict_get k' (dict_set k v d) = dict_get k' d.
Proof.
  intros Hne; induction d as [|[k0 v0] d IH]; simpl.
  - rewrite str_eqb_neq; auto.
  - destruct (str_eqb k k0) eqn:E; simpl.
    + apply str_eqb_eq in E; subst k0.
      rewrite (str_eqb_neq k' k) by congruence; reflexivity.
    + now rewrite IH.
Qed.

Lemma dict_set_same_value k v d : dict_get k d = Some v -> dict_set k v d = d.
Proof.
  induction d as [|[k0 v0] d IH]; simpl; [discriminate|].
  destruct (str_eqb k k0) eqn:E.
  - now intros [= ->].
  - intros H; now rewrite IH.
Qed.

Lemma dict_get_None_keys k d : dict_get k d = None <-> ~ In k (dict_keys d).
Proof.
  induction d as [|[k0 v0] d IH]; simpl; [tauto|].
  destruct (str_eqb k k0) eqn:E.
  - apply str_eqb_eq in E; subst; split; [discriminate|intros H; elim H; auto].
  - rewrite IH; split; intros H; [intros [->|?]|]; auto.
    rewrite str_eqb_refl in E; discriminate.
Qed.

Lemma dict_get_In k v d : dict_get k d = Some v -> In (k, v) d.
Proof.
  induction d as [|[k0 v0] d IH]; simpl; [discriminate|].
  destruct (str_eqb k k0) eqn:E; [|auto].
  apply str_eqb_eq in E; subst; intros [= ->]; auto.
Qed.

Lemma dict_In_get k v d :
  NoDup (dict_keys d) -> In (k, v) d -> dict_get k d = Some v.
Proof.
  induction d as [|[k0 v0] d IH]; simpl; [tauto|].
  intros Hnd; inversion Hnd as [|? ? Hk0 Hd]; subst.
  intros [[= -> ->]|Hin]; [now rewrite str_eqb_refl|].
  destruct (str_eqb k k0) eqn:E; [|auto].
  apply str_eqb_eq in E; subst k0; elim Hk0.
  change (In (fst (k, v)) (map fst d)); now apply in_map.
Qed.

Lemma dict_set_absent k v d :
  dict_get k d = None -> dict_set k v d = d ++ [(k, v)].
Proof.
  induction d as [|[k0 v0] d IH]; simpl; [reflexivity|].
  destruct (str_eqb k k0); [discriminate|]; intros H; now rewrite IH.
Qed.

(** Setting keys that are new and pairwise distinct appends them. *)
Lemma dict_set_fold_append {A : Type} (g : A -> str) (h : A -> V)
  (items : list A) (acc : dict V) :
  NoDup (dict_keys acc ++ map g items) ->
  fold_left (fun d it => dict_set (g it) (h it) d) items acc
  = acc ++ map (fun it => (g it, h it)) items.
Proof.
  revert acc; induction items as [|it items IH]; intros acc Hnd; simpl.
  - now rewrite app_nil_r.
  - rewrite dict_set_absent.
    + rewrite IH; [now rewrite <- app_assoc|].
      unfold dict_keys in *; rewrite map_app; simpl in *.
      now rewrite <- app_assoc.
    + apply dict_get_None_keys; intros Hin.
      apply NoDup_remove_2 in Hnd; apply Hnd, in_or_app; now left.
Qed.

End DictFacts.

(** ** Structured Merge Engine *)

Lemma deep_merge_dict_fold base override :
  deep_merge_dict base override = fold_left merge_step override base.
Proof. reflexivity. Qed.

Lemma deep_merge_dict_nil base : deep_merge_dict base [] = base.
Proof. reflexivity. Qed.

Lemma deep_merge_dict_cons base key value override :
  deep_merge_dict base ((key, value) :: override) =
  deep_merge_dict
    (dict_set key (merged_value (dict_get key base) value) base) override.
Proof. reflexivity. Qed.

Lemma merged_value_eq current value :
  merged_value current value =
  match current, value with
  | Some (YMap base), YMap override => YMap (deep_merge_dict base override)
  | _, _ => value
  end.
Proof. destruct current as [[]|], value; reflexivity. Qed.

Lemma deep_merge_dict_get base override key :
  NoDup (dict_keys override) ->
  dict_get key (deep_merge_dict base override) =
  match dict_get key override with
  | Some value => Some (merged_value (dict_get key base) value)
  | None => dict_get key base
  end.
Proof.
  revert base; induction override as [|[k v] override IH]; intros base Hnd.
  - reflexivity.
  - inversion Hnd as [|? ? Hk Hrest]; subst.
    rewrite deep_merge_dict_cons, IH by assumption; simpl.
    destruct (str_eqb key k) eqn:E.
    + apply str_eqb_eq in E; subst k.
      apply dict_get_None_keys in Hk; rewrite Hk.
      apply dict_get_set_same.
    + assert (k <> key) by (intros ->; rewrite str_eqb_refl in E; discriminate).
      rewrite dict_get_set_other by assumption; reflexivity.
Qed.

Lemma deep_merge_dict_fixed result override :
  (forall kv, In kv override -> merge_step result kv = result) ->
  deep_merge_dict result override = result.
Proof.
  rewrite deep_merge_dict_fold.
  induction override as [|kv override IH]; intros H; simpl; [reflexivity|].
  rewrite H by (left; reflexivity); apply IH; intros; apply H; now right.
Qed.

Lemma wf_dict_inv (d : dict yaml) :
  wf_dict d = true ->
  NoDup (dict_keys d) /\ Forall (fun kv => wf_yaml (snd kv) = true) d.
Proof.
  unfold wf_dict; simpl; rewrite andb_true_iff, distinct_NoDup, forallb_forall.
  intros [H1 H2]; split; [exact H1 | now apply Forall_forall].
Qed.

(** Merging twice, and merging a document into itself. *)
Lemma merge_twice_and_self (v : yaml) :
  wf_yaml v = true ->
  match v with
  | YMap override =>
      (forall base,
          deep_merge_dict (deep_merge_dict base override) override =
          deep_merge_dict base override)
      /\ deep_merge_dict override override = override
  | _ => True
  end.
Proof.
  induction v as [| | | | |override IH] using yaml_ind; try exact (fun _ => I).
  intros Hwf; apply wf_dict_inv in Hwf as [Hnd Hvals].
  assert (Hself : forall value, wf_yaml value = true ->
            (match value with
             | YMap o => deep_merge_dict o o = o
             | _ => True
             end) ->
            merged_value (Some value) value = value).
  { intros value _ Hv; rewrite merged_value_eq.
    destruct value; try reflexivity; now rewrite Hv. }
  rewrite Forall_forall in IH, Hvals.
  split.
  - intros base; apply deep_merge_dict_fixed; intros [k value] Hin.
    unfold merge_step; simpl; apply dict_set_same_value.
    rewrite deep_merge_dict_get by assumption.
    rewrite (dict_In_get _ _ _ Hnd Hin); f_equal.
    specialize (IH _ Hin (Hvals _ Hin)); simpl in IH.
    rewrite !merged_value_eq.
    destruct value as [| | | | |o];
      try (destruct (dict_get k base) as [[]|]; reflexivity).
    destruct IH as [IH2 IH1].
    destruct (dict_get k base) as [[| | | | |b0]|];
      rewrite ?IH2, ?IH1; reflexivity.
  - apply deep_merge_dict_fixed; intros [k value] Hin.
    unfold merge_step; simpl; apply dict_set_same_value.
    rewrite (dict_In_get _ _ _ Hnd Hin); f_equal; symmetry.
    apply Hself; [now apply (Hvals _ Hin)|].
    specialize (IH _ Hin (Hvals _ Hin)); simpl in IH.
    destruct value; try exact I; apply IH.
Qed.

(** C2.  Merging an override into a base document is a key-wise union
    that recurses exactly where both sides hold a mapping: under every
    key of [override] the result holds the recursive merge when [base]
    and [override] both hold a mapping there, and otherwise the value of
    [override] itself (a sequence or a scalar replaces what was there, it
    is never combined with it); under every key that only
    [base] has, the result holds the value of [base]. *)
Theorem deep_merge_dict_keywise (base override : dict yaml) (key : str) :
  NoDup (dict_keys override) ->
  dict_get key (deep_merge_dict base override) =
  match dict_get key override with
  | Some (YMap o) =>
      match dict_get key base with
      | Some (YMap b) => Some (YMap (deep_merge_dict b o))
      | _ => Some (YMap o)
      end
  | Some value => Some value
  | None => dict_get key base
  end.
Proof.
  intros Hnd; rewrite deep_merge_dict_get by assumption.
  destruct (dict_get key override) as [value|]; [|reflexivity].
  rewrite merged_value_eq.
  destruct value; destruct (dict_get key base) as [[]|]; reflexivity.
Qed.

(** C7.  Merging the same override a second time changes nothing. *)
Theorem deep_merge_dict_idempotent (base override : dict yaml) :
  wf_dict override = true ->
  deep_merge_dict (deep_merge_dict base override) override =
  deep_merge_dict base override.
Proof.
  intros Hwf; apply (merge_twice_and_self (YMap override) Hwf).
Qed.

Lemma deep_merge_dict_keywise_witness :
  dict_get "amf" (deep_merge_dict merge_base merge_override) =
  Some (YMap (deep_merge_dict
                [("enable5G" : str, YBool true);
                 ("images" : str, YMap [("pullPolicy" : str, YStr "Always")]);
                 ("ports" : str, YSeq [YInt 80; YInt 443])]
                [("images" : str,
                  YMap [("repository" : str, YStr "");
                        ("tags" : str,
                         YMap [("amf" : str, YStr "local:test")])]);
                 ("ports" : str, YSeq [YInt 8080])])).
Proof.
  apply (deep_merge_dict_keywise merge_base merge_override "amf").
  apply distinct_NoDup; reflexivity.
Defined.

Lemma deep_merge_dict_idempotent_witness :
  deep_merge_dict (deep_merge_dict merge_base merge_override) merge_override =
  deep_merge_dict merge_base merge_override.
Proof.
  apply (deep_merge_dict_idempotent merge_base merge_override).
  reflexivity.
Defined.

(** ** Section Enabler *)

Lemma is_True_get_flag (flag : str) (cfg : dict yaml) :
  is_True (get_flag flag cfg) = true <-> dict_get flag cfg = Some (YBool true).
Proof.
  unfold get_flag; destruct (dict_get flag cfg) as [[| [|] | | | |]|];
    simpl; split; congruence.
Qed.

Lemma section_enabled_iff (section_config : yaml) :
  section_enabled section_config = true <->
  exists cfg,
    section_config = YMap cfg /\
    (dict_get "enable" cfg = Some (YBool true)
     \/ dict_get "enable5G" cfg = Some (YBool true)
     \/ dict_get "enable4G" cfg = Some (YBool true)).
Proof.
  destruct section_config as [| | | | |cfg]; simpl;
    try (split; [discriminate | intros (c & [=] & _)]).
  rewrite !orb_true_iff, !is_True_get_flag; split.
  - intros H; exists cfg; tauto.
  - intros (c & [= <-] & H); tauto.
Qed.

Lemma enabled_loop_filter (items : dict yaml) (acc : list str) :
  fold_left
    (fun enabled_sections kv =>
       if section_enabled (snd kv)
       then enabled_sections ++ [fst kv]
       else enabled_sections)
    items acc
  = acc ++ dict_keys (filter (fun kv => section_enabled (snd kv)) items).
Proof.
  revert acc; induction items as [|kv items IH]; intros acc; simpl.
  - now rewrite app_nil_r.
  - rewrite IH; destruct (section_enabled (snd kv)); simpl; [|reflexivity].
    now rewrite <- app_assoc.
Qed.

Section Enabler.
Context {E : PyEnv}.

(** The sections come in the order of the document. *)
Lemma get_enabled_sections_filter (text : str) (doc : dict yaml) :
  yaml_safe_load text = Returns (YMap doc) ->
  get_enabled_sections text =
  Ok (dict_keys (filter (fun kv => section_enabled (snd kv)) doc)).
Proof.
  intros Hload; unfold get_enabled_sections; rewrite Hload; simpl.
  destruct doc as [|kv doc]; [reflexivity|].
  cbn [py_truthy py_items bind]; now rewrite enabled_loop_filter.
Qed.

(** C3 (as the code has it).  On a values document, the sections
    returned are exactly the top-level keys whose value is a mapping in
    which one of the keys enable, enable5G, enable4G holds the boolean
    true.  So a section whose flags are all false or absent is left out,
    and so is a key whose value is no mapping. *)
Theorem get_enabled_sections_exact (text : str) (doc : dict yaml) :
  yaml_safe_load text = Returns (YMap doc) ->
  NoDup (dict_keys doc) ->
  exists sections,
    get_enabled_sections text = Ok sections /\
    forall name,
      In name sections <->
      exists cfg,
        dict_get name doc = Some (YMap cfg) /\
        (dict_get "enable" cfg = Some (YBool true)
         \/ dict_get "enable5G" cfg = Some (YBool true)
         \/ dict_get "enable4G" cfg = Some (YBool true)).
Proof.
  intros Hload Hnd; eexists; split;
    [apply (get_enabled_sections_filter _ _ Hload)|].
  intros name; unfold dict_keys; rewrite in_map_iff; split.
  - intros ([k v] & <- & Hin); apply filter_In in Hin as [Hin Hen]; simpl in *.
    apply section_enabled_iff in Hen as (cfg & -> & Hflags).
    exists cfg; split; [now apply dict_In_get|assumption].
  - intros (cfg & Hget & Hflags); exists (name, YMap cfg); split; [reflexivity|].
    apply filter_In; split; [now apply dict_get_In|].
    apply section_enabled_iff; now exists cfg.
Qed.

End Enabler.

Lemma get_enabled_sections_exact_witness :
  exists sections,
    @get_enabled_sections chart_env values_text = Ok sections /\
    forall name,
      In name sections <->
      exists cfg,
        dict_get name values_doc = Some (YMap cfg) /\
        (dict_get "enable" cfg = Some (YBool true)
         \/ dict_get "enable5G" cfg = Some (YBool true)
         \/ dict_get "enable4G" cfg = Some (YBool true)).
Proof.
  apply (@get_enabled_sections_exact chart_env values_text values_doc).
  - reflexivity.
  - apply distinct_NoDup; reflexivity.
Defined.

(** C3 as stated fails: the section [amf] of this document is a mapping
    whose flag [enable] is truthy (the integer 1), and it is not
    returned. *)
Lemma get_enabled_sections_truthy_counterexample :
  @get_enabled_sections flag_one_env flag_one_text = Ok []
  /\ exists cfg flag,
       dict_get "amf" flag_one_doc = Some (YMap cfg)
       /\ dict_get "enable" cfg = Some flag
       /\ py_truthy flag = true.
Proof.
  split; [reflexivity|].
  exists [("enable" : str, YInt 1)], (YInt 1); repeat split.
Qed.

(** ** Chart Introspector *)

(** More than one directory of the name is fatal, none is not. *)
Lemma find_single_directory_ambiguous (base_dir : fsnode) (name : str) :
  2 <= length (rglob_dirs name base_dir) ->
  find_single_directory base_dir name = Exit 1.
Proof.
  unfold find_single_directory.
  destruct (rglob_dirs name base_dir) as [|m [|m' l]]; simpl; [lia|lia|reflexivity].
Qed.

Lemma find_single_directory_exit (base_dir : fsnode) (name : str) (c : Z) :
  find_single_directory base_dir name = Exit c -> c = 1%Z.
Proof.
  unfold find_single_directory.
  destruct (rglob_dirs name base_dir) as [|m [|m' l]]; congruence.
Qed.

Lemma locate_section_dir_exit (chart_dir : fsnode) (name : str) (c : Z) :
  locate_section_dir chart_dir name = Exit c -> c = 1%Z.
Proof.
  unfold locate_section_dir.
  destruct (find_single_directory chart_dir name) as [[d|]|c'|e] eqn:E1;
    cbn [bind].
  - discriminate.
  - destruct (str_eqb name "omec-user-plane"); [|discriminate].
    apply find_single_directory_exit.
  - intros [= <-]; now apply find_single_directory_exit in E1.
  - discriminate.
Qed.

(** ** Override Builder *)

Section Builder.
Context {E : PyEnv}.
Variables (chart_dir : fsnode).
Variables (image_name local_image_name registry_prefix : str).

Let section_override' :=
  section_override chart_dir image_name local_image_name registry_prefix.
Let build_loop' :=
  build_loop chart_dir image_name local_image_name registry_prefix.

Lemma override_tags_map (declared : dict yaml) :
  NoDup (dict_keys declared) ->
  override_tags image_name local_image_name registry_prefix declared
  = map (fun kv => (fst kv, tag_override image_name local_image_name
                               registry_prefix (fst kv) (snd kv)))
      declared.
Proof.
  intros Hnd.
  apply (dict_set_fold_append fst
           (fun kv => tag_override image_name local_image_name registry_prefix
                        (fst kv) (snd kv))
           declared []); exact Hnd.
Qed.

Lemma section_override_declared (section_name : str) (tags : dict yaml) :
  chart_declares_tags chart_dir section_name tags ->
  section_override' section_name =
  match tags with
  | [] => Ok None
  | _ :: _ =>
      Ok (Some (override_struct
                  (override_tags image_name local_image_name registry_prefix
                     tags)))
  end.
Proof.
  intros (dir & fname & text & values & images & Hdir & Hfile & Hload & Him & Htags).
  unfold section_override', section_override.
  rewrite Hdir; cbn [bind]; rewrite Hfile; cbn [read_file bind].
  rewrite Hload; cbn [call bind py_get]; rewrite Him; cbn [bind py_get].
  rewrite Htags; destruct tags; reflexivity.
Qed.

Lemma section_override_exit (section_name : str) (c : Z) :
  section_override' section_name = Exit c -> c = 1%Z.
Proof.
  unfold section_override', section_override.
  destruct (locate_section_dir chart_dir section_name) as [[dir|]|c'|e] eqn:E1;
    cbn [bind]; try discriminate.
  - destruct (child dir "values.yaml") as [f|]; [|discriminate].
    destruct (read_file f) as [text|?|?] eqn:E2; cbn [bind];
      [|destruct f; discriminate|discriminate].
    destruct (yaml_safe_load text) as [cv|?]; cbn [call bind]; [|discriminate].
    destruct (py_get cv "images" (YMap [])) as [im|?|?] eqn:E3; cbn [bind];
      [|destruct cv; discriminate|discriminate].
    destruct (py_get im "tags" YNull) as [tg|?|?] eqn:E4; cbn [bind];
      [|destruct im; discriminate|discriminate].
    destruct (negb (py_truthy tg)); [discriminate|].
    destruct (py_get im "tags" (YMap [])) as [tg'|?|?] eqn:E5; cbn [bind];
      [|destruct im; discriminate|discriminate].
    destruct tg'; discriminate.
  - intros [= <-]; now apply locate_section_dir_exit in E1.
Qed.

(** What the loop leaves under a section name. *)
Lemma build_loop_get (sections : list str) (acc overrides : dict yaml)
  (name : str) :
  build_loop' sections acc = Ok overrides ->
  In name sections ->
  exists o,
    section_override' name = Ok o /\
    dict_get name overrides =
    match o with
    | Some s => Some s
    | None => dict_get name acc
    end.
Proof.
  assert (Hout : forall sections acc overrides,
             build_loop' sections acc = Ok overrides ->
             ~ In name sections -> dict_get name overrides = dict_get name acc).
  { clear; induction sections as [|s sections IH]; intros acc overrides; simpl.
    - now intros [= ->].
    - intros Hrun Hnin.
      unfold build_loop' in Hrun; simpl in Hrun.
      destruct (section_override chart_dir image_name local_image_name
                  registry_prefix s) as [o| |]; cbn [bind] in Hrun;
        try discriminate.
      rewrite (IH _ _ Hrun) by tauto.
      destruct o; [|reflexivity].
      apply dict_get_set_other; intros ->; tauto. }
  revert acc; induction sections as [|s sections IH]; intros acc Hrun Hin;
    [contradiction|].
  unfold build_loop' in Hrun; simpl in Hrun.
  destruct (section_override chart_dir image_name local_image_name
              registry_prefix s) as [o| |] eqn:Es; cbn [bind] in Hrun;
    try discriminate.
  destruct (in_dec (list_eq_dec ascii_dec) name sections) as [Hin'|Hnin].
  - destruct (IH _ Hrun Hin') as (o' & Ho' & Hget); exists o'; split; [assumption|].
    rewrite Hget; destruct o' as [s'|]; [reflexivity|].
    destruct o as [x|]; [|reflexivity].
    case_key s name.
    + unfold section_override' in Ho'; congruence.
    + apply dict_get_set_other; intros ->; rewrite str_eqb_refl in E0; discriminate.
  - destruct Hin as [->|Hin]; [|contradiction].
    exists o; split; [exact Es|].
    rewrite (Hout _ _ _ Hrun Hnin).
    destruct o; [apply dict_get_set_same|reflexivity].
Qed.

(** A fatal lookup of an enabled section makes the whole loop fail, with
    a non-zero status. *)
Lemma build_loop_fatal (sections : list str) (acc : dict yaml) (name : str) :
  In name sections ->
  find_single_directory chart_dir name = Exit 1 ->
  exit_status (build_loop' sections acc) <> 0%Z.
Proof.
  intros Hin Hfatal; revert acc Hin.
  induction sections as [|s sections IH]; intros acc Hin; [contradiction|].
  unfold build_loop'; simpl.
  destruct (section_override chart_dir image_name local_image_name
              registry_prefix s) as [o|c|e] eqn:Es; cbn [bind exit_status].
  - destruct Hin as [->|Hin]; [|now apply IH].
    unfold section_override, locate_section_dir in Es.
    rewrite Hfatal in Es; discriminate.
  - apply section_override_exit in Es; subst; discriminate.
  - discriminate.
Qed.

End Builder.

Lemma dict_get_map_values {V W : Type} (f : str -> V -> W) (d : dict V)
  (k : str) :
  dict_get k (map (fun kv => (fst kv, f (fst kv) (snd kv))) d)
  = option_map (f k) (dict_get k d).
Proof.
  induction d as [|[k0 v0] d IH]; simpl; [reflexivity|].
  case_key k k0; [reflexivity|exact IH].
Qed.

Section BuilderClaims.
Context {E : PyEnv}.

(** C4 (as the code has it).  For an enabled section whose chart
    declares a non-empty images.tags mapping, the override document
    returned holds under the section a structure whose images.repository
    is the empty string and whose images.tags has the declared tag names,
    in order: the tag named like the target image is mapped to the local
    image name verbatim, every other tag to the registry prefix followed
    by its declared value. *)
Theorem build_image_overrides_tags (chart_dir : fsnode)
  (base_values image_name local_image_name registry_prefix : str)
  (sections : list str) (overrides : dict yaml) (section_name : str)
  (tags : dict yaml) :
  get_enabled_sections base_values = Ok sections ->
  In section_name sections ->
  build_image_overrides chart_dir base_values image_name local_image_name
    registry_prefix = Ok overrides ->
  chart_declares_tags chart_dir section_name tags ->
  tags <> [] ->
  NoDup (dict_keys tags) ->
  exists new_tags,
    dict_get section_name overrides =
    Some (YMap [("images" : str,
                 YMap [("repository" : str, YStr "");
                       ("tags" : str, YMap new_tags)])])
    /\ dict_keys new_tags = dict_keys tags
    /\ forall tag_name tag_value,
         dict_get tag_name tags = Some tag_value ->
         dict_get tag_name new_tags =
         Some (YStr (if str_eqb tag_name image_name
                     then local_image_name
                     else registry_prefix ++ py_str tag_value)).
Proof.
  intros Hsecs Hin Hbuild Hdecl Hne Hnd.
  unfold build_image_overrides in Hbuild; rewrite Hsecs in Hbuild.
  cbn [bind] in Hbuild.
  destruct sections as [|s0 sections0] eqn:Esec; [contradiction|].
  rewrite <- Esec in *; clear Esec s0 sections0.
  destruct (build_loop_get _ _ _ _ _ _ _ _ Hbuild Hin) as (o & Ho & Hget).
  rewrite (section_override_declared _ _ _ _ _ _ Hdecl) in Ho.
  destruct tags as [|t tags'] eqn:Et; [congruence|].
  rewrite <- Et in *; clear Et t tags'.
  injection Ho as <-.
  rewrite override_tags_map in Hget by assumption.
  eexists; split; [exact Hget|split].
  - unfold dict_keys; rewrite map_map; reflexivity.
  - intros tag_name tag_value Htag.
    rewrite (dict_get_map_values
               (tag_override image_name local_image_name registry_prefix)).
    rewrite Htag; unfold tag_override; simpl.
    destruct (str_eqb tag_name image_name); reflexivity.
Qed.

(** A text tag value is prefixed as it is. *)
Lemma py_str_text (s : str) : py_str (YStr s) = s.
Proof. reflexivity. Qed.

(** C9.  For the section omec-user-plane, when the lookup under its own
    name finds no directory, the lookup under bess-upf decides; a
    directory found under a section's own name is the one used, whatever
    bess-upf would give, and a fatal first lookup is fatal.  The
    directory the second lookup finds is the one whose values file the
    section's override is built from. *)
Theorem alias_lookup_for_user_plane :
  (forall chart_dir,
      find_single_directory chart_dir "omec-user-plane" = Ok None ->
      locate_section_dir chart_dir "omec-user-plane" =
      find_single_directory chart_dir "bess-upf")
  /\ (forall chart_dir section_name dir,
         find_single_directory chart_dir section_name = Ok (Some dir) ->
         locate_section_dir chart_dir section_name = Ok (Some dir))
  /\ (forall chart_dir section_name code,
         find_single_directory chart_dir section_name = Exit code ->
         locate_section_dir chart_dir section_name = Exit code)
  /\ (forall chart_dir image_name local_image_name registry_prefix dir
        file_name text values images t tags,
         find_single_directory chart_dir "omec-user-plane" = Ok None ->
         find_single_directory chart_dir "bess-upf" = Ok (Some dir) ->
         child dir "values.yaml" = Some (File file_name text) ->
         yaml_safe_load text = Returns (YMap values) ->
         dict_get "images" values = Some (YMap images) ->
         dict_get "tags" images = Some (YMap (t :: tags)) ->
         section_override chart_dir image_name local_image_name
           registry_prefix "omec-user-plane" =
         Ok (Some (override_struct
                     (override_tags image_name local_image_name
                        registry_prefix (t :: tags))))).
Proof.
  assert (Halias : forall chart_dir,
             find_single_directory chart_dir "omec-user-plane" = Ok None ->
             locate_section_dir chart_dir "omec-user-plane" =
             find_single_directory chart_dir "bess-upf").
  { intros chart_dir H; unfold locate_section_dir; rewrite H; cbn [bind].
    now rewrite str_eqb_refl. }
  repeat split.
  - exact Halias.
  - intros chart_dir section_name dir H; unfold locate_section_dir.
    now rewrite H.
  - intros chart_dir section_name code H; unfold locate_section_dir.
    now rewrite H.
  - intros chart_dir image_name local_image_name registry_prefix dir file_name
      text values images t tags H1 H2 Hfile Hload Him Htags.
    apply (section_override_declared chart_dir image_name local_image_name
             registry_prefix "omec-user-plane" (t :: tags)).
    exists dir, file_name, text, values, images; repeat split; try assumption.
    now rewrite Halias.
Qed.

(** Sections that have no chart directory, no values file, or a values
    mapping without images or without tags under images are passed
    over. *)
Lemma section_override_skips (chart_dir : fsnode)
  (image_name local_image_name registry_prefix section_name : str) :
  locate_section_dir chart_dir section_name = Ok None
  \/ (exists dir,
        locate_section_dir chart_dir section_name = Ok (Some dir)
        /\ (child dir "values.yaml" = None
            \/ exists file_name text values,
                 child dir "values.yaml" = Some (File file_name text)
                 /\ yaml_safe_load text = Returns (YMap values)
                 /\ (dict_get "images" values = None
                     \/ exists images,
                          dict_get "images" values = Some (YMap images)
                          /\ dict_get "tags" images = None))) ->
  section_override chart_dir image_name local_image_name registry_prefix
    section_name = Ok None.
Proof.
  unfold section_override.
  intros [->|(dir & -> & [Hc|(fname & text & values & Hc & Hload & Hv)])];
    cbn [bind]; try reflexivity; rewrite Hc; [reflexivity|].
  cbn [read_file bind]; rewrite Hload; cbn [call bind py_get].
  destruct Hv as [->|(images & -> & Ht)]; cbn [bind py_get dict_get];
    [reflexivity|].
  now rewrite Ht.
Qed.

(** The general rule of the orchestrator: a run that does not succeed
    leaves the files as they were. *)
Lemma configure_failure_keeps_files (w : world)
  (image_name local_image_name : str) :
  exit_status (fst (configure_sdcore_images w image_name local_image_name))
  <> 0%Z ->
  snd (configure_sdcore_images w image_name local_image_name) = w.
Proof.
  unfold configure_sdcore_images.
  destruct (values_file w) as [original|]; [|reflexivity].
  destruct (compute_final_content w original image_name local_image_name);
    simpl; [congruence|reflexivity|reflexivity].
Qed.

(** C6.  When the pulled chart holds more than one directory named like
    an enabled section, the lookup of that section is fatal (status 1),
    the whole operation ends with a non-zero status, and the files are
    left as they were: the values file is not written. *)
Theorem ambiguous_section_aborts_before_write (w : world)
  (original image_name local_image_name : str) (chart_ref chart_version : yaml)
  (entries : list fsnode) (chart_dir : fsnode) (sections : list str)
  (section_name : str) :
  values_file w = Some original ->
  get_chart_info w = Ok (chart_ref, chart_version) ->
  helm_pull chart_ref chart_version = Returns entries ->
  filter (fun d => is_dir d && starts_with "sd-core" (node_name d)) entries
  = [chart_dir] ->
  get_enabled_sections
    (fst (replace_aether_templates_with_placeholders original)) = Ok sections ->
  In section_name sections ->
  2 <= length (rglob_dirs section_name chart_dir) ->
  find_single_directory chart_dir section_name = Exit 1
  /\ exit_status
       (fst (configure_sdcore_images w image_name local_image_name)) <> 0%Z
  /\ snd (configure_sdcore_images w image_name local_image_name) = w.
Proof.
  intros Hvalues Hinfo Hpull Hdirs Hsecs Hin Hmany.
  pose proof (find_single_directory_ambiguous _ _ Hmany) as Hfatal.
  split; [exact Hfatal|].
  assert (Hstatus : exit_status
            (fst (configure_sdcore_images w image_name local_image_name))
            <> 0%Z).
  { unfold configure_sdcore_images, compute_final_content; rewrite Hvalues.
    destruct (replace_aether_templates_with_placeholders original)
      as [modified template_map]; simpl in Hsecs.
    rewrite Hinfo; cbn [bind]; rewrite Hpull; cbn [call bind].
    rewrite Hdirs; unfold build_image_overrides; rewrite Hsecs; cbn [bind].
    destruct sections as [|s0 sections0] eqn:Esec; [contradiction|].
    rewrite <- Esec in *.
    pose proof (build_loop_fatal chart_dir image_name local_image_name
                  registry_prefix_const sections [] section_name Hin Hfatal)
      as Hloop.
    destruct (build_loop chart_dir image_name local_image_name
                registry_prefix_const sections []) as [o|c|e];
      cbn [bind fst exit_status] in *; congruence. }
  split; [exact Hstatus|now apply configure_failure_keeps_files].
Qed.

End BuilderClaims.

Lemma build_image_overrides_tags_witness :
  exists new_tags,
    dict_get "amf"
      [("amf" : str,
        override_struct
          [("amf" : str, YStr "local:test");
           ("init" : str, YStr "mirror/omecproject/busybox:stable")]);
       ("omec-user-plane" : str,
        override_struct
          [("bess" : str, YStr "mirror/omecproject/upf-epc-bess:rel-2.1")])]
    = Some (YMap [("images" : str,
                   YMap [("repository" : str, YStr "");
                         ("tags" : str, YMap new_tags)])])
    /\ dict_keys new_tags = dict_keys amf_tags
    /\ forall tag_name tag_value,
         dict_get tag_name amf_tags = Some tag_value ->
         dict_get tag_name new_tags =
         Some (YStr (if str_eqb tag_name "amf"
                     then lit "local:test"
                     else lit "mirror/" ++ @py_str chart_env tag_value)).
Proof.
  apply (@build_image_overrides_tags chart_env sd_core_chart values_text
           "amf" "local:test" "mirror/" ["amf" : str; "omec-user-plane" : str]).
  - reflexivity.
  - left; reflexivity.
  - reflexivity.
  - exists (Dir "amf" [File "values.yaml" amf_values_text]),
      (lit "values.yaml"), amf_values_text,
      [("images" : str, YMap [("tags" : str, YMap amf_tags)])],
      [("tags" : str, YMap amf_tags)].
    repeat split.
  - discriminate.
  - apply distinct_NoDup; reflexivity.
Defined.

(** C4 as stated fails on an empty mapping: the chart of the enabled
    section [amf] declares images.tags as the empty mapping, and the
    override document has no entry for the section, so no
    images.repository either. *)
Lemma build_image_overrides_empty_tags_counterexample :
  @get_enabled_sections no_tags_env values_text
  = Ok ["amf" : str; "omec-user-plane" : str]
  /\ @chart_declares_tags no_tags_env no_tags_chart "amf" []
  /\ exists overrides,
       @build_image_overrides no_tags_env no_tags_chart values_text "amf"
         "local:test" "mirror/" = Ok overrides
       /\ dict_get "amf" overrides = None.
Proof.
  split; [reflexivity|split].
  - exists (Dir "amf" [File "values.yaml" no_tags_text]),
      (lit "values.yaml"), no_tags_text,
      [("images" : str, YMap [("tags" : str, YMap [])])],
      [("tags" : str, YMap [])].
    repeat split.
  - exists []; split; reflexivity.
Qed.

(** C8, where the code departs from it: the enabled section [amf] has a
    chart directory whose values file holds comments only, so it
    declares no images.tags mapping; the builder does not pass it over
    but ends with an AttributeError. *)
Lemma build_image_overrides_empty_values_file :
  @get_enabled_sections empty_values_env values_text
  = Ok ["amf" : str; "omec-user-plane" : str]
  /\ @yaml_safe_load empty_values_env comments_only_text = Returns YNull
  /\ @build_image_overrides empty_values_env empty_values_chart values_text
       "amf" "local:test" "mirror/" = Raise AttributeError.
Proof. repeat split. Qed.

Lemma alias_lookup_for_user_plane_witness :
  find_single_directory sd_core_chart "omec-user-plane" = Ok None
  /\ locate_section_dir sd_core_chart "omec-user-plane"
     = Ok (Some (Dir "bess-upf" [File "values.yaml" upf_values_text]))
  /\ locate_section_dir sd_core_chart "amf"
     = Ok (Some (Dir "amf" [File "values.yaml" amf_values_text])).
Proof.
  destruct (@alias_lookup_for_user_plane chart_env) as (H1 & H2 & _).
  split; [reflexivity|split].
  - rewrite (H1 sd_core_chart) by reflexivity; reflexivity.
  - apply (H2 sd_core_chart); reflexivity.
Defined.

Lemma ambiguous_section_aborts_before_write_witness :
  find_single_directory ambiguous_chart "amf" = Exit 1
  /\ exit_status
       (fst (@configure_sdcore_images ambiguous_env ambiguous_world "amf"
               "local:test")) <> 0%Z
  /\ snd (@configure_sdcore_images ambiguous_env ambiguous_world "amf"
            "local:test") = ambiguous_world.
Proof.
  apply (@ambiguous_section_aborts_before_write ambiguous_env ambiguous_world
           values_text "amf" "local:test" (YStr "aether/sd-core")
           (YStr "2.2.1") [ambiguous_chart] ambiguous_chart
           ["amf" : str; "omec-user-plane" : str] "amf").
  - reflexivity.
  - reflexivity.
  - reflexivity.
  - reflexivity.
  - reflexivity.
  - left; reflexivity.
  - simpl; lia.
Defined.

(** ** Searching and replacing in strings *)

Lemma starts_with_app (p s : str) : starts_with p (p ++ s) = true.
Proof.
  induction p as [|x p IH]; simpl; [reflexivity|].
  now rewrite Ascii.eqb_refl, IH.
Qed.

Lemma starts_with_split (p s : str) :
  starts_with p s = true -> s = p ++ skipn (length p) s.
Proof.
  revert s; induction p as [|x p IH]; intros [|y s]; simpl;
    try reflexivity; try discriminate.
  rewrite andb_true_iff, Ascii.eqb_eq; intros [-> H]; f_equal; now apply IH.
Qed.

Lemma starts_with_prefix (p q s : str) :
  starts_with (p ++ q) s = true -> starts_with p s = true.
Proof.
  revert s; induction p as [|x p IH]; intros [|y s]; simpl;
    try reflexivity; try discriminate.
  rewrite !andb_true_iff; intros [-> H]; split; [reflexivity|now apply IH].
Qed.

Lemma starts_with_app_inv (p q s : str) :
  starts_with (p ++ q) (p ++ s) = starts_with q s.
Proof.
  induction p as [|x p IH]; simpl; [reflexivity|].
  now rewrite Ascii.eqb_refl.
Qed.

(** A pattern cannot start inside [l] and run across a character it
    does not contain. *)
Lemma starts_with_across (q : ascii) (p l rest : str) :
  ~ In q p ->
  starts_with p (l ++ q :: rest) = true -> starts_with p l = true.
Proof.
  intros Hq; revert l; induction p as [|x p IH]; intros l; [reflexivity|].
  destruct l as [|y l]; simpl.
  - rewrite andb_true_iff, Ascii.eqb_eq; intros [-> _]; elim Hq; now left.
  - rewrite !andb_true_iff; intros [-> H]; split; [reflexivity|].
    apply IH; [|assumption]; intros Hin; apply Hq; now right.
Qed.

Lemma occurs_here (p s : str) : starts_with p s = true -> occurs p s = true.
Proof. intros H; destruct s; simpl in *; rewrite H; reflexivity. Qed.

Lemma occurs_cons (p : str) (c : ascii) (s : str) :
  occurs p s = true -> occurs p (c :: s) = true.
Proof. intros H; simpl; rewrite H; apply orb_true_r. Qed.

Lemma occurs_app_r (p a s : str) :
  occurs p s = true -> occurs p (a ++ s) = true.
Proof. intros H; induction a; simpl; [assumption|now apply occurs_cons]. Qed.

Lemma occurs_app_l (p s b : str) :
  occurs p s = true -> occurs p (s ++ b) = true.
Proof.
  induction s as [|c s IH]; simpl.
  - rewrite orb_false_r; intros H.
    destruct p; [|discriminate]; destruct b; reflexivity.
  - rewrite !orb_true_iff; intros [H|H]; [left|right; now apply IH].
    apply starts_with_split in H.
    change (c :: s ++ b) with ((c :: s) ++ b); rewrite H at 1.
    rewrite <- app_assoc; apply starts_with_app.
Qed.

Lemma occurs_middle (p a b : str) : occurs p (a ++ p ++ b) = true.
Proof. apply occurs_app_r, occurs_here, starts_with_app. Qed.

Lemma occurs_split (p s : str) :
  occurs p s = true -> exists a b, s = a ++ p ++ b.
Proof.
  induction s as [|c s IH]; simpl.
  - rewrite orb_false_r; intros H; apply starts_with_split in H.
    now exists [], (skipn (length p) []).
  - rewrite orb_true_iff; intros [H|H].
    + apply starts_with_split in H; now exists [], (skipn (length p) (c :: s)).
    + destruct (IH H) as (a & b & ->); now exists (c :: a), b.
Qed.

Lemma occurs_inner (a p b s : str) :
  occurs (a ++ p ++ b) s = true -> occurs p s = true.
Proof.
  intros H; apply occurs_split in H as (x & y & ->).
  rewrite <- !app_assoc.
  apply occurs_app_r, occurs_app_r, occurs_here, starts_with_app.
Qed.

Lemma occurs_quoted (p s : str) :
  occurs (quoted p) s = true -> occurs p s = true.
Proof. apply (occurs_inner [dquote] p [dquote]). Qed.

Lemma replace_from_skip (old new : str) (n : nat) (s : str) :
  replace_from old new n s = replace_from old new 0 (skipn n s).
Proof.
  revert n; induction s as [|c s IH]; intros [|n]; try reflexivity.
  simpl; apply IH.
Qed.

Lemma replace_from_match (old new s : str) :
  old <> [] ->
  replace_from old new 0 (old ++ s) = new ++ replace_from old new 0 s.
Proof.
  destruct old as [|x old]; [congruence|intros _].
  change ((x :: old) ++ s) with (x :: old ++ s).
  cbn [replace_from].
  change (x :: old ++ s) with ((x :: old) ++ s); rewrite starts_with_app.
  f_equal; rewrite replace_from_skip; f_equal.
  simpl; rewrite Nat.sub_0_r, skipn_app, skipn_all, Nat.sub_diag; reflexivity.
Qed.

Lemma replace_from_no_match (old new : str) (c : ascii) (s : str) :
  starts_with old (c :: s) = false ->
  replace_from old new 0 (c :: s) = c :: replace_from old new 0 s.
Proof. intros H; cbn [replace_from]; now rewrite H. Qed.

(** A stretch of text in which the pattern starts nowhere is copied. *)
Lemma replace_from_copy (old new l rest : str) :
  (forall l1 l2, l = l1 ++ l2 -> l2 <> [] ->
                 starts_with old (l2 ++ rest) = false) ->
  replace_from old new 0 (l ++ rest) = l ++ replace_from old new 0 rest.
Proof.
  induction l as [|c l IH]; intros H; [reflexivity|].
  change ((c :: l) ++ rest) with (c :: l ++ rest).
  rewrite replace_from_no_match.
  - simpl; f_equal; apply IH; intros l1 l2 -> Hne.
    now apply (H (c :: l1) l2).
  - now apply (H [] (c :: l)).
Qed.

(** ** Decimal numerals *)

Lemma string_of_uint_digits (d : Decimal.uint) :
  forallb is_digit (lit (NilEmpty.string_of_uint d)) = true.
Proof. induction d; simpl; auto. Qed.

Lemma str_of_nat_digits (n : nat) : forallb is_digit (str_of_nat n) = true.
Proof. apply string_of_uint_digits. Qed.

Lemma lit_inj (a b : String.string) : lit a = lit b -> a = b.
Proof.
  intros H; rewrite <- (String.string_of_list_ascii_of_string a),
    <- (String.string_of_list_ascii_of_string b).
  unfold lit in H; now rewrite H.
Qed.

Lemma str_of_nat_inj (n m : nat) : str_of_nat n = str_of_nat m -> n = m.
Proof.
  intros H; apply lit_inj in H.
  assert (Hu : Nat.to_uint n = Nat.to_uint m).
  { pose proof (NilEmpty.usu (Nat.to_uint n)) as Hn.
    pose proof (NilEmpty.usu (Nat.to_uint m)) as Hm.
    rewrite H in Hn; congruence. }
  rewrite <- (DecimalNat.Unsigned.of_to n), <- (DecimalNat.Unsigned.of_to m).
  now rewrite Hu.
Qed.

Lemma placeholder_name_inj (i j : nat) :
  placeholder_name i = placeholder_name j -> i = j.
Proof.
  unfold placeholder_name; intros H; apply app_inv_head in H.
  now apply str_of_nat_inj.
Qed.

(** Two numerals, each followed by a quote, of which one starts the
    other, are equal. *)
Lemma digits_then_quote (a b rest : str) :
  forallb is_digit a = true -> forallb is_digit b = true ->
  starts_with (a ++ [dquote]) (b ++ dquote :: rest) = true -> a = b.
Proof.
  revert b; induction a as [|x a IH]; intros [|y b];
    cbn [forallb app starts_with].
  - reflexivity.
  - rewrite !andb_true_iff; intros _ [Hy _] [Hq _].
    apply Ascii.eqb_eq in Hq; subst y; discriminate.
  - rewrite !andb_true_iff; intros [Hx _] _ [Hq _].
    apply Ascii.eqb_eq in Hq; subst x; discriminate.
  - rewrite !andb_true_iff; intros [_ Ha] [_ Hb] [Hxy H].
    apply Ascii.eqb_eq in Hxy; subst y; f_equal; now apply IH.
Qed.

(** ** Placeholder Codec *)

Lemma dquote_not_in_token_prefix : ~ In dquote token_prefix.
Proof.
  intros H; vm_compute in H.
  repeat (destruct H as [H|H]; [discriminate|]); exact H.
Qed.

Lemma token_prefix_after_quote (s : str) :
  starts_with token_prefix (dquote :: s) = false.
Proof. reflexivity. Qed.

Lemma digit_not_dquote (c : ascii) : is_digit c = true -> c <> dquote.
Proof. intros H ->; discriminate. Qed.

Lemma quoted_placeholder_unfold (i : nat) :
  quoted (placeholder_name i)
  = dquote :: token_prefix ++ str_of_nat i ++ [dquote].
Proof. unfold quoted, placeholder_name; now rewrite <- app_assoc. Qed.

Lemma quoted_placeholder_start (i : nat) (s : str) :
  starts_with (quoted (placeholder_name i)) s = true ->
  exists s', s = dquote :: s' /\ starts_with token_prefix s' = true.
Proof.
  rewrite quoted_placeholder_unfold; destruct s as [|c s]; [discriminate|].
  cbn [starts_with]; rewrite andb_true_iff, Ascii.eqb_eq; intros [<- H].
  exists s; split; [reflexivity|now apply starts_with_prefix in H].
Qed.

(** In a text that does not hold the token prefix, no quoted token
    starts, even when a quote or nothing follows the text. *)
Lemma quoted_placeholder_not_in_text (i : nat) (l l1 l2 rest : str) :
  occurs token_prefix l = false ->
  l = l1 ++ l2 -> l2 <> [] ->
  rest = [] \/ (exists r, rest = dquote :: r) ->
  starts_with (quoted (placeholder_name i)) (l2 ++ rest) = false.
Proof.
  intros Hfree -> Hne Hrest.
  destruct (starts_with _ (l2 ++ rest)) eqn:Hs; [|reflexivity].
  apply quoted_placeholder_start in Hs as (s' & Heq & Hs).
  destruct l2 as [|c l2]; [congruence|].
  injection Heq as -> <-.
  assert (Hl2 : starts_with token_prefix l2 = true).
  { destruct Hrest as [->|(r & ->)].
    - now rewrite app_nil_r in Hs.
    - exact (starts_with_across _ _ _ _ dquote_not_in_token_prefix Hs). }
  rewrite (occurs_app_r _ l1 _ (occurs_cons _ dquote _ (occurs_here _ _ Hl2)))
    in Hfree.
  discriminate.
Qed.

Lemma render_all_cons (restored : nat -> bool) (p : piece) (ps : list piece) :
  render_all restored (p :: ps) = render restored p ++ render_all restored ps.
Proof. reflexivity. Qed.

Lemma occurs_false_app (p a b : str) :
  occurs p (a ++ b) = false -> occurs p a = false /\ occurs p b = false.
Proof.
  intros H; split.
  - destruct (occurs p a) eqn:E; [|reflexivity].
    now rewrite (occurs_app_l _ _ b E) in H.
  - destruct (occurs p b) eqn:E; [|reflexivity].
    now rewrite (occurs_app_r _ a _ E) in H.
Qed.

(** One turn of the restoring loop on a protected text: replacing the
    quoted token of index [i] restores the template of that index and
    nothing else, provided the text with all its templates in place does
    not hold the token prefix. *)
Lemma replace_placeholder (i : nat) (t : str) (restored : nat -> bool)
  (ps : list piece) (acc : str) :
  (forall t', In (Tpl i t') ps -> t' = t) ->
  occurs token_prefix (acc ++ render_all (fun _ => true) ps) = false ->
  replace_from (quoted (placeholder_name i)) t 0
    (acc ++ render_all restored ps)
  = acc ++ render_all (fun j => restored j || (j =? i)) ps.
Proof.
  revert acc; induction ps as [|p ps IH]; intros acc Huniq Hfree.
  - cbn [render_all flat_map] in *; rewrite app_nil_r in Hfree.
    rewrite replace_from_copy; [reflexivity|].
    intros l1 l2 Hl Hne.
    now apply (quoted_placeholder_not_in_text i acc l1 l2 []); auto.
  - assert (Huniq' : forall t', In (Tpl i t') ps -> t' = t)
      by (intros t' Hin; apply Huniq; now right).
    rewrite !render_all_cons in *.
    destruct p as [s|j t']; cbn [render] in *.
    + rewrite !app_assoc in *; now apply IH.
    + destruct (restored j) eqn:Hj; cbn [orb].
      * rewrite !app_assoc in *; now apply IH.
      * apply occurs_false_app in Hfree as Hparts.
        destruct Hparts as [Hacc Htail].
        apply occurs_false_app in Htail as [_ Hps].
        rewrite replace_from_copy.
        2:{ intros l1 l2 Hl Hne.
            apply (quoted_placeholder_not_in_text i acc l1 l2); auto.
            right; rewrite quoted_placeholder_unfold; eexists; reflexivity. }
        f_equal.
        destruct (Nat.eqb_spec j i) as [->|Hne].
        -- rewrite replace_from_match by (unfold quoted; discriminate).
           rewrite (Huniq t') by now left.
           f_equal; apply (IH [] Huniq' Hps).
        -- assert (Hshape : forall x,
                     quoted (placeholder_name j) ++ x
                     = (dquote :: token_prefix ++ str_of_nat j) ++ dquote :: x).
           { intros x; rewrite quoted_placeholder_unfold; cbn [app].
             now rewrite <- !app_assoc. }
           rewrite !Hshape, replace_from_copy.
           2:{ intros l1 l2 Hl Hne2.
               rewrite quoted_placeholder_unfold.
               destruct l1 as [|c l1].
               - cbn [app] in Hl; subst l2.
                 cbn [app starts_with].
                 rewrite Ascii.eqb_refl, <- app_assoc; cbn [andb].
                 rewrite starts_with_app_inv.
                 destruct (starts_with _ _) eqn:Hs; [|reflexivity].
                 apply digits_then_quote in Hs; try apply str_of_nat_digits.
                 apply str_of_nat_inj in Hs; congruence.
               - assert (Hl' : token_prefix ++ str_of_nat j = l1 ++ l2)
                   by exact (f_equal (@tl ascii) Hl).
                 destruct l2 as [|y l2]; [congruence|].
                 assert (Hy : y <> dquote).
                 { assert (Hin : In y (token_prefix ++ str_of_nat j))
                     by (rewrite Hl'; apply in_or_app; right; now left).
                   apply in_app_or in Hin as [Hin|Hin].
                   - intros ->; now apply dquote_not_in_token_prefix.
                   - apply digit_not_dquote.
                     pose proof (str_of_nat_digits j) as Hd.
                     rewrite forallb_forall in Hd; now apply Hd. }
                 cbn [app starts_with].
                 destruct (Ascii.eqb_spec dquote y); [congruence|reflexivity]. }
           f_equal.
           apply (IH [dquote] Huniq').
           cbn [app occurs]; rewrite token_prefix_after_quote; exact Hps.
Qed.

Lemma render_all_app (restored : nat -> bool) (ps qs : list piece) :
  render_all restored (ps ++ qs)
  = render_all restored ps ++ render_all restored qs.
Proof. apply flat_map_app. Qed.

Lemma render_all_ext (r1 r2 : nat -> bool) (ps : list piece) :
  (forall j t, In (Tpl j t) ps -> r1 j = r2 j) ->
  render_all r1 ps = render_all r2 ps.
Proof.
  induction ps as [|p ps IH]; intros H; [reflexivity|].
  rewrite !render_all_cons, IH by (intros j t Hin; apply (H j t); now right).
  f_equal; destruct p as [s|j t]; [reflexivity|]; cbn [render].
  now rewrite (H j t) by now left.
Qed.

Lemma py_replace_quoted (p new s : str) :
  py_replace (quoted p) new s = replace_from (quoted p) new 0 s.
Proof. reflexivity. Qed.

(** The loop, run over the tokens of a set of templates still to be
    restored, restores exactly these and counts each. *)
Lemma restore_loop_pieces (templates : dict str) (ps : list piece) :
  occurs token_prefix (render_all (fun _ => true) ps) = false ->
  (forall j t, In (Tpl j t) ps ->
               dict_get (placeholder_name j) templates = Some t) ->
  forall (ks : list nat) (restored : nat -> bool) (n : nat),
    NoDup ks ->
    (forall i, In i ks -> restored i = false /\ exists t, In (Tpl i t) ps) ->
    restore_loop templates (map placeholder_name ks)
      (render_all restored ps) n
    = Ok (render_all (fun j => restored j || existsb (Nat.eqb j) ks) ps,
          n + length ks).
Proof.
  intros Hfree Htable; induction ks as [|i ks IH]; intros restored n Hnd Hks.
  - cbn [map restore_loop length existsb]; rewrite Nat.add_0_r.
    do 2 f_equal; apply render_all_ext; intros; now rewrite orb_false_r.
  - inversion Hnd as [|? ? Hi Hnd']; subst.
    destruct (Hks i (or_introl eq_refl)) as (Hri & t & Hin).
    cbn [map restore_loop]; rewrite (Htable _ _ Hin).
    assert (Hocc : occurs (quoted (placeholder_name i))
                     (render_all restored ps) = true).
    { apply in_split in Hin as (ps1 & ps2 & ->).
      rewrite render_all_app, render_all_cons; cbn [render]; rewrite Hri.
      apply occurs_middle. }
    rewrite Hocc, py_replace_quoted.
    assert (Huniq : forall t', In (Tpl i t') ps -> t' = t)
      by (intros t' Hin'; pose proof (Htable _ _ Hin');
          pose proof (Htable _ _ Hin); congruence).
    pose proof (replace_placeholder i t restored ps [] Huniq Hfree) as Hrep.
    cbn [app] in Hrep; rewrite Hrep, IH; [|assumption|].
    + f_equal; f_equal; [|cbn [length]; lia].
      apply render_all_ext; intros j t' _; cbn [existsb].
      now rewrite orb_assoc.
    + intros i' Hi'; destruct (Hks i' (or_intror Hi')) as (Hr' & Hex).
      split; [|exact Hex]; rewrite Hr'; cbn [orb].
      apply Nat.eqb_neq; intros ->; contradiction.
Qed.

(** Sorting keeps the elements. *)
Lemma insert_by_len_perm (x : str) (l : list str) :
  Permutation (insert_by_len x l) (x :: l).
Proof.
  induction l as [|y l IH]; cbn [insert_by_len]; [reflexivity|].
  destruct (length x <? length y); [|reflexivity].
  rewrite IH; apply perm_swap.
Qed.

Lemma sorted_longest_first_perm (l : list str) :
  Permutation (sorted_longest_first l) l.
Proof.
  induction l as [|x l IH]; cbn [sorted_longest_first fold_right];
    [reflexivity|].
  rewrite insert_by_len_perm; now constructor.
Qed.

(** *** The pieces of a text *)

Lemma in_templates_of (ps : list piece) (i : nat) (t : str) :
  In (i, t) (templates_of ps) <-> In (Tpl i t) ps.
Proof.
  unfold templates_of; rewrite in_flat_map; split.
  - intros ([s|j t'] & Hin & H); cbn in H; [contradiction|].
    destruct H as [[= -> ->]|[]]; exact Hin.
  - intros Hin; exists (Tpl i t); split; [exact Hin|now left].
Qed.

Lemma span_spec (p : ascii -> bool) (s a b : str) :
  span p s = (a, b) -> s = a ++ b /\ forallb p a = true.
Proof.
  revert a b; induction s as [|c s IH]; intros a b; cbn [span].
  - intros [= <- <-]; now split.
  - destruct (p c) eqn:Hc; [|intros [= <- <-]; now split].
    destruct (span p s) as [a' b'] eqn:Hs; intros [= <- <-].
    destruct (IH _ _ eq_refl) as [-> Ha]; split; [reflexivity|].
    cbn [forallb]; now rewrite Hc.
Qed.

Lemma span_app (p : ascii -> bool) (a : str) (c : ascii) (b : str) :
  forallb p a = true -> p c = false -> span p (a ++ c :: b) = (a, c :: b).
Proof.
  intros Ha Hc; induction a as [|x a IH]; cbn [app span].
  - now rewrite Hc.
  - cbn [forallb] in Ha; apply andb_true_iff in Ha as [Hx Ha].
    now rewrite Hx, IH.
Qed.

Lemma match_template_sound (s m r : str) :
  match_template s = Some (m, r) -> s = m ++ r /\ is_template m.
Proof.
  unfold match_template.
  destruct (starts_with "{{" s) eqn:H1; [|discriminate].
  apply starts_with_split in H1.
  change (length (lit "{{")) with 2 in H1.
  destruct (span not_rbrace (skipn 2 s)) as [body s2] eqn:Hspan.
  apply span_spec in Hspan as [Hs Hbody].
  destruct body as [|b body]; [discriminate|].
  destruct (starts_with "}}" s2) eqn:H2; [|discriminate].
  apply starts_with_split in H2.
  change (length (lit "}}")) with 2 in H2.
  intros [= <- <-]; split.
  - rewrite H1 at 1; rewrite Hs, H2 at 1.
    change (lit "{{") with ["{"%char; "{"%char].
    cbn [app]; rewrite <- app_assoc; reflexivity.
  - exists (b :: body); repeat split; [discriminate|assumption].
Qed.

Lemma match_template_complete (t rest : str) :
  is_template t -> match_template (t ++ rest) = Some (t, rest).
Proof.
  intros (body & Hne & Hbody & ->).
  unfold match_template.
  rewrite <- !app_assoc, starts_with_app.
  change (skipn 2 (lit "{{" ++ body ++ lit "}}" ++ rest))
    with (body ++ "}"%char :: "}"%char :: rest).
  rewrite (span_app not_rbrace body "}"%char ("}"%char :: rest) Hbody eq_refl).
  destruct body as [|b body]; [congruence|].
  change ("}"%char :: "}"%char :: rest) with (lit "}}" ++ rest).
  rewrite starts_with_app; reflexivity.
Qed.

Lemma template_not_empty (t : str) : is_template t -> 1 <= length t.
Proof. intros (body & _ & _ & ->); rewrite length_app; simpl; lia. Qed.

(** The substitution read recursively: below a match it goes on after
    the match, elsewhere after one character. *)
Lemma re_sub_from_skip {St : Type} (repl : str -> St -> str * St)
  (n : nat) (s : str) (st : St) :
  re_sub_from repl n s st = re_sub_from repl 0 (skipn n s) st.
Proof.
  revert n; induction s as [|c s IH]; intros [|n]; try reflexivity.
  cbn [re_sub_from skipn]; apply IH.
Qed.

Lemma re_sub_from_match {St : Type} (repl : str -> St -> str * St)
  (s m rest : str) (st : St) :
  match_template s = Some (m, rest) ->
  re_sub_from repl 0 s st =
  let '(r, st1) := repl m st in
  let '(out, st2) := re_sub_from repl 0 rest st1 in
  (r ++ out, st2).
Proof.
  intros Hm; pose proof (match_template_sound _ _ _ Hm) as [Hs Ht].
  apply template_not_empty in Ht.
  destruct m as [|x m]; [simpl in Ht; lia|].
  destruct s as [|c s]; [discriminate|].
  injection Hs as -> ->.
  cbn [re_sub_from]; rewrite Hm.
  destruct (repl (x :: m) st) as [r st1].
  rewrite re_sub_from_skip.
  replace (length (x :: m) - 1) with (length m) by (cbn [length]; lia).
  now rewrite skipn_app, skipn_all, Nat.sub_diag.
Qed.

Lemma re_sub_from_no_match {St : Type} (repl : str -> St -> str * St)
  (c : ascii) (s : str) (st : St) :
  match_template (c :: s) = None ->
  re_sub_from repl 0 (c :: s) st =
  let '(out, st2) := re_sub_from repl 0 s st in (c :: out, st2).
Proof. intros Hm; cbn [re_sub_from]; now rewrite Hm. Qed.

Example protect_templated_text :
  replace_aether_templates_with_placeholders templated_text
  = (("amf:
  host: " : str) ++ quoted "AETHER_PLACEHOLDER_0" ++ ("
  port: " : str) ++ quoted "AETHER_PLACEHOLDER_1" ++ ("
" : str),
     [("AETHER_PLACEHOLDER_0" : str, "{{ core.amf.ip }}" : str);
      ("AETHER_PLACEHOLDER_1" : str, "{{ core.amf.port }}" : str)]).
Proof. vm_compute; reflexivity. Qed.

Example longest_placeholder_first :
  sorted_longest_first
    [placeholder_name 1; placeholder_name 10; placeholder_name 2]
  = [placeholder_name 10; placeholder_name 1; placeholder_name 2].
Proof. vm_compute; reflexivity. Qed.

Lemma templates_of_cons_tpl (i : nat) (t : str) (ps : list piece) :
  templates_of (Tpl i t :: ps) = (i, t) :: templates_of ps.
Proof. reflexivity. Qed.

Lemma templates_of_cons_text (s : str) (ps : list piece) :
  templates_of (Text s :: ps) = templates_of ps.
Proof. reflexivity. Qed.

(** What [re_sub_from] returns with the callback of the source, in terms
    of the pieces. *)
Lemma re_sub_from_pieces (s : str) (skip idx : nat) (tbl : dict str) :
  re_sub_from replace_template skip s (tbl, idx)
  = (render_all (fun _ => false) (pieces_from skip idx s),
     (fold_left (fun d it => dict_set (placeholder_name (fst it)) (snd it) d)
        (templates_of (pieces_from skip idx s)) tbl,
      idx + length (templates_of (pieces_from skip idx s)))).
Proof.
  revert skip idx tbl; induction s as [|c rest IH]; intros skip idx tbl.
  - cbn; now rewrite Nat.add_0_r.
  - cbn [re_sub_from pieces_from]; destruct skip as [|n]; [|apply IH].
    destruct (match_template (c :: rest)) as [[m r]|].
    + cbn [replace_template]; rewrite IH.
      rewrite render_all_cons, templates_of_cons_tpl; cbn [render fold_left fst snd length].
      now rewrite Nat.add_succ_r.
    + rewrite IH, render_all_cons, templates_of_cons_text; reflexivity.
Qed.

Lemma templates_of_pieces (s : str) (skip idx : nat) :
  templates_of (pieces_from skip idx s)
  = combine (seq idx (length (findall_from skip s))) (findall_from skip s).
Proof.
  revert skip idx; induction s as [|c rest IH]; intros skip idx;
    [reflexivity|].
  cbn [pieces_from findall_from]; destruct skip as [|n]; [|apply IH].
  destruct (match_template (c :: rest)) as [[m r]|].
  - rewrite templates_of_cons_tpl, IH; reflexivity.
  - rewrite templates_of_cons_text; apply IH.
Qed.

(** With every template in place the pieces spell the text. *)
Lemma render_all_pieces (s : str) (skip idx : nat) :
  render_all (fun _ => true) (pieces_from skip idx s) = skipn skip s.
Proof.
  revert skip idx; induction s as [|c rest IH]; intros skip idx.
  - now destruct skip.
  - cbn [pieces_from]; destruct skip as [|n]; [|apply IH].
    destruct (match_template (c :: rest)) as [[m r]|] eqn:Hm.
    + apply match_template_sound in Hm as [Hs Ht].
      apply template_not_empty in Ht.
      rewrite render_all_cons, IH; cbn [render skipn].
      destruct m as [|x m]; [simpl in Ht; lia|].
      injection Hs as -> ->.
      replace (length (x :: m) - 1) with (length m) by (cbn [length]; lia).
      rewrite skipn_app, skipn_all, Nat.sub_diag; reflexivity.
    + rewrite render_all_cons, IH; reflexivity.
Qed.

Lemma map_fst_combine_seq {A : Type} (l : list A) (start : nat) :
  map fst (combine (seq start (length l)) l) = seq start (length l).
Proof.
  revert start; induction l as [|x l IH]; intros start; [reflexivity|].
  cbn [length seq combine map fst]; now rewrite IH.
Qed.

Lemma map_snd_combine_seq {A : Type} (l : list A) (start : nat) :
  map snd (combine (seq start (length l)) l) = l.
Proof.
  revert start; induction l as [|x l IH]; intros start; [reflexivity|].
  cbn [length seq combine map snd]; now rewrite IH.
Qed.

Lemma placeholder_names_NoDup (l : list nat) :
  NoDup l -> NoDup (map placeholder_name l).
Proof.
  induction 1 as [|i l Hi Hnd IH]; cbn [map]; constructor; [|assumption].
  rewrite in_map_iff; intros (j & Hj & Hin).
  apply placeholder_name_inj in Hj; now subst.
Qed.

(** The text and the table returned for [content]: the pieces with
    every token in, and one entry per template expression, in order. *)
Lemma replace_aether_templates_pieces (content : str) :
  replace_aether_templates_with_placeholders content
  = (render_all (fun _ => false) (pieces_from 0 0 content),
     map token_entry
       (combine (seq 0 (length (template_expressions content)))
          (template_expressions content))).
Proof.
  unfold replace_aether_templates_with_placeholders.
  rewrite re_sub_from_pieces, templates_of_pieces.
  f_equal.
  apply (dict_set_fold_append (fun it => placeholder_name (fst it)) snd _ []).
  cbn [dict_keys map app]; rewrite <- map_map, map_fst_combine_seq.
  apply placeholder_names_NoDup, seq_NoDup.
Qed.

Lemma dict_keys_token_entries (l : list str) :
  dict_keys (map token_entry (combine (seq 0 (length l)) l))
  = map placeholder_name (seq 0 (length l)).
Proof.
  unfold dict_keys; rewrite map_map.
  rewrite <- (map_fst_combine_seq l 0) at 2; now rewrite map_map.
Qed.

(** C1 (as the code has it).  For a text that does not hold the token
    prefix AETHER_PLACEHOLDER_, protecting and then restoring with the
    returned table gives the text back, and the table has one entry per
    template expression of the text, holding these expressions in
    order. *)
Theorem placeholder_round_trip (text : str) :
  occurs "AETHER_PLACEHOLDER_" text = false ->
  restore_aether_templates
    (fst (replace_aether_templates_with_placeholders text))
    (snd (replace_aether_templates_with_placeholders text)) = Ok text
  /\ length (snd (replace_aether_templates_with_placeholders text))
     = length (template_expressions text)
  /\ map snd (snd (replace_aether_templates_with_placeholders text))
     = template_expressions text.
Proof.
  intros Hfree; rewrite replace_aether_templates_pieces; cbn [fst snd].
  set (found := template_expressions text).
  set (ps := pieces_from 0 0 text).
  set (table := map token_entry (combine (seq 0 (length found)) found)).
  assert (Hlen : length table = length found).
  { unfold table; rewrite length_map, length_combine, length_seq; lia. }
  assert (Hvals : map snd table = found).
  { unfold table; rewrite map_map; apply (map_snd_combine_seq found 0). }
  split; [|split; [exact Hlen|exact Hvals]].
  assert (Htext : render_all (fun _ => true) ps = text)
    by apply (render_all_pieces text 0 0).
  assert (Htpl : templates_of ps = combine (seq 0 (length found)) found)
    by apply (templates_of_pieces text 0 0).
  assert (Hkeys : dict_keys table = map placeholder_name (seq 0 (length found)))
    by apply dict_keys_token_entries.
  assert (Hnd : NoDup (dict_keys table)).
  { rewrite Hkeys; apply placeholder_names_NoDup, seq_NoDup. }
  assert (Htable : forall j t, In (Tpl j t) ps ->
                     dict_get (placeholder_name j) table = Some t).
  { intros j t Hin; apply dict_In_get; [exact Hnd|].
    apply in_templates_of in Hin; rewrite Htpl in Hin.
    unfold table; apply (in_map token_entry) in Hin; exact Hin. }
  unfold restore_aether_templates.
  pose proof (sorted_longest_first_perm (dict_keys table)) as Hperm.
  rewrite Hkeys in Hperm at 2.
  apply Permutation_map_inv in Hperm as (ks & Hsorted & Hks).
  rewrite Hsorted.
  rewrite (restore_loop_pieces table ps); try assumption.
  - cbn [bind]; rewrite <- (Permutation_length Hks), length_seq, Hlen.
    replace ((0 + length found =? 0) && (0 <? length found)) with false
      by (destruct (length found); reflexivity).
    f_equal; rewrite <- Htext; apply render_all_ext.
    intros j t Hin; cbn [orb].
    apply in_templates_of in Hin; rewrite Htpl in Hin.
    apply (in_map fst) in Hin; rewrite map_fst_combine_seq in Hin.
    cbn [fst] in Hin; apply (Permutation_in _ Hks) in Hin.
    apply existsb_exists; exists j; split; [assumption|apply Nat.eqb_refl].
  - now rewrite Htext.
  - apply (Permutation_NoDup Hks), seq_NoDup.
  - intros i Hi; split; [reflexivity|].
    apply (Permutation_in _ (Permutation_sym Hks)) in Hi.
    rewrite <- (map_fst_combine_seq found 0), <- Htpl in Hi.
    apply in_map_iff in Hi as ([j t] & <- & Hin).
    exists t; now apply in_templates_of.
Qed.

Lemma placeholder_round_trip_witness :
  restore_aether_templates
    (fst (replace_aether_templates_with_placeholders templated_text))
    (snd (replace_aether_templates_with_placeholders templated_text))
  = Ok templated_text
  /\ length (snd (replace_aether_templates_with_placeholders templated_text))
     = length (template_expressions templated_text)
  /\ map snd (snd (replace_aether_templates_with_placeholders templated_text))
     = template_expressions templated_text.
Proof.
  apply (placeholder_round_trip templated_text).
  vm_compute; reflexivity.
Defined.

(** C1 as stated fails on a text that already holds a quoted token: this
    text has one template expression, its table has one entry, and the
    restored text is another text. *)
Lemma placeholder_round_trip_collision_counterexample :
  template_expressions collision_text = ["{{ ip }}" : str]
  /\ restore_aether_templates
       (fst (replace_aether_templates_with_placeholders collision_text))
       (snd (replace_aether_templates_with_placeholders collision_text))
     = Ok collision_result
  /\ collision_result <> collision_text.
Proof.
  split; [reflexivity|split; [reflexivity|]].
  intros H; vm_compute in H; discriminate H.
Qed.

Lemma dict_get_of_key {V : Type} (k : str) (d : dict V) :
  In k (dict_keys d) -> exists v, dict_get k d = Some v.
Proof.
  intros Hin; destruct (dict_get k d) as [v|] eqn:E; [now exists v|].
  apply dict_get_None_keys in E; contradiction.
Qed.

(** The loop over keys of the table always returns; it leaves the count
    as it was exactly when none of the keys occurs in the content. *)
Lemma restore_loop_count (templates : dict str) (ks : list str) :
  (forall k, In k ks -> In k (dict_keys templates)) ->
  forall (content : str) (n : nat),
  exists content' n',
    restore_loop templates ks content n = Ok (content', n')
    /\ n <= n'
    /\ (n' = n <-> forall k, In k ks -> occurs k content = false).
Proof.
  induction ks as [|k ks IH]; intros Hks content n.
  - exists content, n; repeat split; [lia|contradiction].
  - destruct (dict_get_of_key k templates (Hks k (or_introl eq_refl)))
      as (t & Ht).
    assert (Hks' : forall k', In k' ks -> In k' (dict_keys templates))
      by (intros k' Hin; apply Hks; now right).
    cbn [restore_loop]; rewrite Ht.
    destruct (occurs (quoted k) content) eqn:Hq;
      [|destruct (occurs k content) eqn:Hb].
    + destruct (IH Hks' (py_replace (quoted k) t content) (S n))
        as (c' & n' & Hrun & Hle & _).
      exists c', n'; repeat split; [assumption|lia|lia|].
      intros H; apply occurs_quoted in Hq.
      rewrite (H k (or_introl eq_refl)) in Hq; discriminate.
    + destruct (IH Hks' (py_replace k t content) (S n))
        as (c' & n' & Hrun & Hle & _).
      exists c', n'; repeat split; [assumption|lia|lia|].
      intros H; rewrite (H k (or_introl eq_refl)) in Hb; discriminate.
    + destruct (IH Hks' content n) as (c' & n' & Hrun & Hle & Hiff).
      exists c', n'; repeat split; [assumption|assumption| |].
      * intros Hn k' [<-|Hin]; [assumption|now apply Hiff].
      * intros H; apply Hiff; intros k' Hin; apply H; now right.
Qed.

(** C5.  Restoring ends the process with status 1 exactly when the
    table is not empty and no placeholder is restored, that is, none of
    its keys occurs in the content (quoted or bare); in that case the
    content is not returned. *)
Theorem restore_aether_templates_fatal (content : str) (templates : dict str) :
  restore_aether_templates content templates = Exit 1
  <-> templates <> []
      /\ forall placeholder,
           In placeholder (dict_keys templates) ->
           occurs placeholder content = false.
Proof.
  unfold restore_aether_templates.
  pose proof (sorted_longest_first_perm (dict_keys templates)) as Hperm.
  destruct (restore_loop_count templates
              (sorted_longest_first (dict_keys templates))
              (fun k => Permutation_in k Hperm) content 0)
    as (c' & n' & -> & _ & Hiff).
  cbn [bind]; split.
  - destruct (n' =? 0) eqn:Hn; cbn [andb]; [|discriminate].
    destruct templates as [|kv templates]; [discriminate|intros _].
    split; [discriminate|].
    apply Nat.eqb_eq in Hn; intros p Hp; apply (proj1 Hiff Hn).
    exact (Permutation_in p (Permutation_sym Hperm) Hp).
  - intros [Hne Hnone].
    assert (Hn : n' = 0).
    { apply Hiff; intros k Hk; apply Hnone.
      exact (Permutation_in k Hperm Hk). }
    subst n'; destruct templates; [congruence|reflexivity].
Qed.

Lemma has_no_template_cons (c : ascii) (s : str) :
  has_no_template (c :: s) ->
  has_no_template s /\ match_template (c :: s) = None.
Proof.
  intros H; split.
  - intros a t b -> Ht; now apply (H (c :: a) t b).
  - destruct (match_template (c :: s)) as [[m r]|] eqn:Hm; [|reflexivity].
    apply match_template_sound in Hm as [Hs Ht].
    elim (H [] m r Hs Ht).
Qed.

Lemma re_sub_from_no_template {St : Type} (repl : str -> St -> str * St)
  (text : str) (st : St) :
  has_no_template text -> re_sub_from repl 0 text st = (text, st).
Proof.
  induction text as [|c text IH]; intros H; [reflexivity|].
  apply has_no_template_cons in H as [H Hm].
  cbn [re_sub_from]; now rewrite Hm, IH.
Qed.

(** The regular expression finds nothing exactly in the texts that hold
    no template expression. *)
Lemma template_expressions_nil (text : str) :
  template_expressions text = [] <-> has_no_template text.
Proof.
  unfold template_expressions; split.
  - intros Hnone a t b -> Ht; revert Hnone.
    induction a as [|c a IH].
    + cbn [app]; destruct t as [|x t];
        [apply template_not_empty in Ht; simpl in Ht; lia|].
      cbn [app findall_from].
      change (x :: t ++ b) with ((x :: t) ++ b).
      now rewrite (match_template_complete _ b Ht).
    + cbn [app findall_from].
      destruct (match_template (c :: a ++ t ++ b)) as [[m r]|];
        [discriminate|exact IH].
  - induction text as [|c text IH]; intros H; [reflexivity|].
    apply has_no_template_cons in H as [H Hm].
    cbn [findall_from]; rewrite Hm; now apply IH.
Qed.

(** C10.  Restoring with an empty table returns the text as it is; a
    text that holds no template expression is protected as itself with
    an empty table, and restoring after that is the identity. *)
Theorem empty_table_is_identity :
  (forall text, restore_aether_templates text [] = Ok text)
  /\ (forall text,
         has_no_template text ->
         replace_aether_templates_with_placeholders text = (text, [])
         /\ restore_aether_templates
              (fst (replace_aether_templates_with_placeholders text))
              (snd (replace_aether_templates_with_placeholders text))
            = Ok text).
Proof.
  assert (Hrestore : forall text, restore_aether_templates text [] = Ok text)
    by reflexivity.
  split; [exact Hrestore|].
  intros text Hnone.
  assert (Hprotect : replace_aether_templates_with_placeholders text
                     = (text, [])).
  { unfold replace_aether_templates_with_placeholders.
    now rewrite re_sub_from_no_template. }
  split; [exact Hprotect|].
  rewrite Hprotect; apply Hrestore.
Qed.

Lemma empty_table_is_identity_witness :
  replace_aether_templates_with_placeholders plain_text = (plain_text, [])
  /\ restore_aether_templates
       (fst (replace_aether_templates_with_placeholders plain_text))
       (snd (replace_aether_templates_with_placeholders plain_text))
     = Ok plain_text.
Proof.
  apply (proj2 empty_table_is_identity plain_text).
  apply template_expressions_nil; vm_compute; reflexivity.
Defined.

(* ================================================================== *)
(** * Part III: further properties *)
(* ================================================================== *)

(** ** Structured Merge Engine: keys, order and well-formedness *)

Lemma memb_app (k : str) (l1 l2 : list str) :
  memb k (l1 ++ l2) = memb k l1 || memb k l2.
Proof.
  induction l1 as [|x l1 IH]; simpl; [reflexivity|].
  now rewrite IH, orb_assoc.
Qed.

Lemma memb_false_iff (k : str) (l : list str) : memb k l = false <-> ~ In k l.
Proof.
  rewrite <- memb_In; destruct (memb k l); split; congruence.
Qed.

Lemma dict_keys_set {V : Type} (k : str) (v : V) (d : dict V) :
  dict_keys (dict_set k v d) =
  if memb k (dict_keys d) then dict_keys d else dict_keys d ++ [k].
Proof.
  unfold dict_keys; induction d as [|[k0 v0] d IH];
    cbn [dict_set map fst memb]; [reflexivity|].
  destruct (str_eqb k k0) eqn:E; cbn [map fst orb]; [reflexivity|].
  rewrite IH; now destruct (memb k (map fst d)).
Qed.

Lemma dict_get_memb {V : Type} (k : str) (d : dict V) :
  memb k (dict_keys d) = match dict_get k d with Some _ => true | None => false end.
Proof.
  induction d as [|[k0 v0] d IH]; simpl; [reflexivity|].
  destruct (str_eqb k k0); [reflexivity|exact IH].
Qed.

Lemma deep_merge_dict_keys_gen (override base : dict yaml) :
  NoDup (dict_keys override) ->
  dict_keys (deep_merge_dict base override) =
  dict_keys base
  ++ filter (fun k => negb (memb k (dict_keys base))) (dict_keys override).
Proof.
  revert base; induction override as [|[k v] override IH]; intros base Hnd.
  - cbn; now rewrite app_nil_r.
  - inversion Hnd as [|? ? Hk Hnd']; subst.
    rewrite deep_merge_dict_cons, IH by assumption.
    rewrite dict_keys_set.
    change (dict_keys ((k, v) :: override)) with (k :: dict_keys override).
    cbn [filter].
    destruct (memb k (dict_keys base)) eqn:Hin; cbn [negb]; [reflexivity|].
    rewrite <- app_assoc; cbn [app]; do 2 f_equal.
    apply filter_ext_in; intros x Hx.
    rewrite memb_app; cbn [memb].
    rewrite (str_eqb_neq x k) by (intros ->; contradiction).
    now rewrite !orb_false_r.
Qed.

(** X1.  The keys of a merge are the keys of the base, in their order,
    followed by the keys only the override has, in the order of the
    override: no key is dropped, none moves, none is doubled. *)
Theorem deep_merge_dict_key_order (base override : dict yaml) :
  NoDup (dict_keys override) ->
  dict_keys (deep_merge_dict base override) =
  dict_keys base
  ++ filter (fun k => negb (memb k (dict_keys base))) (dict_keys override).
Proof. apply deep_merge_dict_keys_gen. Qed.

Lemma deep_merge_dict_key_order_witness :
  dict_keys (deep_merge_dict merge_base
               (merge_override ++ [("upf" : str, YNull)]))
  = ["amf" : str; "webui" : str; "upf" : str].
Proof.
  apply (deep_merge_dict_key_order merge_base
           (merge_override ++ [("upf" : str, YNull)])).
  apply distinct_NoDup; reflexivity.
Defined.

Lemma NoDup_filter_str (f : str -> bool) (l : list str) :
  NoDup l -> NoDup (filter f l).
Proof.
  induction 1 as [|x l Hx Hnd IH]; simpl; [constructor|].
  destruct (f x); [|assumption].
  constructor; [|assumption]; intros Hin; apply filter_In in Hin; tauto.
Qed.

Lemma deep_merge_dict_keys_NoDup (base override : dict yaml) :
  NoDup (dict_keys base) -> NoDup (dict_keys override) ->
  NoDup (dict_keys (deep_merge_dict base override)).
Proof.
  intros Hb Ho; rewrite deep_merge_dict_keys_gen by assumption.
  apply NoDup_app; [assumption|now apply NoDup_filter_str|].
  intros k Hk Hin; apply filter_In in Hin as [_ Hin].
  apply negb_true_iff, memb_false_iff in Hin; contradiction.
Qed.

Lemma wf_dict_intro (d : dict yaml) :
  NoDup (dict_keys d) -> (forall k v, In (k, v) d -> wf_yaml v = true) ->
  wf_dict d = true.
Proof.
  intros Hnd Hv; unfold wf_dict; cbn [wf_yaml].
  apply andb_true_iff; split; [now apply distinct_NoDup|].
  apply forallb_forall; intros [k v] Hin; exact (Hv k v Hin).
Qed.

Lemma wf_dict_values (d : dict yaml) (k : str) (v : yaml) :
  wf_dict d = true -> In (k, v) d -> wf_yaml v = true.
Proof.
  intros Hwf Hin; apply wf_dict_inv in Hwf as [_ Hv].
  rewrite Forall_forall in Hv; exact (Hv _ Hin).
Qed.

Lemma deep_merge_dict_wf_gen (v : yaml) :
  wf_yaml v = true ->
  match v with
  | YMap override =>
      forall base, wf_dict base = true ->
                   wf_dict (deep_merge_dict base override) = true
  | _ => True
  end.
Proof.
  induction v as [| | | | |override IH] using yaml_ind; try exact (fun _ => I).
  intros Hwf base Hbase.
  pose proof (wf_dict_inv _ Hwf) as [Hnd _].
  pose proof (wf_dict_inv _ Hbase) as [Hndb _].
  rewrite Forall_forall in IH.
  apply wf_dict_intro; [now apply deep_merge_dict_keys_NoDup|].
  intros k x Hin.
  apply dict_In_get in Hin; [|now apply deep_merge_dict_keys_NoDup].
  rewrite deep_merge_dict_get in Hin by assumption.
  destruct (dict_get k override) as [value|] eqn:Hov.
  - injection Hin as <-; apply dict_get_In in Hov.
    pose proof (wf_dict_values _ _ _ Hwf Hov) as Hvalue.
    rewrite merged_value_eq.
    destruct (dict_get k base) as [[| | | | |b]|] eqn:Hb; try assumption;
      destruct value as [| | | | |o]; try assumption.
    apply (IH _ Hov Hvalue b).
    apply dict_get_In in Hb; exact (wf_dict_values _ _ _ Hbase Hb).
  - apply dict_get_In in Hin; exact (wf_dict_values _ _ _ Hbase Hin).
Qed.

(** X2.  Merging two well-formed documents gives a well-formed document:
    the keys stay pairwise distinct at every depth. *)
Theorem deep_merge_dict_wf (base override : dict yaml) :
  wf_dict base = true -> wf_dict override = true ->
  wf_dict (deep_merge_dict base override) = true.
Proof.
  intros Hb Ho; exact (deep_merge_dict_wf_gen (YMap override) Ho base Hb).
Qed.

Lemma deep_merge_dict_wf_witness :
  wf_dict (deep_merge_dict merge_base merge_override) = true.
Proof.
  apply (deep_merge_dict_wf merge_base merge_override); reflexivity.
Defined.

Lemma deep_merge_dict_new_keys_gen (base override : dict yaml) :
  NoDup (dict_keys base ++ dict_keys override) ->
  deep_merge_dict base override = base ++ override.
Proof.
  revert base; induction override as [|[k v] override IH]; intros base Hall.
  - now rewrite app_nil_r.
  - rewrite deep_merge_dict_cons.
    assert (Hk : dict_get k base = None).
    { apply dict_get_None_keys; intros Hin.
      cbn [dict_keys map fst] in Hall.
      apply NoDup_remove_2 in Hall; apply Hall, in_or_app; now left. }
    rewrite Hk, dict_set_absent by assumption.
    rewrite merged_value_eq, IH; [now rewrite <- app_assoc|].
    unfold dict_keys in *; rewrite map_app; cbn [map fst app] in *.
    now rewrite <- app_assoc.
Qed.

(** X3.  When no key of the override is a key of the base, the merge
    is the base followed by the override; in particular merging into the
    empty document gives the override itself. *)
Theorem deep_merge_dict_new_keys (base override : dict yaml) :
  NoDup (dict_keys base ++ dict_keys override) ->
  deep_merge_dict base override = base ++ override.
Proof. apply deep_merge_dict_new_keys_gen. Qed.

Lemma deep_merge_dict_new_keys_witness :
  deep_merge_dict [] merge_override = merge_override.
Proof.
  apply (deep_merge_dict_new_keys [] merge_override).
  apply distinct_NoDup; reflexivity.
Defined.

(** X4.  Merging a well-formed document into itself changes nothing. *)
Theorem deep_merge_dict_self (d : dict yaml) :
  wf_dict d = true -> deep_merge_dict d d = d.
Proof.
  intros Hwf; exact (proj2 (merge_twice_and_self (YMap d) Hwf)).
Qed.

Lemma deep_merge_dict_self_witness :
  deep_merge_dict merge_base merge_base = merge_base.
Proof. apply (deep_merge_dict_self merge_base); reflexivity. Defined.

(** ** [merge_yaml_files] (lines 241-249) *)

Section MergeFiles.
Context {E : PyEnv}.

(** X5.  A file that loads as nothing (an empty file, or any other falsy
    value) counts as the empty mapping: merged over a base mapping it
    gives that mapping back, and an override mapping merged over it is
    the result.  A base that loads as a non-empty text or a number makes
    the merge end with an AttributeError. *)
Theorem merge_yaml_files_empty_side (base_text override_text : str)
  (loaded_base loaded_override : yaml) :
  yaml_safe_load base_text = Returns loaded_base ->
  yaml_safe_load override_text = Returns loaded_override ->
  (forall b, loaded_base = YMap b -> py_truthy loaded_override = false ->
             merge_yaml_files base_text override_text = Ok (YMap b))
  /\ (forall o, py_truthy loaded_base = false -> loaded_override = YMap o ->
                NoDup (dict_keys o) ->
                merge_yaml_files base_text override_text = Ok (YMap o))
  /\ (py_truthy loaded_base = true ->
      (forall xs, loaded_base <> YSeq xs) ->
      (forall b, loaded_base <> YMap b) ->
      merge_yaml_files base_text override_text = Raise AttributeError).
Proof.
  intros Hb Ho; unfold merge_yaml_files; rewrite Hb, Ho; cbn [call bind].
  repeat split.
  - intros b -> Hfalsy; unfold or_empty_dict at 2; rewrite Hfalsy.
    unfold or_empty_dict; destruct b; reflexivity.
  - intros o Hfalsy -> Hnd; unfold or_empty_dict at 1; rewrite Hfalsy.
    unfold or_empty_dict; destruct o as [|kv o]; [reflexivity|].
    cbn [py_truthy deep_merge_loaded].
    now rewrite (deep_merge_dict_new_keys_gen [] (kv :: o)).
  - intros Htruthy Hseq Hmap; unfold or_empty_dict at 1; rewrite Htruthy.
    destruct loaded_base as [| | | |xs|b]; try reflexivity.
    + elim (Hseq xs); reflexivity.
    + elim (Hmap b); reflexivity.
Qed.

End MergeFiles.

Lemma merge_yaml_files_empty_side_witness :
  @merge_yaml_files merge_env "base.yaml" empty_file_text = Ok (YMap merge_base).
Proof.
  destruct (@merge_yaml_files_empty_side merge_env "base.yaml" empty_file_text
              (YMap merge_base) YNull eq_refl eq_refl) as (H & _).
  apply (H merge_base); reflexivity.
Defined.

(** ** [get_chart_info] (lines 252-267) *)

Section ChartInfo.
Context {E : PyEnv}.

Lemma py_get_ok (v : yaml) (key : str) (default x : yaml) :
  py_get v key default = Ok x ->
  exists kvs, v = YMap kvs
              /\ x = match dict_get key kvs with Some y => y | None => default end.
Proof. destruct v; try discriminate; intros [= <-]; eauto. Qed.

(** X6.  The chart reference and version are returned exactly when the
    variables file exists, loads as a mapping, holds mappings under core
    and core.helm, and both core.helm.chart_ref and
    core.helm.chart_version are present and truthy; what is returned are
    these two values. *)
Theorem get_chart_info_returns (w : world) (chart_ref chart_version : yaml) :
  get_chart_info w = Ok (chart_ref, chart_version)
  <-> exists text vars core helm,
        vars_file w = Some text
        /\ yaml_safe_load text = Returns (YMap vars)
        /\ dict_get "core" vars = Some (YMap core)
        /\ dict_get "helm" core = Some (YMap helm)
        /\ dict_get "chart_ref" helm = Some chart_ref
        /\ dict_get "chart_version" helm = Some chart_version
        /\ py_truthy chart_ref = true
        /\ py_truthy chart_version = true.
Proof.
  unfold get_chart_info; split.
  - destruct (vars_file w) as [text|]; [|discriminate].
    destruct (yaml_safe_load text) as [vars_data|e] eqn:Hload;
      cbn [call bind]; [|discriminate].
    destruct (py_get vars_data "core" (YMap [])) as [core| |] eqn:H1;
      cbn [bind]; try discriminate.
    destruct (py_get core "helm" (YMap [])) as [helm| |] eqn:H2;
      cbn [bind]; try discriminate.
    destruct (py_get helm "chart_ref" YNull) as [r| |] eqn:H3;
      cbn [bind]; try discriminate.
    destruct (py_get helm "chart_version" YNull) as [v| |] eqn:H4;
      cbn [bind]; try discriminate.
    destruct (py_truthy r) eqn:Hr; cbn [negb orb]; [|discriminate].
    destruct (py_truthy v) eqn:Hv; cbn [negb]; [|discriminate].
    intros [= <- <-].
    apply py_get_ok in H1 as (vars & -> & Hcore).
    apply py_get_ok in H2 as (c & -> & Hhelm).
    apply py_get_ok in H3 as (h & -> & Href).
    apply py_get_ok in H4 as (h' & [= <-] & Hver).
    destruct (dict_get "chart_ref" h) as [r'|] eqn:Gr;
      [|subst r; discriminate].
    destruct (dict_get "chart_version" h) as [v'|] eqn:Gv;
      [|subst v; discriminate].
    subst r' v'.
    destruct (dict_get "helm" c) as [hh|] eqn:Gh;
      [|injection Hhelm as ->; discriminate].
    destruct (dict_get "core" vars) as [cc|] eqn:Gc;
      [|injection Hcore as ->; discriminate].
    subst hh cc.
    exists text, vars, c, h; repeat split; assumption.
  - intros (text & vars & core & helm & -> & -> & Hc & Hh & Hr & Hv & Tr & Tv).
    cbn [call bind py_get]; rewrite Hc; cbn [bind py_get]; rewrite Hh.
    cbn [bind py_get]; rewrite Hr, Hv; cbn [bind].
    now rewrite Tr, Tv.
Qed.

(** X7.  When the variables file loads as a mapping in which core, or
    helm under core, or one of the two chart fields is absent, the
    function ends the process with status 1; an absent field or an
    absent mapping on the way is not an exception. *)
Theorem get_chart_info_missing_field (w : world) (text : str)
  (vars : dict yaml) :
  vars_file w = Some text ->
  yaml_safe_load text = Returns (YMap vars) ->
  dict_get "core" vars = None
  \/ (exists core,
        dict_get "core" vars = Some (YMap core)
        /\ (dict_get "helm" core = None
            \/ exists helm,
                 dict_get "helm" core = Some (YMap helm)
                 /\ (dict_get "chart_ref" helm = None
                     \/ dict_get "chart_version" helm = None))) ->
  get_chart_info w = Exit 1.
Proof.
  intros Hfile Hload Hmissing; unfold get_chart_info.
  rewrite Hfile, Hload; cbn [call bind py_get].
  destruct Hmissing as [Hc|(core & Hc & [Hh|(helm & Hh & Hfield)])];
    rewrite Hc; cbn [bind py_get dict_get]; try reflexivity;
    rewrite Hh; cbn [bind py_get dict_get]; try reflexivity.
  destruct Hfield as [Hr|Hv].
  - rewrite Hr; reflexivity.
  - rewrite Hv; cbn [py_truthy negb]; now rewrite orb_true_r.
Qed.

End ChartInfo.

Lemma get_chart_info_missing_field_witness :
  @get_chart_info
    (table_env [(vars_text, YMap [("core" : str, YMap [])])] [])
    vars_world = Exit 1.
Proof.
  apply (@get_chart_info_missing_field
           (table_env [(vars_text, YMap [("core" : str, YMap [])])] [])
           vars_world vars_text [("core" : str, YMap [])]).
  - reflexivity.
  - reflexivity.
  - right; exists []; split; [reflexivity|left; reflexivity].
Defined.

(** ** Chart Introspector: what the search finds *)




(** ** Section Enabler: order and edge cases *)

Section EnablerEdges.
Context {E : PyEnv}.

(** X10.  The enabled sections are returned in the order of the
    document, each once: the list is the list of top-level keys with the
    keys of sections that are not enabled struck out. *)
Theorem get_enabled_sections_document_order (text : str) (doc : dict yaml) :
  yaml_safe_load text = Returns (YMap doc) ->
  NoDup (dict_keys doc) ->
  exists sections,
    get_enabled_sections text = Ok sections
    /\ NoDup sections
    /\ sections = filter (fun k => memb k sections) (dict_keys doc).
Proof.
  intros Hload Hnd; eexists; split;
    [apply (get_enabled_sections_filter _ _ Hload)|].
  clear Hload; unfold dict_keys in *.
  induction doc as [|[k v] doc IH]; [split; [constructor|reflexivity]|].
  inversion Hnd as [|? ? Hk Hnd']; subst.
  destruct (IH Hnd') as [IH1 IH2].
  assert (Hsub : forall x, In x (map fst (filter (fun kv => section_enabled (snd kv)) doc)) ->
                           In x (map fst doc)).
  { intros x Hx; apply in_map_iff in Hx as (kv & <- & Hin).
    apply filter_In in Hin as [Hin _]; now apply in_map. }
  cbn [filter snd map fst].
  destruct (section_enabled v); cbn [map fst filter memb].
  - rewrite str_eqb_refl; cbn [orb]; split.
    + constructor; [|assumption]; intros Hin; apply Hk, Hsub, Hin.
    + f_equal; rewrite IH2 at 1; apply filter_ext_in; intros x Hx.
      rewrite (str_eqb_neq x k) by (intros ->; contradiction); reflexivity.
  - split; [assumption|].
    destruct (memb k _) eqn:Hm.
    + apply memb_In in Hm; elim Hk; apply Hsub, Hm.
    + exact IH2.
Qed.

(** X11.  A values file that loads as nothing (an empty file, an empty
    mapping or sequence, zero, the empty text, false) has no enabled
    sections; one that loads as a non-empty value that is no mapping
    ends the function with an AttributeError; an error of the loader
    escapes as it is. *)
Theorem get_enabled_sections_edge_cases (text : str) :
  (forall values, yaml_safe_load text = Returns values ->
                  py_truthy values = false ->
                  get_enabled_sections text = Ok [])
  /\ (forall values, yaml_safe_load text = Returns values ->
                     py_truthy values = true ->
                     (forall doc, values <> YMap doc) ->
                     get_enabled_sections text = Raise AttributeError)
  /\ (forall e, yaml_safe_load text = Raises e ->
                get_enabled_sections text = Raise e).
Proof.
  unfold get_enabled_sections; repeat split.
  - intros values -> Hf; cbn [call bind]; now rewrite Hf.
  - intros values -> Ht Hnm; cbn [call bind]; rewrite Ht.
    destruct values; try reflexivity; elim (Hnm kvs); reflexivity.
  - intros e ->; reflexivity.
Qed.

End EnablerEdges.

Lemma get_enabled_sections_document_order_witness :
  exists sections,
    @get_enabled_sections chart_env values_text = Ok sections
    /\ NoDup sections
    /\ sections = filter (fun k => memb k sections) (dict_keys values_doc).
Proof.
  apply (@get_enabled_sections_document_order chart_env values_text values_doc).
  - reflexivity.
  - apply distinct_NoDup; reflexivity.
Defined.

Lemma get_enabled_sections_edge_cases_witness :
  @get_enabled_sections merge_env empty_file_text = Ok [].
Proof.
  destruct (@get_enabled_sections_edge_cases merge_env empty_file_text)
    as (H & _).
  apply (H YNull); reflexivity.
Defined.

(** ** Override Builder: what the override document holds *)

Lemma dict_set_In {V : Type} (k k' : str) (v v' : V) (d : dict V) :
  In (k', v') (dict_set k v d) -> (k' = k /\ v' = v) \/ In (k', v') d.
Proof.
  induction d as [|[k0 v0] d IH]; cbn [dict_set].
  - intros [[= <- <-]|[]]; now left.
  - destruct (str_eqb k k0) eqn:Ek.
    + apply str_eqb_eq in Ek; subst k0.
      intros [[= <- <-]|Hin]; [now left|right; now right].
    + intros [Heq|Hin]; [right; now left|].
      destruct (IH Hin) as [?|?]; [now left|right; now right].
Qed.

Lemma dict_set_keys_NoDup {V : Type} (k : str) (v : V) (d : dict V) :
  NoDup (dict_keys d) -> NoDup (dict_keys (dict_set k v d)).
Proof.
  intros Hnd; rewrite dict_keys_set.
  destruct (memb k (dict_keys d)) eqn:Hm; [assumption|].
  apply memb_false_iff in Hm.
  apply NoDup_app; [assumption|repeat constructor; auto|].
  intros x Hx [<-|[]]; contradiction.
Qed.

Section OverrideDocument.
Context {E : PyEnv}.
Variables (chart_dir : fsnode).
Variables (image_name local_image_name registry_prefix : str).

(** The tags of an override: none is lost, all are texts. *)
Lemma override_tags_shape (items : dict yaml) :
  let tags := override_tags image_name local_image_name registry_prefix items in
  (items <> [] -> tags <> [])
  /\ forall t x, In (t, x) tags -> exists s, x = YStr s.
Proof.
  unfold override_tags.
  assert (H : forall items acc,
             (forall t x, In (t, x) acc -> exists s, x = YStr s) ->
             let tags :=
               fold_left
                 (fun tags kv =>
                    dict_set (fst kv)
                      (if str_eqb (fst kv) image_name
                       then YStr local_image_name
                       else YStr (registry_prefix ++ py_str (snd kv))) tags)
                 items acc in
             (items <> [] \/ acc <> [] -> tags <> [])
             /\ forall t x, In (t, x) tags -> exists s, x = YStr s).
  { clear items; induction items as [|[k v] items IH]; intros acc Hacc.
    - cbn [fold_left]; split; [intros [H|H]; congruence|exact Hacc].
    - cbn [fold_left fst snd].
      edestruct IH as [IH1 IH2]; [|split; [intros _; apply IH1; right|exact IH2]].
      + intros t x Hin; apply dict_set_In in Hin as [[_ ->]|Hin];
          [destruct (str_eqb k image_name); eauto|eauto].
      + destruct acc as [|[k0 v0] acc]; cbn [dict_set];
          [discriminate|destruct (str_eqb k k0); discriminate]. }
  destruct (H items [] (fun t x (F : In (t, x) []) => match F with end))
    as [H1 H2].
  split; [intros Hne; apply H1; now left|exact H2].
Qed.

(** The one way an iteration ends with an override. *)
Lemma section_override_some (section_name : str) (v : yaml) :
  section_override chart_dir image_name local_image_name registry_prefix
    section_name = Ok (Some v) ->
  exists items,
    items <> []
    /\ v = override_struct
             (override_tags image_name local_image_name registry_prefix items).
Proof.
  unfold section_override.
  destruct (locate_section_dir chart_dir section_name) as [[dir|]| |];
    cbn [bind]; try discriminate.
  destruct (child dir "values.yaml") as [f|]; [|discriminate].
  destruct (read_file f) as [text| |]; cbn [bind]; try discriminate.
  destruct (yaml_safe_load text) as [cv|]; cbn [call bind]; [|discriminate].
  destruct (py_get cv "images" (YMap [])) as [im| |] eqn:Him; cbn [bind];
    try discriminate.
  destruct (py_get im "tags" YNull) as [tg| |] eqn:Htg; cbn [bind];
    try discriminate.
  destruct (py_truthy tg) eqn:Ht; cbn [negb]; [|discriminate].
  apply py_get_ok in Htg as (imd & -> & Htg).
  cbn [py_get bind].
  destruct (dict_get "tags" imd) as [tg'|] eqn:G; [|subst tg; discriminate].
  subst tg'; destruct tg as [| | | | |items]; cbn [py_items bind];
    try discriminate.
  intros [= <-]; exists items; split; [|reflexivity].
  destruct items; [discriminate|discriminate].
Qed.

Lemma build_loop_entries (sections : list str) (acc overrides : dict yaml) :
  build_loop chart_dir image_name local_image_name registry_prefix sections acc
  = Ok overrides ->
  forall k v,
    In (k, v) overrides ->
    In (k, v) acc
    \/ (In k sections
        /\ section_override chart_dir image_name local_image_name
             registry_prefix k = Ok (Some v)).
Proof.
  revert acc; induction sections as [|s sections IH]; intros acc Hrun k v Hin.
  - injection Hrun as <-; now left.
  - cbn [build_loop] in Hrun.
    destruct (section_override chart_dir image_name local_image_name
                registry_prefix s) as [o| |] eqn:Hs; cbn [bind] in Hrun;
      try discriminate.
    destruct (IH _ Hrun k v Hin) as [Hacc|[Hk Hov]];
      [|right; split; [now right|assumption]].
    destruct o as [x|]; [|now left].
    apply dict_set_In in Hacc as [[-> ->]|Hacc]; [|now left].
    right; split; [now left|assumption].
Qed.

Lemma build_loop_keys_NoDup (sections : list str) (acc overrides : dict yaml) :
  build_loop chart_dir image_name local_image_name registry_prefix sections acc
  = Ok overrides ->
  NoDup (dict_keys acc) -> NoDup (dict_keys overrides).
Proof.
  revert acc; induction sections as [|s sections IH]; intros acc Hrun Hnd.
  - now injection Hrun as <-.
  - cbn [build_loop] in Hrun.
    destruct (section_override chart_dir image_name local_image_name
                registry_prefix s) as [o| |]; cbn [bind] in Hrun;
      try discriminate.
    apply (IH _ Hrun); destruct o; [now apply dict_set_keys_NoDup|assumption].
Qed.

Lemma build_image_overrides_inv (base_values : str) (overrides : dict yaml) :
  build_image_overrides chart_dir base_values image_name local_image_name
    registry_prefix = Ok overrides ->
  exists sections,
    get_enabled_sections base_values = Ok sections
    /\ build_loop chart_dir image_name local_image_name registry_prefix
         sections [] = Ok overrides.
Proof.
  unfold build_image_overrides.
  destruct (get_enabled_sections base_values) as [sections| |];
    cbn [bind]; try discriminate.
  intros H; exists sections; split; [reflexivity|].
  destruct sections; [now injection H as <-|exact H].
Qed.

(** X12.  Every entry of the override document belongs to an enabled
    section and has one shape: a mapping with the one key images, under
    it repository as the empty text and tags as a non-empty mapping
    whose values are all texts.  The keys of the document are pairwise
    distinct. *)
Theorem build_image_overrides_entries (base_values : str)
  (sections : list str) (overrides : dict yaml) :
  get_enabled_sections base_values = Ok sections ->
  build_image_overrides chart_dir base_values image_name local_image_name
    registry_prefix = Ok overrides ->
  NoDup (dict_keys overrides)
  /\ forall section_name v,
       In (section_name, v) overrides ->
       In section_name sections
       /\ exists tags,
            v = YMap [("images" : str,
                       YMap [("repository" : str, YStr "");
                             ("tags" : str, YMap tags)])]
            /\ tags <> []
            /\ forall t x, In (t, x) tags -> exists s, x = YStr s.
Proof.
  intros Hsecs Hbuild.
  apply build_image_overrides_inv in Hbuild as (secs & Hsecs' & Hloop).
  rewrite Hsecs in Hsecs'; injection Hsecs' as <-.
  split; [apply (build_loop_keys_NoDup _ _ _ Hloop); constructor|].
  intros k v Hin.
  destruct (build_loop_entries _ _ _ Hloop k v Hin) as [[]|[Hk Hov]].
  split; [assumption|].
  apply section_override_some in Hov as (items & Hne & ->).
  destruct (override_tags_shape items) as [H1 H2].
  eexists; split; [reflexivity|split; [now apply H1|exact H2]].
Qed.

(** X13.  An enabled section with no chart directory (also under the
    other name), or whose directory has no values file, or whose values
    mapping has no images key or no tags under images, has no entry in
    the override document. *)
Theorem build_image_overrides_skips (base_values : str)
  (sections : list str) (overrides : dict yaml) (section_name : str) :
  get_enabled_sections base_values = Ok sections ->
  In section_name sections ->
  build_image_overrides chart_dir base_values image_name local_image_name
    registry_prefix = Ok overrides ->
  locate_section_dir chart_dir section_name = Ok None
  \/ (exists dir,
        locate_section_dir chart_dir section_name = Ok (Some dir)
        /\ (child dir "values.yaml" = None
            \/ exists file_name text values,
                 child dir "values.yaml" = Some (File file_name text)
                 /\ yaml_safe_load text = Returns (YMap values)
                 /\ (dict_get "images" values = None
                     \/ exists images,
                          dict_get "images" values = Some (YMap images)
                          /\ dict_get "tags" images = None))) ->
  dict_get section_name overrides = None.
Proof.
  intros Hsecs Hin Hbuild Hskip.
  apply build_image_overrides_inv in Hbuild as (secs & Hsecs' & Hloop).
  rewrite Hsecs in Hsecs'; injection Hsecs' as <-.
  destruct (build_loop_get _ _ _ _ _ _ _ _ Hloop Hin) as (o & Ho & Hget).
  rewrite (section_override_skips _ _ _ _ _ Hskip) in Ho.
  injection Ho as <-; exact Hget.
Qed.

End OverrideDocument.

Lemma build_image_overrides_entries_witness :
  NoDup (dict_keys
           [("amf" : str,
             override_struct
               [("amf" : str, YStr "local:test");
                ("init" : str, YStr "mirror/omecproject/busybox:stable")]);
            ("omec-user-plane" : str,
             override_struct
               [("bess" : str,
                 YStr "mirror/omecproject/upf-epc-bess:rel-2.1")])]).
Proof.
  apply (@build_image_overrides_entries chart_env sd_core_chart "amf"
           "local:test" "mirror/" values_text
           ["amf" : str; "omec-user-plane" : str]); reflexivity.
Defined.

Lemma build_image_overrides_skips_witness :
  dict_get "omec-user-plane" (@nil (str * yaml)) = None.
Proof.
  apply (@build_image_overrides_skips no_tags_env no_tags_chart "amf"
           "local:test" "mirror/" values_text
           ["amf" : str; "omec-user-plane" : str]).
  - reflexivity.
  - right; left; reflexivity.
  - reflexivity.
  - left; reflexivity.
Defined.

(** ** Override Builder and Merge Engine together *)

Lemma dict_ext {V : Type} (a b : dict V) :
  dict_keys a = dict_keys b -> NoDup (dict_keys a) ->
  (forall k, dict_get k a = dict_get k b) -> a = b.
Proof.
  revert b; induction a as [|[k v] a IH]; intros [|[k' v'] b]; cbn [dict_keys map fst];
    try discriminate; [reflexivity|].
  intros [= <- Hkeys] Hnd Hget; inversion Hnd as [|? ? Hk Hnd']; subst.
  pose proof (Hget k) as Hk0; cbn [dict_get] in Hk0.
  rewrite str_eqb_refl in Hk0; injection Hk0 as <-.
  f_equal; apply IH; [assumption|assumption|].
  intros x; pose proof (Hget x) as Hx; cbn [dict_get] in Hx.
  destruct (str_eqb x k) eqn:Ex; [|exact Hx].
  apply str_eqb_eq in Ex; subst x.
  assert (Ha : dict_get k a = None) by now apply dict_get_None_keys.
  assert (Hb : dict_get k b = None).
  { apply dict_get_None_keys; unfold dict_keys in *; now rewrite <- Hkeys. }
  now rewrite Ha, Hb.
Qed.

(** The flags of a section are not touched by an override of its
    images. *)
Lemma section_enabled_merged_value (current images : yaml) :
  section_enabled
    (merged_value (Some current) (YMap [("images" : str, images)]))
  = section_enabled current.
Proof.
  rewrite merged_value_eq.
  destruct current as [| | | | |cfg]; try reflexivity.
  assert (Hflag : forall flag : str,
             str_eqb flag "images" = false ->
             get_flag flag (deep_merge_dict cfg [("images" : str, images)])
             = get_flag flag cfg).
  { intros flag Hne; unfold get_flag.
    rewrite deep_merge_dict_get by (repeat constructor; intros []).
    cbn [dict_get]; now rewrite Hne. }
  cbn [section_enabled]; now rewrite !Hflag by reflexivity.
Qed.

Lemma filter_map_values {V : Type} (f : str -> V -> V) (p : V -> bool)
  (d : dict V) :
  (forall k v, In (k, v) d -> p (f k v) = p v) ->
  dict_keys (filter (fun kv => p (snd kv))
               (map (fun kv => (fst kv, f (fst kv) (snd kv))) d))
  = dict_keys (filter (fun kv => p (snd kv)) d).
Proof.
  induction d as [|[k v] d IH]; intros H; [reflexivity|].
  cbn [map filter fst snd]; rewrite (H k v) by now left.
  unfold dict_keys in *.
  destruct (p v); cbn [map fst]; rewrite IH; auto;
    intros k' v' Hin; apply H; now right.
Qed.

Lemma filter_none {A : Type} (f : A -> bool) (l : list A) :
  (forall x, In x l -> f x = false) -> filter f l = [].
Proof.
  induction l as [|x l IH]; intros H; [reflexivity|].
  cbn [filter]; rewrite (H x) by now left.
  apply IH; intros y Hy; apply H; now right.
Qed.

Section BuildThenMerge.
Context {E : PyEnv}.

(** X14.  Merging the override document the builder returns into the
    values document it was built from adds no top-level key, moves none,
    and leaves every section as enabled or not as it was: on a file that
    loads as the merged document, [get_enabled_sections] returns what it
    returned on the original file. *)
Theorem merged_overrides_keep_sections (chart_dir : fsnode)
  (base_values image_name local_image_name registry_prefix : str)
  (doc overrides : dict yaml) :
  yaml_safe_load base_values = Returns (YMap doc) ->
  NoDup (dict_keys doc) ->
  build_image_overrides chart_dir base_values image_name local_image_name
    registry_prefix = Ok overrides ->
  dict_keys (deep_merge_dict doc overrides) = dict_keys doc
  /\ forall merged_values,
       yaml_safe_load merged_values
       = Returns (YMap (deep_merge_dict doc overrides)) ->
       get_enabled_sections merged_values = get_enabled_sections base_values.
Proof.
  intros Hload Hnd Hbuild.
  pose proof (get_enabled_sections_filter _ _ Hload) as Hsecs.
  destruct (build_image_overrides_entries chart_dir image_name
              local_image_name registry_prefix _ _ _ Hsecs Hbuild)
    as [Hndo Hentries].
  assert (Hkeys : dict_keys (deep_merge_dict doc overrides) = dict_keys doc).
  { rewrite deep_merge_dict_keys_gen by assumption.
    rewrite filter_none; [apply app_nil_r|].
    intros k Hk; apply negb_false_iff, memb_In.
    apply in_map_iff in Hk as ([k' v] & <- & Hin).
    destruct (Hentries _ _ Hin) as [Hsec _]; cbn [fst].
    apply in_map_iff in Hsec as (kv & <- & Hf).
    apply filter_In in Hf as [Hf _]; now apply in_map. }
  split; [exact Hkeys|].
  intros merged_values Hmerged.
  rewrite (get_enabled_sections_filter _ _ Hmerged), Hsecs; f_equal.
  set (f := fun (k : str) (v : yaml) =>
              match dict_get k overrides with
              | Some ov => merged_value (Some v) ov
              | None => v
              end).
  assert (Hmap : deep_merge_dict doc overrides
                 = map (fun kv => (fst kv, f (fst kv) (snd kv))) doc).
  { apply dict_ext.
    - rewrite Hkeys; unfold dict_keys; rewrite map_map; reflexivity.
    - now rewrite Hkeys.
    - intros k; rewrite deep_merge_dict_get by assumption.
      rewrite (dict_get_map_values f); unfold f.
      destruct (dict_get k overrides) as [ov|] eqn:Hov;
        destruct (dict_get k doc) as [v|] eqn:Hv; try reflexivity.
      exfalso; apply dict_get_In in Hov.
      destruct (Hentries _ _ Hov) as [Hsec _].
      apply in_map_iff in Hsec as ([k' v'] & Hk' & Hf); cbn [fst] in Hk'.
      subst k'; apply filter_In in Hf as [Hf _].
      apply dict_get_None_keys in Hv; apply Hv.
      change k with (fst (k, v')); now apply in_map. }
  rewrite Hmap; apply filter_map_values.
  intros k v Hin; unfold f.
  destruct (dict_get k overrides) as [ov|] eqn:Hov; [|reflexivity].
  apply dict_get_In in Hov.
  destruct (Hentries _ _ Hov) as [_ (tags & -> & _)].
  apply section_enabled_merged_value.
Qed.

End BuildThenMerge.

Lemma merged_overrides_keep_sections_witness :
  dict_keys
    (deep_merge_dict values_doc
       [("amf" : str,
         override_struct
           [("amf" : str, YStr "local:test");
            ("init" : str, YStr "mirror/omecproject/busybox:stable")]);
        ("omec-user-plane" : str,
         override_struct
           [("bess" : str,
             YStr "mirror/omecproject/upf-epc-bess:rel-2.1")])])
  = dict_keys values_doc.
Proof.
  apply (@merged_overrides_keep_sections chart_env sd_core_chart values_text
           "amf" "local:test" "mirror/" values_doc).
  - reflexivity.
  - apply distinct_NoDup; reflexivity.
  - reflexivity.
Defined.

(** ** Placeholder Codec: the table *)

Lemma findall_from_members (s : str) (skip : nat) (t : str) :
  In t (findall_from skip s) -> is_template t /\ occurs t s = true.
Proof.
  revert skip; induction s as [|c rest IH]; intros skip; [contradiction|].
  cbn [findall_from]; destruct skip as [|n].
  - destruct (match_template (c :: rest)) as [[m r]|] eqn:Hm.
    + intros [<-|Hin].
      * apply match_template_sound in Hm as [Hs Ht]; split; [assumption|].
        rewrite Hs; apply occurs_here, starts_with_app.
      * destruct (IH _ Hin) as [Ht Ho]; split; [assumption|].
        now apply occurs_cons.
    + intros Hin; destruct (IH _ Hin) as [Ht Ho]; split; [assumption|].
      now apply occurs_cons.
  - intros Hin; destruct (IH _ Hin) as [Ht Ho]; split; [assumption|].
    now apply occurs_cons.
Qed.

(** X15.  The keys of the table are the tokens AETHER_PLACEHOLDER_0,
    AETHER_PLACEHOLDER_1, ... in the order of the template expressions
    of the text, one per expression, and they are pairwise distinct. *)
Theorem placeholder_table_keys (text : str) :
  dict_keys (snd (replace_aether_templates_with_placeholders text))
  = map placeholder_name (seq 0 (length (template_expressions text)))
  /\ NoDup (dict_keys (snd (replace_aether_templates_with_placeholders text))).
Proof.
  rewrite replace_aether_templates_pieces; cbn [snd].
  rewrite dict_keys_token_entries; split; [reflexivity|].
  apply placeholder_names_NoDup, seq_NoDup.
Qed.

(** X16.  Every entry of the table pairs a token that stands, quoted,
    in the protected text with a template expression that stands in the
    original text: two opening braces, a non-empty body without closing
    brace, two closing braces. *)
Theorem placeholder_table_entries (text placeholder template : str) :
  In (placeholder, template)
    (snd (replace_aether_templates_with_placeholders text)) ->
  occurs (quoted placeholder)
    (fst (replace_aether_templates_with_placeholders text)) = true
  /\ is_template template
  /\ occurs template text = true.
Proof.
  rewrite replace_aether_templates_pieces; cbn [fst snd].
  intros Hin; apply in_map_iff in Hin as ([i t] & [= <- <-] & Hin).
  unfold template_expressions in Hin; split.
  - rewrite <- (templates_of_pieces text 0 0) in Hin.
    apply in_templates_of, in_split in Hin as (ps1 & ps2 & ->).
    rewrite render_all_app, render_all_cons; apply occurs_middle.
  - apply (findall_from_members text 0).
    apply (in_map snd) in Hin; rewrite map_snd_combine_seq in Hin.
    exact Hin.
Qed.

Lemma placeholder_table_entries_witness :
  occurs (quoted "AETHER_PLACEHOLDER_1")
    (fst (replace_aether_templates_with_placeholders templated_text)) = true
  /\ is_template "{{ core.amf.port }}"
  /\ occurs "{{ core.amf.port }}" templated_text = true.
Proof.
  apply (placeholder_table_entries templated_text "AETHER_PLACEHOLDER_1"
           "{{ core.amf.port }}").
  vm_compute; right; left; reflexivity.
Defined.

(** X17.  Restoring returns a text, without any error, whenever the
    table is empty or at least one of its keys occurs in the content:
    placeholders that are not found are passed over. *)
Theorem restore_aether_templates_returns (content : str)
  (templates : dict str) :
  templates = []
  \/ (exists placeholder,
        In placeholder (dict_keys templates)
        /\ occurs placeholder content = true) ->
  exists restored, restore_aether_templates content templates = Ok restored.
Proof.
  intros Hcase; unfold restore_aether_templates.
  pose proof (sorted_longest_first_perm (dict_keys templates)) as Hperm.
  destruct (restore_loop_count templates
              (sorted_longest_first (dict_keys templates))
              (fun k => Permutation_in k Hperm) content 0)
    as (c' & n' & -> & _ & Hiff).
  cbn [bind]; exists c'.
  destruct Hcase as [->|(p & Hp & Hocc)]; [now rewrite andb_false_r|].
  destruct (n' =? 0) eqn:Hn; [|reflexivity].
  apply Nat.eqb_eq in Hn.
  rewrite (proj1 Hiff Hn p) in Hocc; [discriminate|].
  exact (Permutation_in p (Permutation_sym Hperm) Hp).
Qed.

Lemma restore_aether_templates_returns_witness :
  exists restored,
    restore_aether_templates "host: AETHER_PLACEHOLDER_0"
      [("AETHER_PLACEHOLDER_0" : str, "{{ ip }}" : str);
       ("AETHER_PLACEHOLDER_1" : str, "{{ port }}" : str)]
    = Ok restored.
Proof.
  apply (restore_aether_templates_returns "host: AETHER_PLACEHOLDER_0").
  right; exists (lit "AETHER_PLACEHOLDER_0"); split;
    [left; reflexivity|vm_compute; reflexivity].
Defined.

(** ** Placeholder Codec: the protected text holds no template *)

Lemma match_template_closes (s : str) :
  match_template s = None
  <-> starts_with "{{" s = false \/ closes_template (skipn 2 s) = false.
Proof.
  unfold match_template, closes_template.
  destruct (starts_with "{{" s); [|split; auto].
  destruct (span not_rbrace (skipn 2 s)) as [body s2].
  destruct body as [|b body]; [split; auto|].
  destruct (starts_with "}}" s2); split; auto; try discriminate.
  intros [H|H]; discriminate.
Qed.

Lemma pieces_from_skip (n idx : nat) (s : str) :
  pieces_from n idx s = pieces_from 0 idx (skipn n s).
Proof.
  revert n; induction s as [|c s IH]; intros [|n]; try reflexivity.
  cbn [pieces_from skipn]; apply IH.
Qed.

Lemma protected_from_text (idx : nat) (c : ascii) (rest : str) :
  match_template (c :: rest) = None ->
  protected_from idx (c :: rest) = c :: protected_from idx rest.
Proof.
  intros Hm; unfold protected_from; cbn [pieces_from]; now rewrite Hm.
Qed.

Lemma protected_from_template (idx : nat) (s m r : str) :
  match_template s = Some (m, r) ->
  protected_from idx s
  = quoted (placeholder_name idx) ++ protected_from (S idx) r.
Proof.
  intros Hm; pose proof (match_template_sound _ _ _ Hm) as [Hs Ht].
  apply template_not_empty in Ht.
  destruct m as [|x m]; [simpl in Ht; lia|].
  destruct s as [|c s]; [discriminate|].
  injection Hs as -> ->.
  unfold protected_from; cbn [pieces_from]; rewrite Hm.
  rewrite render_all_cons; cbn [render]; f_equal.
  rewrite pieces_from_skip.
  replace (length (x :: m) - 1) with (length m) by (cbn [length]; lia).
  now rewrite skipn_app, skipn_all, Nat.sub_diag.
Qed.

(** The protected text starts with a quote, or with the first character
    of the text, which then starts no template expression. *)
Lemma protected_from_head (idx : nat) (c : ascii) (rest : str) :
  exists x out,
    protected_from idx (c :: rest) = x :: out
    /\ (x = dquote
        \/ (x = c /\ match_template (c :: rest) = None
            /\ out = protected_from idx rest)).
Proof.
  destruct (match_template (c :: rest)) as [[m r]|] eqn:Hm.
  - rewrite (protected_from_template _ _ _ _ Hm).
    exists dquote; eexists; split; [reflexivity|now left].
  - rewrite (protected_from_text _ _ _ Hm).
    exists c, (protected_from idx rest); split; [reflexivity|now right].
Qed.

Lemma span_all (p : ascii -> bool) (a : str) :
  forallb p a = true -> span p a = (a, []).
Proof.
  induction a as [|x a IH]; cbn [forallb span]; [reflexivity|].
  rewrite andb_true_iff; intros [Hx Ha]; now rewrite Hx, IH.
Qed.

Lemma span_tail (p : ascii -> bool) (s a b : str) :
  span p s = (a, b) -> b = [] \/ exists c b', b = c :: b' /\ p c = false.
Proof.
  revert a b; induction s as [|c s IH]; intros a b; cbn [span].
  - intros [= <- <-]; now left.
  - destruct (p c) eqn:Hc; [|intros [= <- <-]; right; eauto].
    destruct (span p s) as [a' b'] eqn:Hs; intros [= <- <-]; eauto.
Qed.

Lemma not_rbrace_false (c : ascii) : not_rbrace c = false -> c = "}"%char.
Proof.
  unfold not_rbrace; rewrite negb_false_iff; apply Ascii.eqb_eq.
Qed.

(** A stretch without closing brace, followed by the end of the text or
    by a closing brace that is not doubled, starts no template. *)
Lemma no_template_in_open_stretch (q s2 : str) :
  forallb not_rbrace q = true -> q <> [] ->
  s2 = [] \/ (exists s3, s2 = "}"%char :: s3) ->
  starts_with "}}" s2 = false ->
  match_template (q ++ s2) = None.
Proof.
  intros Hq Hne Hs2 Hclose; apply match_template_closes.
  destruct q as [|x [|y q]]; [congruence| |].
  - left; change (lit "{{") with ["{"%char; "{"%char].
    destruct Hs2 as [->|(s3 & ->)]; cbn [app starts_with];
      destruct (Ascii.eqb "{" x); reflexivity.
  - right; cbn [app skipn]; unfold closes_template.
    cbn [forallb] in Hq; apply andb_true_iff in Hq as [_ Hq].
    apply andb_true_iff in Hq as [_ Hq].
    destruct Hs2 as [->|(s3 & ->)].
    + rewrite app_nil_r, span_all by assumption; now destruct q.
    + rewrite (span_app not_rbrace q "}"%char s3 Hq eq_refl).
      destruct q; [reflexivity|].
      exact Hclose.
Qed.

Lemma protected_from_open_stretch (idx : nat) (b s2 : str) :
  forallb not_rbrace b = true ->
  s2 = [] \/ (exists s3, s2 = "}"%char :: s3) ->
  starts_with "}}" s2 = false ->
  protected_from idx (b ++ s2) = b ++ protected_from idx s2.
Proof.
  intros Hb Hs2 Hclose; induction b as [|x b IH]; [reflexivity|].
  cbn [app]; rewrite protected_from_text.
  - cbn [forallb] in Hb; apply andb_true_iff in Hb as [_ Hb].
    now rewrite IH.
  - apply (no_template_in_open_stretch (x :: b) s2); auto; discriminate.
Qed.

Lemma rbrace_starts_no_template (s : str) :
  match_template ("}"%char :: s) = None.
Proof. apply match_template_closes; left; reflexivity. Qed.

(** What does not complete a template expression in the text does not
    complete one in the protected text. *)
Lemma closes_template_protected (idx : nat) (r : str) :
  closes_template r = false -> closes_template (protected_from idx r) = false.
Proof.
  unfold closes_template at 1.
  destruct (span not_rbrace r) as [b s2] eqn:Hspan.
  pose proof (span_tail _ _ _ _ Hspan) as Htail.
  apply span_spec in Hspan as [-> Hb].
  assert (Hs2 : s2 = [] \/ (exists s3, s2 = "}"%char :: s3)).
  { destruct Htail as [->|(c & b' & -> & Hc)]; [now left|right].
    apply not_rbrace_false in Hc; subst c; eauto. }
  destruct b as [|x b].
  - intros _; cbn [app]; unfold closes_template.
    destruct Hs2 as [->|(s3 & ->)]; [reflexivity|].
    rewrite protected_from_text by apply rbrace_starts_no_template.
    reflexivity.
  - intros Hclose.
    rewrite protected_from_open_stretch by assumption.
    unfold closes_template.
    destruct Hs2 as [->|(s3 & ->)].
    + change (protected_from idx []) with (@nil ascii).
      rewrite app_nil_r, span_all by assumption; reflexivity.
    + rewrite protected_from_text by apply rbrace_starts_no_template.
      rewrite (span_app not_rbrace (x :: b) "}"%char
                 (protected_from idx s3) Hb eq_refl).
      change (lit "}}") with ["}"%char; "}"%char] in *.
      cbn [starts_with] in *; rewrite Ascii.eqb_refl in *; cbn [andb] in *.
      destruct s3 as [|c3 s4]; [reflexivity|].
      destruct (protected_from_head idx c3 s4) as (x' & out & -> & Hx).
      rewrite andb_true_r in *.
      destruct Hx as [->|(-> & _)]; [reflexivity|exact Hclose].
Qed.

(** Where the text starts no template expression, the protected text
    starts none either. *)
Lemma no_new_template (idx : nat) (c : ascii) (rest : str) :
  match_template (c :: rest) = None ->
  match_template (c :: protected_from idx rest) = None.
Proof.
  intros H; destruct rest as [|c2 rest2].
  - apply match_template_closes; left.
    change (lit "{{") with ["{"%char; "{"%char]; cbn [starts_with].
    now rewrite andb_false_r.
  - destruct (protected_from_head idx c2 rest2) as (x & out & -> & Hx).
    destruct Hx as [->|(-> & _ & ->)].
    + apply match_template_closes; left.
      change (lit "{{") with ["{"%char; "{"%char]; cbn [starts_with].
      change (Ascii.eqb "{" dquote) with false.
      now rewrite andb_false_r.
    + apply match_template_closes in H as [Hs|Hc]; apply match_template_closes.
      * left; exact Hs.
      * right; cbn [skipn] in *; now apply closes_template_protected.
Qed.

Lemma findall_from_copy (l rest : str) :
  (forall l1 l2, l = l1 ++ l2 -> l2 <> [] ->
                 match_template (l2 ++ rest) = None) ->
  findall_from 0 (l ++ rest) = findall_from 0 rest.
Proof.
  induction l as [|c l IH]; intros H; [reflexivity|].
  pose proof (H [] (c :: l) eq_refl) as H0.
  cbn [app] in *; cbn [findall_from]; rewrite H0 by discriminate.
  apply IH; intros l1 l2 -> Hne; now apply (H (c :: l1) l2).
Qed.

Lemma lbrace_not_in_token_prefix : ~ In "{"%char token_prefix.
Proof.
  intros H; vm_compute in H.
  repeat (destruct H as [H|H]; [discriminate|]); exact H.
Qed.

Lemma token_starts_no_template (i : nat) (l1 l2 rest : str) :
  quoted (placeholder_name i) = l1 ++ l2 -> l2 <> [] ->
  match_template (l2 ++ rest) = None.
Proof.
  intros Hq Hne; destruct l2 as [|y l2]; [congruence|].
  assert (Hy : y <> "{"%char).
  { assert (Hin : In y (quoted (placeholder_name i)))
      by (rewrite Hq; apply in_or_app; right; now left).
    rewrite quoted_placeholder_unfold in Hin.
    destruct Hin as [<-|Hin]; [discriminate|].
    apply in_app_or in Hin as [Hin|Hin];
      [intros ->; now apply lbrace_not_in_token_prefix|].
    apply in_app_or in Hin as [Hin|[<-|[]]]; [|discriminate].
    pose proof (str_of_nat_digits i) as Hd.
    rewrite forallb_forall in Hd; specialize (Hd _ Hin).
    intros ->; discriminate. }
  apply match_template_closes; left.
  change (lit "{{") with ["{"%char; "{"%char]; cbn [app starts_with].
  destruct (Ascii.eqb_spec "{" y); [congruence|reflexivity].
Qed.

Lemma findall_protected (n : nat) :
  forall (s : str) (idx : nat),
    length s <= n -> findall_from 0 (protected_from idx s) = [].
Proof.
  induction n as [|n IH]; intros s idx Hlen.
  - destruct s; [reflexivity|simpl in Hlen; lia].
  - destruct s as [|c rest]; [reflexivity|].
    destruct (match_template (c :: rest)) as [[m r]|] eqn:Hm.
    + rewrite (protected_from_template _ _ _ _ Hm).
      rewrite findall_from_copy
        by (intros l1 l2 Hl Hne; now apply (token_starts_no_template idx l1)).
      apply IH.
      apply match_template_sound in Hm as [Hs Ht].
      apply template_not_empty in Ht.
      apply (f_equal (@length ascii)) in Hs; rewrite length_app in Hs.
      simpl in Hs, Hlen; lia.
    + rewrite (protected_from_text _ _ _ Hm); cbn [findall_from].
      rewrite (no_new_template _ _ _ Hm).
      apply IH; simpl in Hlen; lia.
Qed.

(** X18.  The protected text holds no template expression any more, so
    protecting it again changes nothing and gives an empty table. *)
Theorem protected_text_has_no_template (text : str) :
  let safe := fst (replace_aether_templates_with_placeholders text) in
  template_expressions safe = []
  /\ has_no_template safe
  /\ replace_aether_templates_with_placeholders safe = (safe, []).
Proof.
  cbn zeta; rewrite replace_aether_templates_pieces; cbn [fst].
  assert (Hnone : template_expressions (protected_from 0 text) = [])
    by apply (findall_protected (length text) text 0 (le_n _)).
  fold (protected_from 0 text).
  split; [exact Hnone|split].
  - now apply template_expressions_nil.
  - unfold replace_aether_templates_with_placeholders.
    rewrite re_sub_from_no_template; [reflexivity|].
    now apply template_expressions_nil.
Qed.

(** ** [update_vars_main]: replacing the two placeholders *)

Lemma occurs_false_suffix (p l1 l2 : str) :
  occurs p (l1 ++ l2) = false -> starts_with p l2 = false.
Proof.
  intros H; destruct (starts_with p l2) eqn:E; [|reflexivity].
  now rewrite (occurs_app_r _ l1 _ (occurs_here _ _ E)) in H.
Qed.

Lemma replace_from_absent (old new s : str) :
  occurs old s = false -> replace_from old new 0 s = s.
Proof.
  intros H; rewrite <- (app_nil_r s) at 1.
  rewrite replace_from_copy; [now rewrite app_nil_r|].
  intros l1 l2 -> _; rewrite app_nil_r; now apply (occurs_false_suffix _ l1).
Qed.








Lemma str_eqb_false_iff (a b : str) : str_eqb a b = false <-> a <> b.
Proof.
  rewrite <- str_eqb_eq; destruct (str_eqb a b); split; congruence.
Qed.



(** ** Placeholder Codec: tokens that have lost their quotes *)

Lemma render_bare_all_cons (restored : nat -> bool) (p : piece)
  (ps : list piece) :
  render_bare_all restored (p :: ps)
  = render_bare restored p ++ render_bare_all restored ps.
Proof. reflexivity. Qed.

Lemma render_bare_all_app (restored : nat -> bool) (ps qs : list piece) :
  render_bare_all restored (ps ++ qs)
  = render_bare_all restored ps ++ render_bare_all restored qs.
Proof. apply flat_map_app. Qed.

Lemma render_bare_all_ext (r1 r2 : nat -> bool) (ps : list piece) :
  (forall j t, In (Tpl j t) ps -> r1 j = r2 j) ->
  render_bare_all r1 ps = render_bare_all r2 ps.
Proof.
  induction ps as [|p ps IH]; intros H; [reflexivity|].
  rewrite !render_bare_all_cons, IH by (intros j t Hin; apply (H j t); now right).
  f_equal; destruct p as [s|j t]; [reflexivity|]; cbn [render_bare].
  now rewrite (H j t) by now left.
Qed.

Lemma render_bare_all_restored (ps : list piece) :
  render_bare_all (fun _ => true) ps = render_all (fun _ => true) ps.
Proof.
  induction ps as [|[s|i t] ps IH]; [reflexivity| |];
    rewrite render_bare_all_cons, render_all_cons, IH; reflexivity.
Qed.

(** *** The token prefix overlaps neither itself nor a number *)

Lemma starts_with_short (p a rest : str) :
  starts_with p (a ++ rest) = true -> length a <= length p ->
  starts_with a p = true.
Proof.
  revert p; induction a as [|x a IH]; intros [|y p]; cbn [app starts_with length];
    try reflexivity; try lia.
  rewrite !andb_true_iff, !Ascii.eqb_eq; intros [-> Hs] Hl; split; [reflexivity|].
  apply IH; [assumption|lia].
Qed.

Lemma starts_with_long (p a rest : str) :
  starts_with p (a ++ rest) = true -> length p <= length a ->
  starts_with p a = true.
Proof.
  revert a; induction p as [|y p IH]; intros [|x a]; cbn [app starts_with length];
    try reflexivity; try lia.
  rewrite !andb_true_iff; intros [-> Hs] Hl; split; [reflexivity|].
  apply IH; [assumption|lia].
Qed.

Lemma starts_with_suffix_split (p l rest : str) :
  starts_with p (l ++ rest) = true -> length l <= length p ->
  starts_with (skipn (length l) p) rest = true.
Proof.
  revert p; induction l as [|x l IH]; intros p; [intros H _; exact H|].
  destruct p as [|y p]; cbn [app starts_with length skipn]; [lia|].
  rewrite andb_true_iff; intros [_ Hs] Hl; apply IH; [assumption|lia].
Qed.

Lemma token_prefix_length : length token_prefix = 19.
Proof. reflexivity. Qed.

(** No proper end of the token prefix is a start of it. *)
Lemma token_prefix_unbordered (k : nat) :
  1 <= k <= 18 -> starts_with (skipn k token_prefix) token_prefix = false.
Proof.
  intros Hk.
  assert (H : forallb
                (fun k => negb (starts_with (skipn k token_prefix) token_prefix))
                (seq 1 18) = true) by (vm_compute; reflexivity).
  rewrite forallb_forall in H.
  apply negb_true_iff, H, in_seq; lia.
Qed.

(** The token prefix does not start in a text and run on into a token
    prefix that follows the text, unless it lies in the text. *)
Lemma token_prefix_across (l rest : str) :
  l <> [] ->
  starts_with token_prefix (l ++ token_prefix ++ rest) = true ->
  starts_with token_prefix l = true.
Proof.
  intros Hne H.
  destruct (Nat.le_gt_cases (length token_prefix) (length l)) as [Hl|Hl].
  - now apply (starts_with_long _ _ _ H).
  - exfalso.
    pose proof (starts_with_suffix_split _ _ _ H (Nat.lt_le_incl _ _ Hl)) as Hs.
    apply starts_with_long in Hs;
      [|rewrite length_skipn; lia].
    rewrite token_prefix_unbordered in Hs; [discriminate|].
    rewrite token_prefix_length in Hl.
    destruct l; [congruence|cbn [length] in *; lia].
Qed.

Lemma token_prefix_starts_with_A (s : str) :
  starts_with token_prefix s = true -> exists s', s = "A"%char :: s'.
Proof.
  destruct s as [|c s]; [discriminate|].
  change token_prefix with ("A"%char :: lit "ETHER_PLACEHOLDER_").
  cbn [starts_with]; rewrite andb_true_iff, Ascii.eqb_eq.
  intros [<- _]; eauto.
Qed.

(** Inside a token, after its first character, no token prefix starts. *)
Lemma token_prefix_not_inside (j : nat) (u v rest : str) :
  placeholder_name j = u ++ v -> u <> [] -> v <> [] ->
  starts_with token_prefix (v ++ rest) = false.
Proof.
  intros Hsplit Hu Hv.
  destruct (starts_with token_prefix (v ++ rest)) eqn:Hs; [exfalso|reflexivity].
  unfold placeholder_name in Hsplit; fold token_prefix in Hsplit.
  apply app_eq_app in Hsplit as (l & [[Hp Hd]|[Hp Hd]]).
  - (* u ends inside the prefix: v = l ++ digits *)
    subst v; rewrite <- app_assoc in Hs.
    destruct l as [|x l].
    + (* v is the number *)
      cbn [app] in Hs; apply token_prefix_starts_with_A in Hs as (s' & Hs).
      destruct (str_of_nat j) as [|d ds] eqn:Hn; [now cbn [app] in Hv|].
      cbn [app] in Hs; injection Hs as -> _.
      pose proof (str_of_nat_digits j) as Hd; rewrite Hn in Hd.
      cbn [forallb] in Hd; discriminate.
    + assert (Hlen : length (x :: l) <= 18).
      { apply (f_equal (@length ascii)) in Hp.
        rewrite length_app, token_prefix_length in Hp.
        destruct u; [congruence|cbn [length] in *; lia]. }
      assert (Hk : x :: l = skipn (length u) token_prefix).
      { rewrite Hp, skipn_app, skipn_all, Nat.sub_diag; reflexivity. }
      apply starts_with_short in Hs; [|rewrite token_prefix_length; lia].
      rewrite Hk, token_prefix_unbordered in Hs; [discriminate|].
      apply (f_equal (@length ascii)) in Hp.
      rewrite length_app, token_prefix_length in Hp.
      destruct u; [congruence|cbn [length] in *; lia].
  - (* u runs into the number: v is an end of the number *)
    apply token_prefix_starts_with_A in Hs as (s' & Hs).
    destruct v as [|d v]; [congruence|].
    cbn [app] in Hs; injection Hs as -> _.
    pose proof (str_of_nat_digits j) as Hdig; rewrite Hd in Hdig.
    rewrite forallb_app in Hdig; apply andb_true_iff in Hdig as [_ Hdig].
    cbn [forallb] in Hdig; discriminate.
Qed.

(** *** Where a token prefix can stand in a content with bare tokens *)

(** In a content made of pieces whose restored reading is free of the
    token prefix, the prefix stands at the tokens still in place and
    nowhere else. *)
Lemma token_prefix_sites (restored : nat -> bool) (ps : list piece) :
  forall acc l1 l2,
    occurs token_prefix (acc ++ render_all (fun _ => true) ps) = false ->
    acc ++ render_bare_all restored ps = l1 ++ l2 ->
    starts_with token_prefix l2 = true ->
    exists ps1 j t ps2,
      ps = ps1 ++ Tpl j t :: ps2 /\ restored j = false
      /\ l1 = acc ++ render_bare_all restored ps1
      /\ l2 = placeholder_name j ++ render_bare_all restored ps2.
Proof.
  induction ps as [|p ps IH]; intros acc l1 l2 Hfree Heq Hs.
  - exfalso; cbn [render_bare_all render_all flat_map] in *.
    rewrite app_nil_r in *; subst acc.
    now rewrite (occurs_false_suffix _ _ _ Hfree) in Hs.
  - assert (Hgrow : forall s,
               occurs token_prefix
                 ((acc ++ s) ++ render_all (fun _ => true) ps) = false ->
               acc ++ s ++ render_bare_all restored ps = l1 ++ l2 ->
               exists ps1 j t ps2,
                 ps = ps1 ++ Tpl j t :: ps2 /\ restored j = false
                 /\ l1 = acc ++ s ++ render_bare_all restored ps1
                 /\ l2 = placeholder_name j ++ render_bare_all restored ps2).
    { intros s Hf He; rewrite app_assoc in He.
      destruct (IH _ _ _ Hf He Hs) as (ps1 & j & t & ps2 & -> & Hr & -> & ->).
      exists ps1, j, t, ps2; now rewrite <- app_assoc. }
    rewrite render_all_cons, app_assoc in Hfree.
    rewrite render_bare_all_cons in Heq.
    destruct p as [s|j t]; cbn [render render_bare] in *.
    + destruct (Hgrow s Hfree Heq) as (ps1 & j & t & ps2 & -> & Hr & -> & ->).
      exists (Text s :: ps1), j, t, ps2; repeat split; assumption.
    + destruct (restored j) eqn:Hrj.
      * destruct (Hgrow t Hfree Heq) as (ps1 & j' & t' & ps2 & -> & Hr & -> & ->).
        exists (Tpl j t :: ps1), j', t', ps2; repeat split; try assumption.
        rewrite render_bare_all_cons; cbn [render_bare]; now rewrite Hrj.
      * rewrite <- app_assoc in Hfree.
        apply occurs_false_app in Hfree as [Hacc Hrest].
        apply occurs_false_app in Hrest as [_ Hrest].
        apply app_eq_app in Heq as (l & [[Ha Hl]|[Hl Hb]]).
        -- (* the place lies in the text before the token *)
           destruct l as [|c l].
           ++ rewrite app_nil_r in Ha; subst acc; cbn [app] in Hl; subst l2.
              exists [], j, t, ps; repeat split; try assumption.
              cbn [render_bare_all flat_map]; now rewrite app_nil_r.
           ++ exfalso; subst l2 acc.
              unfold placeholder_name in Hs; fold token_prefix in Hs.
              rewrite <- app_assoc in Hs.
              apply token_prefix_across in Hs; [|discriminate].
              now rewrite (occurs_false_suffix _ _ _ Hacc) in Hs.
        -- (* the place lies at or after the start of the token *)
           apply app_eq_app in Hb as (m & [[Hp Hm]|[Hp Hm]]).
           ++ (* inside the token: it is l ++ m *)
              destruct l as [|c l].
              { cbn [app] in Hp; subst m; rewrite app_nil_r in Hl; subst l1 l2.
                exists [], j, t, ps; repeat split; try assumption.
                cbn [render_bare_all flat_map]; now rewrite app_nil_r. }
              destruct m as [|d m].
              { cbn [app] in Hm; subst l2; rewrite app_nil_r in Hp.
                destruct (IH [] [] _ Hrest eq_refl Hs)
                  as (ps1 & j' & t' & ps2 & -> & Hr & H1 & H2).
                cbn [app] in H1.
                exists (Tpl j t :: ps1), j', t', ps2; repeat split;
                  try assumption.
                rewrite render_bare_all_cons; cbn [render_bare]; rewrite Hrj.
                rewrite <- H1, app_nil_r; subst l1; now rewrite Hp. }
              exfalso; subst l2.
              rewrite (token_prefix_not_inside j (c :: l) (d :: m)) in Hs;
                [discriminate|assumption|discriminate|discriminate].
           ++ (* after the token *)
              destruct (IH [] m l2 Hrest Hm Hs)
                as (ps1 & j' & t' & ps2 & -> & Hr' & H1 & H2).
              cbn [app] in H1; subst m l1 l.
              exists (Tpl j t :: ps1), j', t', ps2; repeat split;
                try assumption.
              rewrite render_bare_all_cons; cbn [render_bare]; rewrite Hrj.
              reflexivity.
Qed.

Lemma follower_ok_not_digit (c : ascii) :
  follower_ok c = true -> is_digit c = false.
Proof.
  unfold follower_ok; rewrite andb_true_iff, negb_true_iff; tauto.
Qed.

Lemma follower_ok_not_quote (c : ascii) : follower_ok c = true -> c <> dquote.
Proof.
  unfold follower_ok; rewrite andb_true_iff, !negb_true_iff.
  intros [_ H] ->; now rewrite Ascii.eqb_refl in H.
Qed.

(** What follows a token starts, whatever is restored, with a character
    that may follow it. *)
Lemma first_char_render (restored : nat -> bool) (ps : list piece) :
  first_char_ok ps = true ->
  render_bare_all restored ps = []
  \/ exists c r, render_bare_all restored ps = c :: r /\ follower_ok c = true.
Proof.
  destruct ps as [|[[|c s]|j [|c t]] ps]; cbn [first_char_ok];
    try discriminate; intros H; [now left| |]; right;
    rewrite render_bare_all_cons; cbn [render_bare].
  - exists c, (s ++ render_bare_all restored ps); now split.
  - destruct (restored j).
    + exists c, (t ++ render_bare_all restored ps); now split.
    + exists "A"%char,
        (lit "ETHER_PLACEHOLDER_" ++ str_of_nat j ++ render_bare_all restored ps).
      split; [|reflexivity].
      unfold placeholder_name.
      change (lit "AETHER_PLACEHOLDER_")
        with ("A"%char :: lit "ETHER_PLACEHOLDER_").
      cbn [app]; now rewrite <- app_assoc.
Qed.

Lemma well_followed_split (ps1 : list piece) (j : nat) (t : str)
  (ps2 : list piece) :
  well_followed (ps1 ++ Tpl j t :: ps2) = true -> first_char_ok ps2 = true.
Proof.
  induction ps1 as [|[s|i u] ps1 IH]; cbn [app well_followed].
  - rewrite andb_true_iff; tauto.
  - exact IH.
  - rewrite andb_true_iff; intros [_ H]; now apply IH.
Qed.

(** The number of a token, compared with what stands at another token:
    it cannot run past the other number into what follows. *)
Lemma digits_then_follower (a b rest : str) :
  forallb is_digit a = true -> forallb is_digit b = true ->
  (rest = [] \/ exists c r, rest = c :: r /\ follower_ok c = true) ->
  starts_with a (b ++ rest) = true -> length b <= length a -> a = b.
Proof.
  intros Ha Hb Hrest; revert b Hb; induction a as [|x a IH]; intros [|y b];
    cbn [forallb app starts_with length] in *; try reflexivity; try lia.
  - intros _ Hs _; exfalso.
    apply andb_true_iff in Ha as [Hx _].
    destruct Hrest as [->|(c & r & -> & Hc)]; [discriminate|].
    cbn [starts_with] in Hs; apply andb_true_iff in Hs as [Hs _].
    apply Ascii.eqb_eq in Hs; subst c.
    apply follower_ok_not_digit in Hc; congruence.
  - rewrite !andb_true_iff; intros [_ Hb] [Hxy Hs] Hl.
    apply Ascii.eqb_eq in Hxy; subst y; f_equal.
    apply andb_true_iff in Ha as [_ Ha].
    apply IH; [assumption|assumption|assumption|lia].
Qed.

Lemma digits_quote_then_follower (a b rest : str) :
  forallb is_digit a = true -> forallb is_digit b = true ->
  (rest = [] \/ exists c r, rest = c :: r /\ follower_ok c = true) ->
  starts_with (a ++ [dquote]) (b ++ rest) = false.
Proof.
  intros Ha Hb Hrest; revert b Hb; induction a as [|x a IH]; intros [|y b] Hb;
    cbn [forallb app] in *.
  - destruct Hrest as [->|(c & r & -> & Hc)]; [reflexivity|].
    cbn [starts_with]; apply follower_ok_not_quote in Hc.
    destruct (Ascii.eqb dquote c) eqn:E; [|reflexivity].
    apply Ascii.eqb_eq in E; congruence.
  - apply andb_true_iff in Hb as [Hy _]; cbn [starts_with].
    destruct (Ascii.eqb dquote y) eqn:E; [|reflexivity].
    apply Ascii.eqb_eq in E; subst y; discriminate.
  - apply andb_true_iff in Ha as [Hx _].
    destruct Hrest as [->|(c & r & -> & Hc)]; [reflexivity|].
    cbn [starts_with]; destruct (Ascii.eqb x c) eqn:E; [|reflexivity].
    apply Ascii.eqb_eq in E; subst c.
    apply follower_ok_not_digit in Hc; congruence.
  - apply andb_true_iff in Ha as [_ Ha]; apply andb_true_iff in Hb as [_ Hb].
    cbn [starts_with]; rewrite IH by assumption; apply andb_false_r.
Qed.

Lemma placeholder_name_length (j : nat) :
  length (placeholder_name j) = 19 + length (str_of_nat j).
Proof. unfold placeholder_name; now rewrite length_app. Qed.

Lemma placeholder_name_nonempty (j : nat) : placeholder_name j <> [].
Proof.
  intros H; apply (f_equal (@length ascii)) in H.
  rewrite placeholder_name_length in H; cbn [length] in H; lia.
Qed.

(** With distinct indices, a template stands at one place of the pieces. *)
Lemma templates_of_app (ps qs : list piece) :
  templates_of (ps ++ qs) = templates_of ps ++ templates_of qs.
Proof. apply flat_map_app. Qed.

Lemma piece_index_apart (ps1 ps2 : list piece) (i : nat) (t : str) :
  NoDup (map fst (templates_of (ps1 ++ Tpl i t :: ps2))) ->
  forall j t', In (Tpl j t') ps1 \/ In (Tpl j t') ps2 -> j <> i.
Proof.
  rewrite templates_of_app, templates_of_cons_tpl, map_app.
  cbn [map fst]; intros Hnd j t' Hin ->.
  apply NoDup_remove_2 in Hnd; apply Hnd, in_or_app.
  destruct Hin as [Hin|Hin]; [left|right];
    apply in_templates_of in Hin;
    apply (in_map fst) in Hin; exact Hin.
Qed.

Lemma piece_split_unique (ps1 ps2 qs1 qs2 : list piece) (i : nat)
  (t t' : str) :
  NoDup (map fst (templates_of (ps1 ++ Tpl i t :: ps2))) ->
  ps1 ++ Tpl i t :: ps2 = qs1 ++ Tpl i t' :: qs2 ->
  ps1 = qs1 /\ ps2 = qs2.
Proof.
  revert qs1; induction ps1 as [|p ps1 IH]; intros [|q qs1] Hnd Heq;
    cbn [app] in *.
  - injection Heq as _ ->; now split.
  - exfalso; injection Heq as <- ->.
    apply (piece_index_apart [] (qs1 ++ Tpl i t' :: qs2) i t Hnd i t');
      [|reflexivity].
    right; apply in_or_app; right; now left.
  - exfalso; injection Heq as -> <-.
    apply (piece_index_apart (Tpl i t' :: ps1) ps2 i t Hnd i t');
      [|reflexivity].
    left; now left.
  - injection Heq as -> Heq.
    destruct (IH qs1) as [-> ->]; [|assumption|now split].
    destruct q as [s|j u];
      [now rewrite templates_of_cons_text in Hnd|].
    rewrite templates_of_cons_tpl in Hnd; cbn [map fst] in Hnd.
    now inversion Hnd.
Qed.

(** *** One turn of the loop on a bare token *)

Section BareTurn.

Variable restored : nat -> bool.
Variables ps1 ps2 : list piece.
Variable i : nat.
Variable t : str.

Let ps := ps1 ++ Tpl i t :: ps2.

Hypothesis Hfree : occurs token_prefix (render_all (fun _ => true) ps) = false.
Hypothesis Hfollow : well_followed ps = true.
Hypothesis Hnodup : NoDup (map fst (templates_of ps)).
Hypothesis Hri : restored i = false.

(** A token in place that shows the number of [i] at its start is the
    token of [i]. *)
Lemma bare_token_site (l1 l2 : str) :
  (forall j t', In (Tpl j t') ps -> restored j = false ->
                length (placeholder_name j) <= length (placeholder_name i)) ->
  render_bare_all restored ps = l1 ++ l2 ->
  starts_with (placeholder_name i) l2 = true ->
  l1 = render_bare_all restored ps1
  /\ l2 = placeholder_name i ++ render_bare_all restored ps2.
Proof.
  intros Hlong Heq Hs.
  assert (Hb : starts_with token_prefix l2 = true)
    by (apply (starts_with_prefix _ (str_of_nat i)); exact Hs).
  destruct (token_prefix_sites restored ps [] l1 l2 Hfree Heq Hb)
    as (qs1 & j & t' & qs2 & Hps & Hrj & Hl1 & Hl2).
  cbn [app] in Hl1.
  assert (Hin : In (Tpl j t') ps)
    by (rewrite Hps; apply in_or_app; right; now left).
  assert (Hji : str_of_nat i = str_of_nat j).
  { rewrite Hl2 in Hs; unfold placeholder_name in Hs.
    rewrite <- app_assoc, starts_with_app_inv in Hs.
    apply (digits_then_follower _ _ _ (str_of_nat_digits i)
             (str_of_nat_digits j)
             (first_char_render restored qs2
                (well_followed_split qs1 j t' qs2
                   (eq_ind _ (fun l => well_followed l = true) Hfollow _ Hps)))
             Hs).
    pose proof (Hlong j t' Hin Hrj) as Hle.
    rewrite !placeholder_name_length in Hle; lia. }
  apply str_of_nat_inj in Hji; subst j.
  destruct (piece_split_unique ps1 ps2 qs1 qs2 i t t' Hnodup Hps) as [-> ->].
  now split.
Qed.

(** The quoted token stands nowhere in a content whose tokens are bare. *)
Lemma quoted_token_absent :
  occurs (quoted (placeholder_name i)) (render_bare_all restored ps) = false.
Proof.
  destruct (occurs (quoted (placeholder_name i)) (render_bare_all restored ps))
    eqn:Hocc; [exfalso|reflexivity].
  apply occurs_split in Hocc as (a & b & Heq).
  assert (Heq' : [] ++ render_bare_all restored ps
                 = (a ++ [dquote]) ++ (placeholder_name i ++ [dquote]) ++ b)
    by (rewrite Heq; unfold quoted; cbn [app]; rewrite <- !app_assoc;
        reflexivity).
  assert (Hb : starts_with token_prefix ((placeholder_name i ++ [dquote]) ++ b)
               = true).
  { unfold placeholder_name; fold token_prefix.
    rewrite <- !app_assoc; apply starts_with_app. }
  destruct (token_prefix_sites restored ps [] _ _ Hfree Heq' Hb)
    as (qs1 & j & t' & qs2 & Hps & Hrj & _ & Hl2).
  assert (Hs : starts_with (str_of_nat i ++ [dquote])
                 (str_of_nat j ++ render_bare_all restored qs2) = true).
  { apply (f_equal (starts_with (placeholder_name i ++ [dquote]))) in Hl2.
    rewrite starts_with_app in Hl2.
    unfold placeholder_name in Hl2.
    rewrite <- !app_assoc, starts_with_app_inv in Hl2; now symmetry. }
  rewrite digits_quote_then_follower in Hs;
    [discriminate|apply str_of_nat_digits|apply str_of_nat_digits|].
  apply first_char_render, (well_followed_split qs1 j t').
  now rewrite <- Hps.
Qed.

(** Replacing the bare token of [i], once every longer token has been
    restored, restores the template of [i] and nothing else. *)
Lemma replace_bare_placeholder :
  (forall j t', In (Tpl j t') ps -> restored j = false ->
                length (placeholder_name j) <= length (placeholder_name i)) ->
  replace_from (placeholder_name i) t 0 (render_bare_all restored ps)
  = render_bare_all (fun j => restored j || (j =? i)) ps.
Proof.
  intros Hlong.
  assert (Hother : forall qs,
             (forall j t', In (Tpl j t') qs -> j <> i) ->
             render_bare_all (fun j => restored j || (j =? i)) qs
             = render_bare_all restored qs).
  { intros qs Hqs; apply render_bare_all_ext; intros j t' Hin.
    pose proof (Hqs j t' Hin) as Hne; apply Nat.eqb_neq in Hne.
    rewrite Hne; apply orb_false_r. }
  unfold ps; rewrite !render_bare_all_app, !render_bare_all_cons.
  cbn [render_bare]; rewrite Hri, Nat.eqb_refl; cbn [orb].
  rewrite !Hother
    by (intros j t' Hin; apply (piece_index_apart ps1 ps2 i t Hnodup j t');
        tauto).
  rewrite replace_from_copy.
  - rewrite replace_from_match by apply placeholder_name_nonempty.
    rewrite replace_from_absent; [reflexivity|].
    destruct (occurs (placeholder_name i) (render_bare_all restored ps2))
      eqn:Hocc; [exfalso|reflexivity].
    apply occurs_split in Hocc as (a & b & Hsplit).
    destruct (bare_token_site
                (render_bare_all restored ps1 ++ placeholder_name i ++ a)
                (placeholder_name i ++ b) Hlong) as [Hl _].
    + unfold ps; rewrite render_bare_all_app, render_bare_all_cons.
      cbn [render_bare]; rewrite Hri, Hsplit, <- !app_assoc; reflexivity.
    + apply starts_with_app.
    + apply (f_equal (@length ascii)) in Hl.
      rewrite !length_app, placeholder_name_length in Hl; lia.
  - intros l1 l2 Hsplit Hne.
    destruct (starts_with (placeholder_name i)
                (l2 ++ placeholder_name i ++ render_bare_all restored ps2))
      eqn:Hs; [exfalso|reflexivity].
    destruct (bare_token_site l1
                (l2 ++ placeholder_name i ++ render_bare_all restored ps2)
                Hlong) as [Hl _]; [|exact Hs|].
    + unfold ps; rewrite render_bare_all_app, render_bare_all_cons.
      cbn [render_bare]; rewrite Hri, Hsplit, <- !app_assoc; reflexivity.
    + rewrite Hsplit in Hl; apply (f_equal (@length ascii)) in Hl.
      rewrite length_app in Hl; destruct l2; [congruence|cbn [length] in Hl; lia].
Qed.

End BareTurn.

(** *** The order of the loop *)

Lemma insert_by_len_longest_first (x : str) (l : list str) :
  longest_first l = true -> longest_first (insert_by_len x l) = true.
Proof.
  induction l as [|y l IH]; cbn [insert_by_len longest_first forallb];
    [reflexivity|].
  rewrite andb_true_iff; intros [Hy Hl].
  destruct (length x <? length y) eqn:Hxy.
  - cbn [longest_first]; rewrite IH, andb_true_r by assumption.
    apply forallb_forall; intros z Hz.
    apply (Permutation_in _ (insert_by_len_perm x l)) in Hz as [<-|Hz].
    + apply Nat.ltb_lt in Hxy; apply Nat.leb_le; lia.
    + rewrite forallb_forall in Hy; now apply Hy.
  - apply Nat.ltb_ge in Hxy.
    cbn [longest_first forallb]; rewrite Hy, Hl, !andb_true_r.
    apply andb_true_iff; split; [now apply Nat.leb_le|].
    apply forallb_forall; intros z Hz.
    rewrite forallb_forall in Hy; apply Hy, Nat.leb_le in Hz.
    apply Nat.leb_le; lia.
Qed.

Lemma sorted_longest_first_sorted (l : list str) :
  longest_first (sorted_longest_first l) = true.
Proof.
  induction l as [|x l IH]; cbn [sorted_longest_first fold_right];
    [reflexivity|].
  now apply insert_by_len_longest_first.
Qed.

Lemma py_replace_nonempty (old new s : str) :
  old <> [] -> py_replace old new s = replace_from old new 0 s.
Proof. destruct old; [congruence|reflexivity]. Qed.

(** The loop on a content with bare tokens, run longest token first over
    the tokens still in place, restores each of them and counts it. *)
Lemma restore_loop_bare (templates : dict str) (ps : list piece) :
  occurs token_prefix (render_all (fun _ => true) ps) = false ->
  well_followed ps = true ->
  NoDup (map fst (templates_of ps)) ->
  (forall j t, In (Tpl j t) ps ->
               dict_get (placeholder_name j) templates = Some t) ->
  forall (ks : list nat) (restored : nat -> bool) (n : nat),
    NoDup ks ->
    longest_first (map placeholder_name ks) = true ->
    (forall j t, In (Tpl j t) ps -> (restored j = false <-> In j ks)) ->
    (forall i, In i ks -> exists t, In (Tpl i t) ps) ->
    restore_loop templates (map placeholder_name ks)
      (render_bare_all restored ps) n
    = Ok (render_bare_all (fun j => restored j || existsb (Nat.eqb j) ks) ps,
          n + length ks).
Proof.
  intros Hfree Hfollow Hidx Htable.
  induction ks as [|i ks IH]; intros restored n Hnd Hsorted Hstate Hks.
  - cbn [map restore_loop length existsb]; rewrite Nat.add_0_r.
    do 2 f_equal; apply render_bare_all_ext; intros; now rewrite orb_false_r.
  - inversion Hnd as [|? ? Hi Hnd']; subst.
    destruct (Hks i (or_introl eq_refl)) as (t & Hin).
    assert (Hri : restored i = false)
      by (apply (Hstate i t Hin); now left).
    cbn [map restore_loop]; rewrite (Htable _ _ Hin).
    cbn [map longest_first] in Hsorted.
    apply andb_true_iff in Hsorted as [Hhead Hsorted].
    assert (Hlong : forall j t', In (Tpl j t') ps -> restored j = false ->
                      length (placeholder_name j)
                      <= length (placeholder_name i)).
    { intros j t' Hj Hrj; apply (Hstate j t' Hj) in Hrj as [<-|Hrj];
        [reflexivity|].
      rewrite forallb_forall in Hhead; apply Nat.leb_le, Hhead.
      now apply in_map. }
    pose proof Hin as Hsplit; apply in_split in Hsplit as (ps1 & ps2 & Hps).
    subst ps.
    rewrite (quoted_token_absent restored ps1 ps2 i t Hfree Hfollow).
    assert (Hocc : occurs (placeholder_name i)
                     (render_bare_all restored (ps1 ++ Tpl i t :: ps2)) = true).
    { rewrite render_bare_all_app, render_bare_all_cons.
      cbn [render_bare]; rewrite Hri; apply occurs_middle. }
    rewrite Hocc, py_replace_nonempty by apply placeholder_name_nonempty.
    rewrite (replace_bare_placeholder restored ps1 ps2 i t
               Hfree Hfollow Hidx Hri Hlong).
    rewrite IH; try assumption.
    + f_equal; f_equal; [|cbn [length]; lia].
      apply render_bare_all_ext; intros j t' _; cbn [existsb].
      now rewrite orb_assoc.
    + intros j t' Hj; rewrite orb_false_iff, Nat.eqb_neq.
      rewrite (Hstate j t' Hj); cbn [In]; split.
      * intros [[<-|H] Hne]; [congruence|assumption].
      * intros H; split; [now right|intros ->; contradiction].
    + intros i' Hi'; apply Hks; now right.
Qed.

(** X20.  restore_aether_templates, tokens without quotes.  Let a content be
    made of stretches of text and of bare tokens (the form a token takes
    once a YAML round trip has dropped its quotes), each token standing
    once, in any order, and let the table hold, in any order, exactly
    the entries of these tokens.  If the text with the templates in
    place does not hold the token prefix, and no token is directly
    followed by a digit or by a quote, then restoring puts every
    template back in the place of its token.  The loop runs longest
    token first, so a token whose number starts another one's (1 and
    10) is not replaced inside the longer one. *)
Theorem restore_bare_tokens (ps : list piece) (templates : dict str) :
  occurs "AETHER_PLACEHOLDER_" (render_all (fun _ => true) ps) = false ->
  well_followed ps = true ->
  NoDup (map fst (templates_of ps)) ->
  Permutation templates (map token_entry (templates_of ps)) ->
  restore_aether_templates (render_bare_all (fun _ => false) ps) templates
  = Ok (render_all (fun _ => true) ps).
Proof.
  intros Hfree Hfollow Hidx Hperm.
  assert (Hkeys : Permutation (dict_keys templates)
                    (map placeholder_name (map fst (templates_of ps)))).
  { unfold dict_keys; rewrite (Permutation_map fst Hperm), !map_map.
    reflexivity. }
  assert (Hnd : NoDup (dict_keys templates)).
  { apply (Permutation_NoDup (Permutation_sym Hkeys)).
    now apply placeholder_names_NoDup. }
  assert (Htable : forall j t, In (Tpl j t) ps ->
                     dict_get (placeholder_name j) templates = Some t).
  { intros j t Hin; apply dict_In_get; [exact Hnd|].
    apply (Permutation_in _ (Permutation_sym Hperm)).
    apply in_templates_of in Hin.
    apply (in_map token_entry) in Hin; exact Hin. }
  unfold restore_aether_templates.
  pose proof (sorted_longest_first_sorted (dict_keys templates)) as Hsorted.
  pose proof (Permutation_trans
                (sorted_longest_first_perm (dict_keys templates)) Hkeys) as Hp.
  apply Permutation_map_inv in Hp as (ks & Heq & Hks).
  rewrite Heq in *.
  rewrite (restore_loop_bare templates ps Hfree Hfollow Hidx Htable).
  - cbn [bind].
    assert (Hlen : length templates = length ks).
    { rewrite (Permutation_length Hperm), length_map.
      rewrite <- (Permutation_length Hks); now rewrite length_map. }
    rewrite Hlen.
    replace ((0 + length ks =? 0) && (0 <? length ks)) with false
      by (destruct (length ks); reflexivity).
    f_equal; rewrite <- render_bare_all_restored.
    apply render_bare_all_ext; intros j t Hin; cbn [orb].
    apply existsb_exists; exists j; split; [|apply Nat.eqb_refl].
    apply (Permutation_in _ Hks).
    apply in_templates_of in Hin; apply (in_map fst) in Hin; exact Hin.
  - apply (Permutation_NoDup Hks Hidx).
  - exact Hsorted.
  - intros j t Hin; split; [intros _|reflexivity].
    apply (Permutation_in _ Hks).
    apply in_templates_of in Hin; apply (in_map fst) in Hin; exact Hin.
  - intros i Hi; apply (Permutation_in _ (Permutation_sym Hks)) in Hi.
    apply in_map_iff in Hi as ([i' t] & <- & Hi).
    exists t; now apply in_templates_of.
Qed.

Lemma restore_bare_tokens_witness :
  restore_aether_templates
    (render_bare_all (fun _ => false) dumped_pieces) dumped_table
  = Ok (render_all (fun _ => true) dumped_pieces).
Proof.
  apply (restore_bare_tokens dumped_pieces dumped_table).
  - vm_compute; reflexivity.
  - vm_compute; reflexivity.
  - cbn; repeat constructor; cbn; intuition discriminate.
  - apply perm_swap.
Defined.

(** ** Network detection *)

(** *** Words and lines *)

Lemma split_from_words (s : str) :
  forall word x,
    forallb is_nonspace word = true ->
    In x (split_from word s) -> is_py_word x.
Proof.
  induction s as [|c s IH]; intros word x Hw; cbn [split_from].
  - destruct word as [|a word]; [intros []|].
    intros [<-|[]]; split; [discriminate|assumption].
  - destruct (is_space c) eqn:Hc.
    + destruct word as [|a word]; [now apply IH|].
      intros [<-|Hin]; [split; [discriminate|assumption]|].
      now apply (IH [] x).
    + apply IH; rewrite forallb_app, Hw; cbn [forallb].
      unfold is_nonspace; now rewrite Hc.
Qed.

(** The words of a line are not empty and hold no whitespace. *)
Lemma py_split_words (s x : str) : In x (py_split s) -> is_py_word x.
Proof. now apply split_from_words. Qed.

Lemma py_index_spec (x : str) (l : list str) (i : nat) :
  py_index x l = Some i
  <-> exists l1 l2, l = l1 ++ x :: l2 /\ length l1 = i /\ ~ In x l1.
Proof.
  revert i; induction l as [|y l IH]; intros i; cbn [py_index].
  - split; [discriminate|intros ([|? ?] & l2 & Hl & _); discriminate].
  - destruct (str_eqb y x) eqn:Hy.
    + apply str_eqb_eq in Hy; subst y; split.
      * intros [= <-]; exists [], l; now repeat split.
      * intros ([|z l1] & l2 & Hl & <- & Hn); [reflexivity|].
        injection Hl as -> _; elim Hn; now left.
    + apply str_eqb_false_iff in Hy; split.
      * destruct (py_index x l) as [k|] eqn:Hk; [|discriminate].
        intros [= <-]; destruct (proj1 (IH k) eq_refl) as (l1 & l2 & -> & <- & Hn).
        exists (y :: l1), l2; repeat split.
        intros [->|Hin]; [now apply Hy|now apply Hn].
      * intros ([|z l1] & l2 & Hl & <- & Hn).
        -- injection Hl as -> _; now elim Hy.
        -- injection Hl as <- ->.
           rewrite (proj2 (IH (length l1))); [reflexivity|].
           exists l1, l2; repeat split.
           intros Hin; apply Hn; now right.
Qed.

Lemma py_index_None (x : str) (l : list str) :
  py_index x l = None <-> ~ In x l.
Proof.
  induction l as [|y l IH]; cbn [py_index In]; [tauto|].
  destruct (str_eqb y x) eqn:Hy.
  - apply str_eqb_eq in Hy; split; [discriminate|tauto].
  - apply str_eqb_false_iff in Hy.
    destruct (py_index x l); [split; [discriminate|]|tauto].
    intros Hn; exfalso; apply Hn; right.
    destruct IH as [_ IH].
    destruct (in_dec (list_eq_dec ascii_dec) x l) as [Hin|Hin];
      [assumption|discriminate (IH Hin)].
Qed.

(** *** The interface of the default route *)

(** The loop returns an interface exactly when the first line holding
    [default] has a word after its first word [dev]; that word is the
    interface. *)
Lemma default_interface_spec (lines : list str) (interface : str) :
  default_interface lines = Ok interface
  <-> exists before line rest words1 words2,
        lines = before ++ line :: rest
        /\ (forall l, In l before -> occurs "default" l = false)
        /\ occurs "default" line = true
        /\ py_split line = words1 ++ lit "dev" :: interface :: words2
        /\ ~ In (lit "dev") words1.
Proof.
  induction lines as [|line lines IH]; cbn [default_interface].
  - split; [discriminate|].
    intros ([|? ?] & ? & ? & ? & ? & Hl & _); discriminate.
  - destruct (occurs "default" line) eqn:Hd.
    + split.
      * destruct (py_index "dev" (py_split line)) as [i|] eqn:Hi;
          [|discriminate].
        apply py_index_spec in Hi as (w1 & w2 & Hsplit & <- & Hn).
        rewrite Hsplit, nth_error_app2 by lia.
        replace (length w1 + 1 - length w1) with 1 by lia.
        destruct w2 as [|w w2]; cbn [nth_error]; [discriminate|].
        intros [= ->].
        exists [], line, lines, w1, w2; repeat split; try assumption.
        intros l [].
      * intros ([|l0 before] & line' & rest & w1 & w2 & Hl & Hb & Hd' & Hs & Hn).
        -- injection Hl as <- _.
           rewrite (proj2 (py_index_spec "dev" (py_split line) (length w1)))
             by (exists w1, (interface :: w2); now repeat split).
           rewrite Hs, nth_error_app2 by lia.
           replace (length w1 + 1 - length w1) with 1 by lia.
           reflexivity.
        -- injection Hl as <- _.
           rewrite (Hb line (or_introl eq_refl)) in Hd; discriminate.
    + rewrite IH; split.
      * intros (before & line' & rest & w1 & w2 & -> & Hb & Hd' & Hs & Hn).
        exists (line :: before), line', rest, w1, w2; repeat split;
          try assumption.
        intros l [<-|Hin]; [assumption|now apply Hb].
      * intros ([|l0 before] & line' & rest & w1 & w2 & Hl & Hb & Hd' & Hs & Hn).
        -- injection Hl as <- _; congruence.
        -- injection Hl as <- ->.
           exists before, line', rest, w1, w2; repeat split; try assumption.
           intros l Hin; apply Hb; now right.
Qed.

(** The loop fails when no line holds [default], and when the first
    such line has no word [dev] or has it last. *)
Lemma default_interface_fails (before rest : list str) (line : str) :
  (forall l, In l before -> occurs "default" l = false) ->
  occurs "default" line = true ->
  (~ In (lit "dev") (py_split line)
   \/ exists words, py_split line = words ++ [lit "dev"]
                    /\ ~ In (lit "dev") words) ->
  exists e, default_interface (before ++ line :: rest) = Raise e.
Proof.
  intros Hb Hd Hw; induction before as [|l before IH];
    cbn [app default_interface].
  - rewrite Hd; destruct Hw as [Hn|(words & Hs & Hn)].
    + apply py_index_None in Hn; rewrite Hn; eauto.
    + rewrite (proj2 (py_index_spec "dev" (py_split line) (length words)))
        by (exists words, []; now repeat split).
      rewrite Hs, nth_error_app2 by lia.
      replace (length words + 1 - length words) with 1 by lia.
      cbn [nth_error]; eauto.
  - rewrite (Hb l (or_introl eq_refl)); apply IH.
    intros l' Hin; apply Hb; now right.
Qed.

(** *** The address pattern *)

Lemma span_iff (p : ascii -> bool) (s a b : str) :
  span p s = (a, b)
  <-> s = a ++ b /\ forallb p a = true
      /\ (b = [] \/ exists c b', b = c :: b' /\ p c = false).
Proof.
  split.
  - intros H; destruct (span_spec _ _ _ _ H) as [Hs Ha].
    repeat split; try assumption; exact (span_tail _ _ _ _ H).
  - intros (-> & Ha & [->|(c & b' & -> & Hc)]).
    + rewrite app_nil_r; now apply span_all.
    + now apply span_app.
Qed.

Lemma starts_with_digit_false (s : str) :
  starts_with_digit s = false
  <-> s = [] \/ exists c s', s = c :: s' /\ is_digit c = false.
Proof.
  destruct s as [|c s]; cbn [starts_with_digit]; split; auto.
  - intros H; right; eauto.
  - intros [H|(c' & s' & [= <- <-] & H)]; [discriminate|assumption].
Qed.

Lemma match_number_spec (s d r : str) :
  match_number s = Some (d, r)
  <-> s = d ++ r /\ is_number d /\ starts_with_digit r = false.
Proof.
  unfold match_number, is_number; rewrite starts_with_digit_false.
  destruct (span is_digit s) as [a b] eqn:Hspan.
  apply span_iff in Hspan as (Hs & Ha & Hb); split.
  - destruct a as [|x a]; [discriminate|]; intros [= <- <-].
    repeat split; try assumption; discriminate.
  - intros (Hs' & [Hne Hd] & Hr).
    assert (Hspan : span is_digit s = (d, r))
      by (apply span_iff; repeat split; assumption).
    assert (Hspan' : span is_digit s = (a, b))
      by (apply span_iff; repeat split; assumption).
    rewrite Hspan in Hspan'; injection Hspan' as <- <-.
    destruct d; [congruence|reflexivity].
Qed.

Lemma match_dot_spec (s r : str) :
  match_dot s = Some r <-> s = "."%char :: r.
Proof.
  destruct s as [|c s]; cbn [match_dot]; [split; discriminate|].
  destruct (Ascii.eqb c "."%char) eqn:Hc.
  - apply Ascii.eqb_eq in Hc; subst c; split; intros [= ->]; reflexivity.
  - apply Ascii.eqb_neq in Hc; split; [discriminate|intros [= -> _]].
    now elim Hc.
Qed.

Lemma dot_not_digit (r : str) : starts_with_digit ("."%char :: r) = false.
Proof. reflexivity. Qed.

Lemma digit_not_space (c : ascii) : is_digit c = true -> is_space c = false.
Proof.
  destruct c as [[] [] [] [] [] [] [] []]; vm_compute; congruence.
Qed.

Lemma linebreak_is_space (c : ascii) :
  is_linebreak c = true -> is_space c = true.
Proof.
  destruct c as [[] [] [] [] [] [] [] []]; vm_compute; congruence.
Qed.

(** What the pattern matches at the start of a text. *)
Lemma match_inet_spec (s ip_addr : str) :
  match_inet s = Some ip_addr
  <-> exists spaces rest,
        s = lit "inet" ++ spaces ++ ip_addr ++ rest
        /\ spaces <> [] /\ forallb is_space spaces = true
        /\ dotted_quad ip_addr /\ starts_with_digit rest = false.
Proof.
  unfold match_inet; split.
  - destruct (starts_with "inet" s) eqn:Hi; [|discriminate].
    apply starts_with_split in Hi.
    change (length (lit "inet")) with 4 in Hi.
    destruct (span is_space (skipn 4 s)) as [spaces s1] eqn:Hsp.
    apply span_spec in Hsp as [Hs1 Hspaces].
    destruct spaces as [|x spaces]; [discriminate|].
    destruct (match_number s1) as [[d1 s2]|] eqn:H1; [|discriminate].
    destruct (match_dot s2) as [s3|] eqn:H2; [|discriminate].
    destruct (match_number s3) as [[d2 s4]|] eqn:H3; [|discriminate].
    destruct (match_dot s4) as [s5|] eqn:H4; [|discriminate].
    destruct (match_number s5) as [[d3 s6]|] eqn:H5; [|discriminate].
    destruct (match_dot s6) as [s7|] eqn:H6; [|discriminate].
    destruct (match_number s7) as [[d4 s8]|] eqn:H7; [|discriminate].
    intros [= <-].
    apply match_number_spec in H1 as (-> & Hd1 & _).
    apply match_dot_spec in H2 as ->.
    apply match_number_spec in H3 as (-> & Hd2 & _).
    apply match_dot_spec in H4 as ->.
    apply match_number_spec in H5 as (-> & Hd3 & _).
    apply match_dot_spec in H6 as ->.
    apply match_number_spec in H7 as (-> & Hd4 & Hrest).
    exists (x :: spaces), s8; repeat split; try assumption; try discriminate.
    + rewrite Hi, Hs1; f_equal; f_equal.
      change (lit ".") with ["."%char].
      repeat (rewrite <- app_assoc; cbn [app]); reflexivity.
    + exists d1, d2, d3, d4.
      split; [assumption|split; [assumption|split; [assumption|]]].
      split; [assumption|reflexivity].
  - intros (spaces & rest & -> & Hne & Hsp & (d1 & d2 & d3 & d4 & Hd1 & Hd2
                                               & Hd3 & Hd4 & ->) & Hrest).
    rewrite starts_with_app.
    change (skipn 4 (lit "inet" ++ ?x)) with x.
    rewrite <- !app_assoc.
    destruct Hd1 as [Hn1 Hdig1].
    assert (Hspan : span is_space
                      (spaces ++ d1 ++ lit "." ++ d2 ++ lit "." ++ d3
                       ++ lit "." ++ d4 ++ rest)
                    = (spaces, d1 ++ lit "." ++ d2 ++ lit "." ++ d3
                               ++ lit "." ++ d4 ++ rest)).
    { destruct d1 as [|c d1]; [congruence|].
      apply span_app; [assumption|].
      cbn [forallb] in Hdig1; apply andb_true_iff in Hdig1 as [Hc _].
      now apply digit_not_space. }
    rewrite Hspan; destruct spaces as [|x spaces]; [congruence|].
    change (lit ".") with ["."%char]; cbn [app].
    rewrite (proj2 (match_number_spec _ d1 _))
      by (repeat split; try assumption; reflexivity).
    cbn [match_dot]; rewrite Ascii.eqb_refl.
    rewrite (proj2 (match_number_spec _ d2 _))
      by (repeat split; try apply Hd2; reflexivity).
    cbn [match_dot]; rewrite Ascii.eqb_refl.
    rewrite (proj2 (match_number_spec _ d3 _))
      by (repeat split; try apply Hd3; reflexivity).
    cbn [match_dot]; rewrite Ascii.eqb_refl.
    rewrite (proj2 (match_number_spec _ d4 rest))
      by (repeat split; try apply Hd4; assumption).
    reflexivity.
Qed.

Lemma search_inet_here (s ip_addr : str) :
  match_inet s = Some ip_addr -> search_inet s = Some ip_addr.
Proof. intros H; destruct s; cbn [search_inet]; now rewrite H. Qed.

Lemma search_inet_sound (s ip_addr : str) :
  search_inet s = Some ip_addr ->
  exists before s', s = before ++ s' /\ match_inet s' = Some ip_addr.
Proof.
  induction s as [|c s IH]; cbn [search_inet].
  - destruct (match_inet []) eqn:H; [|discriminate].
    intros [= ->]; now exists [], [].
  - destruct (match_inet (c :: s)) eqn:H.
    + intros [= ->]; now exists [], (c :: s).
    + intros Hs; destruct (IH Hs) as (before & s' & -> & Hm).
      now exists (c :: before), s'.
Qed.

Lemma search_inet_skip (before s : str) :
  (forall l1 l2, before = l1 ++ l2 -> l2 <> [] ->
                 match_inet (l2 ++ s) = None) ->
  search_inet (before ++ s) = search_inet s.
Proof.
  induction before as [|c before IH]; intros H; [reflexivity|].
  cbn [app search_inet].
  change (c :: before ++ s) with ((c :: before) ++ s).
  rewrite (H [] (c :: before) eq_refl) by discriminate.
  apply IH; intros l1 l2 -> Hne; now apply (H (c :: l1) l2).
Qed.

(** A pattern no proper end of which is a start of it does not start
    in a text and run on into an occurrence that follows the text. *)
Lemma unbordered_across (p l rest : str) :
  forallb (fun k => negb (starts_with (skipn k p) p)) (seq 1 (length p - 1))
  = true ->
  l <> [] -> starts_with p (l ++ p ++ rest) = true ->
  starts_with p l = true.
Proof.
  intros Hub Hne H.
  destruct (Nat.le_gt_cases (length p) (length l)) as [Hl|Hl].
  - now apply (starts_with_long _ _ _ H).
  - exfalso.
    pose proof (starts_with_suffix_split _ _ _ H (Nat.lt_le_incl _ _ Hl)) as Hs.
    apply starts_with_long in Hs; [|rewrite length_skipn; lia].
    rewrite forallb_forall in Hub.
    assert (Hin : In (length l) (seq 1 (length p - 1))).
    { apply in_seq; destruct l; [congruence|cbn [length] in *; lia]. }
    apply Hub in Hin; rewrite Hs in Hin; discriminate.
Qed.

Lemma default_interface_no_exit (lines : list str) (code : Z) :
  default_interface lines <> Exit code.
Proof.
  induction lines as [|l ls IH]; cbn [default_interface]; [discriminate|].
  destruct (occurs "default" l); [|assumption].
  destruct (py_index "dev" (py_split l)); [|discriminate].
  destruct (nth_error (py_split l) (n + 1)); discriminate.
Qed.

Lemma occurs_inet_found (s ip_addr : str) :
  search_inet s = Some ip_addr ->
  dotted_quad ip_addr /\ occurs "inet" s = true /\ occurs ip_addr s = true.
Proof.
  intros H; apply search_inet_sound in H as (before & s' & -> & Hm).
  apply match_inet_spec in Hm as (spaces & rest & -> & _ & _ & Hq & _).
  split; [assumption|split].
  - apply occurs_app_r, occurs_here, starts_with_app.
  - apply occurs_app_r, occurs_app_r, occurs_app_r, occurs_here,
      starts_with_app.
Qed.

(** X21.  get_network_info, outcome.  The function never lets an exception
    escape: it returns or ends the process with status 1.  What it
    returns is a word of a line of the route table that holds default,
    and a dotted quad (four runs of decimal digits, of any length and
    value) that occurs, after inet, in what [ip -4 addr show] printed for
    that word. *)
Theorem get_network_info_outcome (E : IpCommand) :
  match get_network_info with
  | Ok (interface, ip_addr) =>
      is_py_word interface /\ dotted_quad ip_addr
      /\ (exists route line,
             ip_route = Returns route /\ In line (py_splitlines route)
             /\ occurs "default" line = true /\ In interface (py_split line))
      /\ (exists addr,
             ip_addr_show interface = Returns addr
             /\ occurs "inet" addr = true /\ occurs ip_addr addr = true)
  | Exit code => code = 1%Z
  | Raise _ => False
  end.
Proof.
  unfold get_network_info.
  destruct ip_route as [route|e] eqn:Hroute; cbn [call bind]; [|reflexivity].
  destruct (default_interface (py_splitlines route)) as [interface|c|e]
    eqn:Hif; cbn [bind];
    [|now apply default_interface_no_exit in Hif|reflexivity].
  destruct (ip_addr_show interface) as [addr|e] eqn:Haddr; cbn [call bind];
    [|reflexivity].
  destruct (search_inet addr) as [ip_addr|] eqn:Hs; [|reflexivity].
  apply default_interface_spec in Hif
    as (before & line & rest & w1 & w2 & Hl & _ & Hd & Hw & _).
  destruct (occurs_inet_found _ _ Hs) as (Hq & Hi & Ho).
  assert (Hin : In interface (py_split line))
    by (rewrite Hw; apply in_or_app; right; right; now left).
  split; [now apply (py_split_words line)|split; [assumption|split]].
  - exists route, line; repeat split; try assumption.
    rewrite Hl; apply in_or_app; right; now left.
  - exists addr; now repeat split.
Qed.

(** *** The usual output of [ip] *)

Lemma splitlines_from_line (a : str) :
  forall line s,
    forallb (fun c => negb (is_linebreak c)) a = true ->
    splitlines_from line false (a ++ s) = splitlines_from (line ++ a) false s.
Proof.
  induction a as [|c a IH]; intros line s Ha; cbn [app forallb] in *.
  - now rewrite app_nil_r.
  - apply andb_true_iff in Ha as [Hc Ha]; apply negb_true_iff in Hc.
    cbn [splitlines_from andb]; rewrite Hc, IH by assumption.
    now rewrite <- app_assoc.
Qed.

Lemma splitlines_from_end (line s : str) :
  ends_line s = true -> line <> [] ->
  exists others, splitlines_from line false s = line :: others.
Proof.
  destruct s as [|c s]; cbn [ends_line splitlines_from andb]; intros H Hne.
  - destruct line; [congruence|]; now exists [].
  - rewrite H; eauto.
Qed.

Lemma split_from_nonspace (x : str) :
  forall word s,
    forallb is_nonspace x = true ->
    split_from word (x ++ s) = split_from (word ++ x) s.
Proof.
  induction x as [|c x IH]; intros word s Hx; cbn [app forallb] in *.
  - now rewrite app_nil_r.
  - apply andb_true_iff in Hx as [Hc Hx]; apply negb_true_iff in Hc.
    cbn [split_from]; rewrite Hc, IH by assumption.
    now rewrite <- app_assoc.
Qed.

(** Words joined by single blanks split into these words. *)
Lemma py_split_join (words : list str) :
  Forall is_py_word words -> py_split (py_join " " words) = words.
Proof.
  induction 1 as [|x words [Hne Hx] Hws IH]; [reflexivity|].
  unfold py_split in *; destruct words as [|y words]; cbn [py_join].
  - rewrite <- (app_nil_r x) at 1.
    rewrite split_from_nonspace by assumption; cbn [app split_from].
    destruct x; [congruence|reflexivity].
  - rewrite split_from_nonspace by assumption; cbn [app].
    change (lit " " ++ ?s) with (" "%char :: s); cbn [split_from].
    change (is_space " "%char) with true; cbn iota.
    destruct x; [congruence|]; f_equal; exact IH.
Qed.

Lemma py_join_no_linebreak (words : list str) :
  Forall is_py_word words ->
  forallb (fun c => negb (is_linebreak c)) (py_join " " words) = true.
Proof.
  assert (Hword : forall x, is_py_word x ->
            forallb (fun c => negb (is_linebreak c)) x = true).
  { intros x [_ Hx]; apply forallb_forall; intros c Hc.
    rewrite forallb_forall in Hx; apply Hx in Hc.
    unfold is_nonspace in Hc; apply negb_true_iff in Hc.
    apply negb_true_iff; destruct (is_linebreak c) eqn:E; [|reflexivity].
    apply linebreak_is_space in E; congruence. }
  induction 1 as [|x words Hx Hws IH]; [reflexivity|].
  destruct words as [|y words]; [now apply Hword|].
  change (py_join " " (x :: y :: words))
    with (x ++ lit " " ++ py_join " " (y :: words)).
  rewrite !forallb_app, Hword, IH by assumption; reflexivity.
Qed.

Lemma occurs_py_join (sep w : str) (words : list str) :
  In w words -> occurs w (py_join sep words) = true.
Proof.
  induction words as [|x words IH]; [intros []|].
  intros [->|Hin]; destruct words as [|y words].
  - apply occurs_here; cbn [py_join].
    rewrite <- (app_nil_r w) at 2; apply starts_with_app.
  - apply occurs_here, starts_with_app.
  - destruct Hin.
  - change (py_join sep (x :: y :: words))
      with (x ++ sep ++ py_join sep (y :: words)).
    apply occurs_app_r, occurs_app_r; now apply IH.
Qed.

Lemma inet_across (l rest : str) :
  l <> [] -> starts_with "inet" (l ++ lit "inet" ++ rest) = true ->
  starts_with "inet" l = true.
Proof. now apply unbordered_across. Qed.

(** The first address of a text in which [inet] stands, followed by
    whitespace and a dotted quad, for the first time. *)
Lemma search_inet_first (before spaces quad rest : str) :
  occurs "inet" before = false ->
  spaces <> [] -> forallb is_space spaces = true ->
  dotted_quad quad -> starts_with_digit rest = false ->
  search_inet (before ++ lit "inet" ++ spaces ++ quad ++ rest) = Some quad.
Proof.
  intros Hb Hne Hsp Hq Hr; rewrite search_inet_skip.
  - apply search_inet_here, match_inet_spec.
    exists spaces, rest; now repeat split.
  - intros l1 l2 -> Hl2; unfold match_inet.
    destruct (starts_with "inet"
                (l2 ++ lit "inet" ++ spaces ++ quad ++ rest)) eqn:Hs;
      [exfalso|reflexivity].
    apply inet_across in Hs; [|assumption].
    now rewrite (occurs_false_suffix _ _ _ Hb) in Hs.
Qed.

(** X22.  get_network_info, on the usual output.  When the first line of the
    route table is a row of words separated by single blanks, default
    among them, and the first word dev is followed by a word, and what
    [ip -4 addr show] prints for that word holds inet for the first time
    before whitespace and a dotted quad that no digit follows, the
    function returns that word and that dotted quad. *)
Theorem get_network_info_detects (E : IpCommand)
  (words1 words2 : list str) (interface tail : str)
  (before spaces quad rest : str) :
  ip_route
  = Returns (py_join " " (words1 ++ lit "dev" :: interface :: words2)
             ++ tail) ->
  Forall is_py_word (words1 ++ lit "dev" :: interface :: words2) ->
  In (lit "default") (words1 ++ lit "dev" :: interface :: words2) ->
  ~ In (lit "dev") words1 ->
  ends_line tail = true ->
  ip_addr_show interface
  = Returns (before ++ lit "inet" ++ spaces ++ quad ++ rest) ->
  occurs "inet" before = false ->
  spaces <> [] -> forallb is_space spaces = true ->
  dotted_quad quad -> starts_with_digit rest = false ->
  get_network_info = Ok (interface, quad).
Proof.
  intros Hroute Hwords Hdef Hdev Htail Haddr Hb Hne Hsp Hq Hr.
  unfold get_network_info; rewrite Hroute; cbn [call bind].
  set (words := words1 ++ lit "dev" :: interface :: words2) in *.
  assert (Hline : exists others,
             py_splitlines (py_join " " words ++ tail)
             = py_join " " words :: others).
  { unfold py_splitlines.
    rewrite splitlines_from_line by now apply py_join_no_linebreak.
    apply splitlines_from_end; [assumption|cbn [app]].
    intros Hnil; apply (occurs_py_join " ") in Hdef.
    rewrite Hnil in Hdef; discriminate. }
  destruct Hline as (others & ->).
  rewrite (proj2 (default_interface_spec _ interface)).
  - cbn [bind]; rewrite Haddr; cbn [call bind].
    now rewrite search_inet_first.
  - exists [], (py_join " " words), others, words1, words2.
    repeat split; try assumption.
    + intros l [].
    + now apply occurs_py_join.
    + now apply py_split_join.
Qed.

Lemma get_network_info_detects_witness :
  @get_network_info usual_ip = Ok (lit "eth0", lit "10.1.0.4").
Proof.
  apply (get_network_info_detects usual_ip
           [lit "default"; lit "via"; lit "10.1.0.1"]
           [lit "proto"; lit "dhcp"; lit "src"; lit "10.1.0.4";
            lit "metric"; lit "100"]
           "eth0"
           (newline
            :: lit "10.1.0.0/24 dev eth0 proto kernel scope link src 10.1.0.4")
           (lit "2: eth0: <BROADCAST,MULTICAST,UP,LOWER_UP> mtu 1500 qdisc mq state UP"
            ++ [newline] ++ lit "    ")
           " " "10.1.0.4"
           (lit "/24 metric 100 brd 10.1.0.255 scope global eth0" ++ [newline])).
  - reflexivity.
  - repeat constructor; discriminate.
  - now left.
  - cbn; intuition discriminate.
  - reflexivity.
  - reflexivity.
  - reflexivity.
  - discriminate.
  - reflexivity.
  - exists "10", "1", "0", "4"; repeat split; discriminate.
  - reflexivity.
Defined.

(** X23.  get_network_info, the first default line decides.  When the first
    line of the route table that holds default has no word dev, or has
    it as its last word, the process ends with status 1, whatever the
    later lines hold. *)
Theorem get_network_info_first_default_line (E : IpCommand)
  (route : str) (before rest : list str) (line : str) :
  ip_route = Returns route ->
  py_splitlines route = before ++ line :: rest ->
  (forall l, In l before -> occurs "default" l = false) ->
  occurs "default" line = true ->
  (~ In (lit "dev") (py_split line)
   \/ exists words, py_split line = words ++ [lit "dev"]
                    /\ ~ In (lit "dev") words) ->
  get_network_info = Exit 1.
Proof.
  intros Hroute Hlines Hb Hd Hw.
  unfold get_network_info; rewrite Hroute; cbn [call bind]; rewrite Hlines.
  destruct (default_interface_fails before rest line Hb Hd Hw) as (e & ->).
  reflexivity.
Qed.

Lemma get_network_info_first_default_line_witness :
  @get_network_info
     (ip_table (Returns unreachable_route_text) "eth0" (Returns addr_text))
  = Exit 1.
Proof.
  apply (get_network_info_first_default_line _ unreachable_route_text
           [] [lit "default via 10.1.0.1 dev eth0"]
           "unreachable default metric 4278198272").
  - reflexivity.
  - reflexivity.
  - intros l [].
  - reflexivity.
  - left; vm_compute; intuition discriminate.
Defined.

(** ** Substitution by pattern *)

Lemma last_char_app (prev : option ascii) (a b : str) :
  last_char prev (a ++ b) = last_char (last_char prev a) b.
Proof. apply fold_left_app. Qed.

Section Subn.

Variable attempt : option ascii -> str -> option (list str).
Variable template : list template_item.

Lemma subn_from_skip (l s : str) :
  forall prev,
    subn_from attempt template prev (length l) (l ++ s)
    = subn_from attempt template (last_char prev l) 0 s.
Proof.
  induction l as [|c l IH]; intros prev; [reflexivity|].
  cbn [length app subn_from]; apply IH.
Qed.

(** At a match the replacement is put and the scan resumes after it. *)
Lemma subn_from_match (prev : option ascii) (m s : str) (groups : list str) :
  attempt prev (m ++ s) = Some groups -> nth 0 groups [] = m -> m <> [] ->
  subn_from attempt template prev 0 (m ++ s)
  = (expand_template template groups
       ++ fst (subn_from attempt template (last_char prev m) 0 s),
     S (snd (subn_from attempt template (last_char prev m) 0 s))).
Proof.
  intros Ha Hm Hne; destruct m as [|c m]; [congruence|].
  change ((c :: m) ++ s) with (c :: m ++ s) in *.
  cbn [subn_from]; rewrite Ha, Hm.
  replace (length (c :: m) - 1) with (length m) by (cbn [length]; lia).
  rewrite subn_from_skip.
  change (last_char prev (c :: m)) with (last_char (Some c) m).
  now destruct (subn_from attempt template (last_char (Some c) m) 0 s).
Qed.

(** A stretch in which the pattern matches nowhere is copied. *)
Lemma subn_from_copy (l s : str) :
  forall prev,
    (forall l1 l2, l = l1 ++ l2 -> l2 <> [] ->
                   attempt (last_char prev l1) (l2 ++ s) = None) ->
    subn_from attempt template prev 0 (l ++ s)
    = (l ++ fst (subn_from attempt template (last_char prev l) 0 s),
       snd (subn_from attempt template (last_char prev l) 0 s)).
Proof.
  induction l as [|c l IH]; intros prev H.
  - cbn [app last_char fold_left].
    now destruct (subn_from attempt template prev 0 s).
  - change ((c :: l) ++ s) with (c :: l ++ s); cbn [subn_from].
    change (c :: l ++ s) with ((c :: l) ++ s).
    assert (H0 : attempt prev ((c :: l) ++ s) = None)
      by (apply (H [] (c :: l) eq_refl); discriminate).
    rewrite H0, IH.
    + reflexivity.
    + intros l1 l2 -> Hne; apply (H (c :: l1) l2 eq_refl Hne).
Qed.

Lemma subn_from_end (prev : option ascii) :
  subn_from attempt template prev 0 [] = ([], 0).
Proof. reflexivity. Qed.

(** A pattern that needs [key] at its start. *)
Variable key : str.
Hypothesis attempt_key :
  forall prev s, starts_with key s = false -> attempt prev s = None.

Lemma subn_from_copy_key (l s : str) (prev : option ascii) :
  (forall l1 l2, l = l1 ++ l2 -> l2 <> [] ->
                 starts_with key (l2 ++ s) = false) ->
  subn_from attempt template prev 0 (l ++ s)
  = (l ++ fst (subn_from attempt template (last_char prev l) 0 s),
     snd (subn_from attempt template (last_char prev l) 0 s)).
Proof.
  intros H; apply subn_from_copy; intros l1 l2 Hl Hne.
  apply attempt_key; now apply (H l1).
Qed.

(** A text without [key] is left as it is. *)
Lemma subn_from_keyless (s : str) (prev : option ascii) :
  occurs key s = false ->
  subn_from attempt template prev 0 s = (s, 0).
Proof.
  intros Hocc; rewrite <- (app_nil_r s) at 1.
  rewrite subn_from_copy_key; [now rewrite app_nil_r|].
  intros l1 l2 -> _; rewrite app_nil_r.
  now apply (occurs_false_suffix _ l1).
Qed.

End Subn.

(** Two texts that differ before either ends: the one starts nothing
    that starts with the other. *)
Lemma starts_with_clash (p l rest : str) :
  starts_with p l = false -> starts_with l p = false ->
  starts_with p (l ++ rest) = false.
Proof.
  intros H1 H2; destruct (starts_with p (l ++ rest)) eqn:Hs; [|reflexivity].
  destruct (Nat.le_gt_cases (length p) (length l)) as [Hl|Hl].
  - now rewrite (starts_with_long _ _ _ Hs Hl) in H1.
  - now rewrite (starts_with_short _ _ _ Hs (Nat.lt_le_incl _ _ Hl)) in H2.
Qed.

Lemma no_start_inside (p l rest : str) :
  clashes_inside p l = true ->
  forall l1 l2, l = l1 ++ l2 -> l2 <> [] ->
                starts_with p (l2 ++ rest) = false.
Proof.
  unfold clashes_inside; rewrite forallb_forall; intros H l1 l2 -> Hne.
  assert (Hin : In (length l1) (seq 0 (length (l1 ++ l2)))).
  { apply in_seq; rewrite length_app.
    destruct l2; [congruence|cbn [length]; lia]. }
  apply H in Hin.
  rewrite skipn_app, skipn_all, Nat.sub_diag in Hin; cbn [skipn app] in Hin.
  apply andb_true_iff in Hin as [H1 H2].
  apply negb_true_iff in H1, H2; now apply starts_with_clash.
Qed.

(** A text that does not hold the pattern, before a text no place of
    which starts it and before which the pattern cannot end. *)
Lemma no_start_before (p before l rest : str) (q : ascii) (l' : str) :
  occurs p before = false -> l = q :: l' -> ~ In q p ->
  forall l1 l2, before = l1 ++ l2 -> l2 <> [] ->
                starts_with p (l2 ++ l ++ rest) = false.
Proof.
  intros Hocc -> Hq l1 l2 -> Hne.
  destruct (starts_with p (l2 ++ (q :: l') ++ rest)) eqn:Hs; [|reflexivity].
  apply starts_with_across in Hs; [|assumption].
  now rewrite (occurs_false_suffix _ _ _ Hocc) in Hs.
Qed.

(** ** Timeouts *)

Lemma timeout_template_reads :
  timeout_template = Returns (literal_template "p0s").
Proof. reflexivity. Qed.

Lemma expand_literal_template (replacement : str) (groups : list str) :
  expand_template (literal_template replacement) groups = replacement.
Proof.
  induction replacement as [|c r IH]; [reflexivity|].
  cbn [literal_template map expand_template flat_map expand_item app].
  f_equal; exact IH.
Qed.

Lemma match_timeout_300s_key (prev : option ascii) (s : str) :
  starts_with "timeout:" s = false -> match_timeout_300s prev s = None.
Proof.
  intros H; unfold match_timeout_300s; now rewrite H, andb_false_r.
Qed.

Lemma match_timeout_10m_key (prev : option ascii) (s : str) :
  starts_with "--timeout" s = false -> match_timeout_10m prev s = None.
Proof. intros H; unfold match_timeout_10m; now rewrite H. Qed.

Lemma match_2m30s_key (prev : option ascii) (s : str) :
  starts_with "2m30s" s = false -> match_2m30s prev s = None.
Proof.
  intros H; unfold match_2m30s; now rewrite H, andb_false_r.
Qed.

(** The first pattern at a field: the key, whitespace, the value. *)
Lemma match_timeout_300s_field (prev : option ascii) (spaces after : str) :
  word_before prev = false -> forallb is_space spaces = true ->
  word_at after = false ->
  match_timeout_300s prev (lit "timeout:" ++ spaces ++ lit "300s" ++ after)
  = Some [lit "timeout:" ++ spaces ++ lit "300s"; lit "timeout:" ++ spaces].
Proof.
  intros Hprev Hsp Hafter; unfold match_timeout_300s.
  assert (Hb : boundary prev
                 (lit "timeout:" ++ spaces ++ lit "300s" ++ after) = true)
    by (unfold boundary; rewrite Hprev; reflexivity).
  rewrite Hb, starts_with_app; cbn [andb].
  change (skipn 8 (lit "timeout:" ++ ?x)) with x.
  change (lit "300s" ++ after) with ("3"%char :: lit "00s" ++ after).
  rewrite (span_app is_space spaces "3"%char _ Hsp eq_refl).
  change ("3"%char :: lit "00s" ++ after) with (lit "300s" ++ after).
  rewrite starts_with_app.
  change (skipn 4 (lit "300s" ++ after)) with after.
  unfold boundary; rewrite Hafter; reflexivity.
Qed.

Lemma timeout_key_across (l rest : str) :
  l <> [] -> starts_with "timeout:" (l ++ lit "timeout:" ++ rest) = true ->
  starts_with "timeout:" l = true.
Proof. now apply unbordered_across. Qed.

(** The first substitution on a text with one field. *)
Lemma re_subn_timeout_field (before spaces after : str) :
  occurs "timeout:" before = false ->
  word_before (last_char None before) = false ->
  forallb is_space spaces = true ->
  word_at after = false -> occurs "timeout:" after = false ->
  re_subn match_timeout_300s (literal_template "p0s")
    (before ++ lit "timeout:" ++ spaces ++ lit "300s" ++ after)
  = (before ++ lit "p0s" ++ after, 1).
Proof.
  intros Hb Hprev Hsp Hafter Ha; unfold re_subn.
  rewrite (subn_from_copy_key _ _ "timeout:" match_timeout_300s_key).
  - replace (lit "timeout:" ++ spaces ++ lit "300s" ++ after)
      with ((lit "timeout:" ++ spaces ++ lit "300s") ++ after)
      by (now rewrite <- !app_assoc).
    rewrite (subn_from_match _ _ _ _ _
               [lit "timeout:" ++ spaces ++ lit "300s";
                lit "timeout:" ++ spaces]).
    + rewrite (subn_from_keyless _ _ "timeout:" match_timeout_300s_key)
        by assumption.
      now rewrite expand_literal_template.
    + rewrite <- !app_assoc; now apply match_timeout_300s_field.
    + reflexivity.
    + discriminate.
  - intros l1 l2 -> Hne.
    destruct (starts_with "timeout:"
                (l2 ++ lit "timeout:" ++ spaces ++ lit "300s" ++ after))
      eqn:Hs; [exfalso|reflexivity].
    apply timeout_key_across in Hs; [|assumption].
    now rewrite (occurs_false_suffix _ _ _ Hb) in Hs.
Qed.

(** X24.  update_timeouts_and_fixes, the RKE2 timeout.  The replacement
    template of the source, a backslash followed by 1600s, is not group
    1 followed by 600s: three octal digits after the backslash are the
    character of that code, 160 being the letter p.  A field
    timeout: 300s of the RKE2 task file is therefore rewritten to p0s,
    key and value lost, and not to timeout: 600s. *)
Theorem update_timeouts_rke2_field (f : install_files)
  (before spaces after core : str) :
  rke2_install f
  = Some (before ++ lit "timeout:" ++ spaces ++ lit "300s" ++ after) ->
  core_install f = Some core ->
  occurs "timeout:" before = false ->
  word_before (last_char None before) = false ->
  forallb is_space spaces = true ->
  word_at after = false -> occurs "timeout:" after = false ->
  exists core',
    update_timeouts_and_fixes f
    = (Ok tt,
       {| rke2_install :=
            Some (drop_deployment_wait (before ++ lit "p0s" ++ after));
          core_install := Some core' |}).
Proof.
  intros Hr Hc Hb Hprev Hsp Hafter Ha.
  unfold update_timeouts_and_fixes.
  rewrite Hr, timeout_template_reads, re_subn_timeout_field by assumption.
  cbn [core_install rke2_install]; rewrite Hc.
  destruct (re_subn match_timeout_10m (literal_template "--timeout 25m") core)
    as [core1 n1].
  destruct (re_subn match_2m30s (literal_template "10m") core1) as [core2 n2].
  now exists core2.
Qed.

Lemma update_timeouts_rke2_field_witness :
  exists core',
    update_timeouts_and_fixes install_example
    = (Ok tt,
       {| rke2_install :=
            Some (drop_deployment_wait
                    ((lit "- name: wait for rke2" ++ [newline]
                      ++ lit "  wait_for:" ++ [newline] ++ lit "    ")
                     ++ lit "p0s" ++ [newline]));
          core_install := Some core' |}).
Proof.
  apply (update_timeouts_rke2_field install_example
           (lit "- name: wait for rke2" ++ [newline]
            ++ lit "  wait_for:" ++ [newline] ++ lit "    ")
           " " [newline] core_text); reflexivity.
Defined.

(** *** The lines that are kept *)

Lemma splitlines_from_no_linebreak (s : str) :
  forall line after_cr x,
    forallb (fun c => negb (is_linebreak c)) line = true ->
    In x (splitlines_from line after_cr s) ->
    forallb (fun c => negb (is_linebreak c)) x = true.
Proof.
  induction s as [|c s IH]; intros line after_cr x Hline;
    cbn [splitlines_from].
  - destruct line; [intros []|intros [<-|[]]; assumption].
  - destruct (after_cr && Ascii.eqb c newline); [now apply IH|].
    destruct (is_linebreak c) eqn:Hc.
    + intros [<-|Hin]; [assumption|]; exact (IH [] _ x eq_refl Hin).
    + apply IH; rewrite forallb_app, Hline; cbn [forallb]; now rewrite Hc.
Qed.

Lemma py_splitlines_no_linebreak (s x : str) :
  In x (py_splitlines s) ->
  forallb (fun c => negb (is_linebreak c)) x = true.
Proof. now apply splitlines_from_no_linebreak. Qed.

Lemma py_join_cons2 (sep x y : str) (l : list str) :
  py_join sep (x :: y :: l) = x ++ sep ++ py_join sep (y :: l).
Proof. reflexivity. Qed.

Lemma only_line_feeds_join (lines : list str) :
  (forall x, In x lines ->
             forallb (fun c => negb (is_linebreak c)) x = true) ->
  only_line_feeds (py_join [newline] lines) = true.
Proof.
  assert (Hone : forall x,
             forallb (fun c => negb (is_linebreak c)) x = true ->
             only_line_feeds x = true).
  { intros x Hx; unfold only_line_feeds; apply forallb_forall; intros c Hc.
    rewrite forallb_forall in Hx; now rewrite (Hx c Hc). }
  induction lines as [|x [|y lines] IH]; intros H; [reflexivity| |].
  - apply Hone, H; now left.
  - rewrite py_join_cons2; unfold only_line_feeds in *.
    rewrite !forallb_app, (Hone x), IH.
    + reflexivity.
    + intros z Hz; apply H; now right.
    + apply H; now left.
Qed.

(** The lines of joined lines are among these lines. *)
Lemma py_splitlines_join (lines : list str) :
  (forall x, In x lines ->
             forallb (fun c => negb (is_linebreak c)) x = true) ->
  forall l, In l (py_splitlines (py_join [newline] lines)) -> In l lines.
Proof.
  unfold py_splitlines.
  induction lines as [|x [|y lines] IH]; intros H l.
  - intros [].
  - cbn [py_join]; rewrite <- (app_nil_r x) at 1.
    rewrite splitlines_from_line by (apply H; now left).
    cbn [app splitlines_from]; destruct x; [intros []|intros [<-|[]]].
    now left.
  - rewrite py_join_cons2, splitlines_from_line by (apply H; now left).
    cbn [app splitlines_from andb].
    change (is_linebreak newline) with true; cbn iota.
    change (Ascii.eqb newline carriage_return) with false.
    intros [<-|Hin]; [now left|right].
    apply IH; [|assumption].
    intros z Hz; apply H; now right.
Qed.

Lemma drop_deployment_wait_lines (content : str) :
  only_line_feeds (drop_deployment_wait content) = true
  /\ forall line,
       In line (py_splitlines (drop_deployment_wait content)) ->
       is_deployment_wait line = false /\ In line (py_splitlines content).
Proof.
  unfold drop_deployment_wait.
  assert (H : forall x,
             In x (filter (fun line => negb (is_deployment_wait line))
                     (py_splitlines content)) ->
             forallb (fun c => negb (is_linebreak c)) x = true).
  { intros x Hx; apply filter_In in Hx as [Hx _].
    now apply (py_splitlines_no_linebreak content). }
  split; [now apply only_line_feeds_join|].
  intros line Hin; apply py_splitlines_join in Hin; [|assumption].
  apply filter_In in Hin as [Hin Hw].
  apply negb_true_iff in Hw; now split.
Qed.

(** X25.  update_timeouts_and_fixes, the RKE2 file.  Whenever the RKE2 task
    file exists it is rewritten, also when the function then fails on
    the 5gc file.  The text written has the line feed as its only line
    boundary, and none of its lines holds kubectl, wait deployment and
    kube-system together. *)
Theorem update_timeouts_rke2_lines (f : install_files) (content : str) :
  rke2_install f = Some content ->
  exists text,
    rke2_install (snd (update_timeouts_and_fixes f)) = Some text
    /\ only_line_feeds text = true
    /\ forall line, In line (py_splitlines text) ->
                    is_deployment_wait line = false.
Proof.
  intros Hr; unfold update_timeouts_and_fixes.
  rewrite Hr, timeout_template_reads.
  destruct (re_subn match_timeout_300s (literal_template "p0s") content)
    as [updated n].
  cbn [core_install rke2_install].
  exists (drop_deployment_wait updated).
  destruct (drop_deployment_wait_lines updated) as [Hfeeds Hlines].
  split; [|split; [assumption|intros line Hin; now apply Hlines]].
  destruct (core_install f) as [core|]; [|reflexivity].
  destruct (re_subn match_timeout_10m (literal_template "--timeout 25m") core)
    as [core1 n1].
  now destruct (re_subn match_2m30s (literal_template "10m") core1).
Qed.

Lemma update_timeouts_rke2_lines_witness :
  exists text,
    rke2_install (snd (update_timeouts_and_fixes install_example))
    = Some text
    /\ only_line_feeds text = true
    /\ forall line, In line (py_splitlines text) ->
                    is_deployment_wait line = false.
Proof.
  apply (update_timeouts_rke2_lines install_example rke2_text); reflexivity.
Defined.

(** *** The 5gc file *)

Lemma subn_from_no_match_head
  (attempt : option ascii -> str -> option (list str))
  (template : list template_item) (prev : option ascii) (c : ascii)
  (s : str) :
  attempt prev (c :: s) = None ->
  subn_from attempt template prev 0 (c :: s)
  = (c :: fst (subn_from attempt template (Some c) 0 s),
     snd (subn_from attempt template (Some c) 0 s)).
Proof.
  intros H; cbn [subn_from]; rewrite H.
  now destruct (subn_from attempt template (Some c) 0 s).
Qed.

Lemma timeout_flag_across (l rest : str) :
  l <> [] -> starts_with "--timeout" (l ++ lit "--timeout" ++ rest) = true ->
  starts_with "--timeout" l = true.
Proof. now apply unbordered_across. Qed.

Lemma no_timeout_flag_before (before rest : str) :
  occurs "--timeout" before = false ->
  forall l1 l2, before = l1 ++ l2 -> l2 <> [] ->
                starts_with "--timeout" (l2 ++ lit "--timeout" ++ rest)
                = false.
Proof.
  intros Hb l1 l2 -> Hne.
  destruct (starts_with "--timeout" (l2 ++ lit "--timeout" ++ rest)) eqn:Hs;
    [exfalso|reflexivity].
  apply timeout_flag_across in Hs; [|assumption].
  now rewrite (occurs_false_suffix _ _ _ Hb) in Hs.
Qed.

Lemma no_duration_before (before l' rest : str) :
  occurs "2m30s" before = false ->
  forall l1 l2, before = l1 ++ l2 -> l2 <> [] ->
                starts_with "2m30s" (l2 ++ ("-"%char :: l') ++ rest) = false.
Proof.
  intros Hb; apply (no_start_before "2m30s" before _ rest "-"%char l' Hb eq_refl).
  intros H; vm_compute in H; intuition discriminate.
Qed.

(** The option --timeout 2m30s is no match of the second pattern. *)
Lemma re_subn_flag_duration (before after : str) :
  occurs "--timeout" before = false -> occurs "--timeout" after = false ->
  re_subn match_timeout_10m (literal_template "--timeout 25m")
    (before ++ lit "--timeout 2m30s" ++ after)
  = (before ++ lit "--timeout 2m30s" ++ after, 0).
Proof.
  intros Hb Ha; unfold re_subn.
  change (lit "--timeout 2m30s") with (lit "--timeout" ++ lit " 2m30s").
  rewrite <- app_assoc.
  rewrite (subn_from_copy_key _ _ "--timeout" match_timeout_10m_key)
    by now apply no_timeout_flag_before.
  change (lit "--timeout" ++ lit " 2m30s" ++ after)
    with ("-"%char :: lit "-timeout 2m30s" ++ after).
  rewrite subn_from_no_match_head by reflexivity.
  rewrite (subn_from_copy_key _ _ "--timeout" match_timeout_10m_key)
    by (apply no_start_inside; vm_compute; reflexivity).
  rewrite (subn_from_keyless _ _ "--timeout" match_timeout_10m_key)
    by assumption.
  reflexivity.
Qed.

(** The third pattern turns it into --timeout 10m. *)
Lemma re_subn_duration (before after : str) :
  occurs "2m30s" before = false -> occurs "2m30s" after = false ->
  word_at after = false ->
  re_subn match_2m30s (literal_template "10m")
    (before ++ lit "--timeout 2m30s" ++ after)
  = (before ++ lit "--timeout 10m" ++ after, 1).
Proof.
  intros Hb Ha Hafter; unfold re_subn.
  change (lit "--timeout 2m30s") with (lit "--timeout " ++ lit "2m30s").
  rewrite <- app_assoc.
  rewrite (subn_from_copy_key _ _ "2m30s" match_2m30s_key)
    by (change (lit "--timeout " ++ lit "2m30s" ++ after)
          with (("-"%char :: lit "-timeout 2m30s") ++ after);
        now apply no_duration_before).
  rewrite (subn_from_copy_key _ _ "2m30s" match_2m30s_key)
    by (apply no_start_inside; vm_compute; reflexivity).
  rewrite (subn_from_match _ _ _ (lit "2m30s") after [lit "2m30s"]).
  - rewrite (subn_from_keyless _ _ "2m30s" match_2m30s_key) by assumption.
    rewrite expand_literal_template; cbn [fst snd].
    change (lit "--timeout 10m") with (lit "--timeout " ++ lit "10m").
    now rewrite <- !app_assoc.
  - unfold match_2m30s; rewrite starts_with_app.
    change (skipn 5 (lit "2m30s" ++ after)) with after.
    unfold boundary at 2; rewrite Hafter.
    reflexivity.
  - reflexivity.
  - discriminate.
Qed.

(** On a second run the second pattern finds --timeout 10m. *)
Lemma re_subn_flag (before after : str) :
  occurs "--timeout" before = false -> occurs "--timeout" after = false ->
  word_at after = false ->
  re_subn match_timeout_10m (literal_template "--timeout 25m")
    (before ++ lit "--timeout 10m" ++ after)
  = (before ++ lit "--timeout 25m" ++ after, 1).
Proof.
  intros Hb Ha Hafter; unfold re_subn.
  change (lit "--timeout 10m") with (lit "--timeout" ++ lit " 10m").
  rewrite <- app_assoc.
  rewrite (subn_from_copy_key _ _ "--timeout" match_timeout_10m_key)
    by now apply no_timeout_flag_before.
  replace (lit "--timeout" ++ lit " 10m" ++ after)
    with (lit "--timeout 10m" ++ after) by reflexivity.
  rewrite (subn_from_match _ _ _ (lit "--timeout 10m") after
             [lit "--timeout" ++ lit " " ++ lit "10m"]).
  - rewrite (subn_from_keyless _ _ "--timeout" match_timeout_10m_key)
      by assumption.
    now rewrite expand_literal_template.
  - unfold match_timeout_10m.
    change (lit "--timeout 10m" ++ after)
      with (lit "--timeout" ++ [" "%char] ++ "1"%char :: lit "0m" ++ after).
    rewrite starts_with_app.
    change (skipn 9 (lit "--timeout" ++ ?x)) with x.
    rewrite (span_app is_space [" "%char] "1"%char _ eq_refl eq_refl).
    change ("1"%char :: lit "0m" ++ after) with (lit "10m" ++ after).
    rewrite starts_with_app.
    change (skipn 3 (lit "10m" ++ after)) with after.
    unfold boundary; rewrite Hafter; reflexivity.
  - reflexivity.
  - discriminate.
Qed.

Lemma re_subn_no_duration (before after : str) :
  occurs "2m30s" before = false -> occurs "2m30s" after = false ->
  re_subn match_2m30s (literal_template "10m")
    (before ++ lit "--timeout 25m" ++ after)
  = (before ++ lit "--timeout 25m" ++ after, 0).
Proof.
  intros Hb Ha; unfold re_subn.
  rewrite (subn_from_copy_key _ _ "2m30s" match_2m30s_key)
    by (change (lit "--timeout 25m" ++ after)
          with (("-"%char :: lit "-timeout 25m") ++ after);
        now apply no_duration_before).
  rewrite (subn_from_copy_key _ _ "2m30s" match_2m30s_key)
    by (apply no_start_inside; vm_compute; reflexivity).
  rewrite (subn_from_keyless _ _ "2m30s" match_2m30s_key) by assumption.
  reflexivity.
Qed.

(** X26.  update_timeouts_and_fixes, run twice.  The second pattern is applied
    before the third, so an option --timeout 2m30s of the 5gc task file
    becomes --timeout 10m; a second run finds --timeout 10m and makes it
    --timeout 25m.  The rewriting is not idempotent. *)
Theorem update_timeouts_twice (f : install_files) (rke2 before after : str) :
  rke2_install f = Some rke2 ->
  core_install f = Some (before ++ lit "--timeout 2m30s" ++ after) ->
  occurs "--timeout" before = false -> occurs "2m30s" before = false ->
  occurs "--timeout" after = false -> occurs "2m30s" after = false ->
  word_at after = false ->
  exists f1 f2,
    update_timeouts_and_fixes f = (Ok tt, f1)
    /\ core_install f1 = Some (before ++ lit "--timeout 10m" ++ after)
    /\ update_timeouts_and_fixes f1 = (Ok tt, f2)
    /\ core_install f2 = Some (before ++ lit "--timeout 25m" ++ after).
Proof.
  intros Hr Hc Hb1 Hb2 Ha1 Ha2 Hafter.
  unfold update_timeouts_and_fixes at 1.
  rewrite Hr, timeout_template_reads.
  destruct (re_subn match_timeout_300s (literal_template "p0s") rke2)
    as [rke2' n].
  cbn [core_install rke2_install]; rewrite Hc.
  rewrite re_subn_flag_duration, re_subn_duration by assumption.
  destruct (re_subn match_timeout_300s (literal_template "p0s")
              (drop_deployment_wait rke2')) as [rke2'' n'] eqn:Hagain.
  exists {| rke2_install := Some (drop_deployment_wait rke2');
            core_install := Some (before ++ lit "--timeout 10m" ++ after) |},
         {| rke2_install := Some (drop_deployment_wait rke2'');
            core_install := Some (before ++ lit "--timeout 25m" ++ after) |}.
  split; [reflexivity|split; [reflexivity|]].
  unfold update_timeouts_and_fixes.
  cbn [core_install rke2_install]; rewrite timeout_template_reads, Hagain.
  cbn [core_install rke2_install].
  rewrite re_subn_flag, re_subn_no_duration by assumption.
  split; reflexivity.
Qed.

Lemma update_timeouts_twice_witness :
  exists f1 f2,
    update_timeouts_and_fixes install_example = (Ok tt, f1)
    /\ core_install f1
       = Some (lit "  shell: helm upgrade --wait "
               ++ lit "--timeout 10m" ++ lit " sd-core" ++ [newline])
    /\ update_timeouts_and_fixes f1 = (Ok tt, f2)
    /\ core_install f2
       = Some (lit "  shell: helm upgrade --wait "
               ++ lit "--timeout 25m" ++ lit " sd-core" ++ [newline]).
Proof.
  apply (update_timeouts_twice install_example rke2_text
           "  shell: helm upgrade --wait " (lit " sd-core" ++ [newline]));
    reflexivity.
Defined.

(** The function, with the pairs of [re.subn] taken apart. *)
Lemma update_timeouts_and_fixes_steps (f : install_files) :
  update_timeouts_and_fixes f
  = match rke2_install f with
    | None => (Raise FileNotFoundError, f)
    | Some content =>
        let rke2 :=
          drop_deployment_wait
            (fst (re_subn match_timeout_300s (literal_template "p0s")
                    content)) in
        match core_install f with
        | None =>
            (Raise FileNotFoundError,
             {| rke2_install := Some rke2; core_install := None |})
        | Some core =>
            (Ok tt,
             {| rke2_install := Some rke2;
                core_install :=
                  Some (fst (re_subn match_2m30s (literal_template "10m")
                               (fst (re_subn match_timeout_10m
                                       (literal_template "--timeout 25m")
                                       core)))) |})
        end
    end.
Proof.
  unfold update_timeouts_and_fixes; rewrite timeout_template_reads.
  destruct (rke2_install f) as [content|]; [|reflexivity].
  destruct (re_subn match_timeout_300s (literal_template "p0s") content)
    as [updated n].
  cbn [rke2_install core_install fst].
  destruct (core_install f) as [core|]; [|reflexivity].
  destruct (re_subn match_timeout_10m (literal_template "--timeout 25m") core)
    as [core1 n1]; cbn [fst].
  now destruct (re_subn match_2m30s (literal_template "10m") core1).
Qed.

(** X27.  update_timeouts_and_fixes, the files.  The function returns exactly
    when both task files exist.  Without the RKE2 file nothing is
    written.  Without the 5gc file the function fails only after it has
    rewritten the RKE2 file: what it writes there does not depend on
    the 5gc file. *)
Theorem update_timeouts_and_fixes_files (f : install_files) :
  (fst (update_timeouts_and_fixes f) = Ok tt
   <-> rke2_install f <> None /\ core_install f <> None)
  /\ (rke2_install f = None ->
      update_timeouts_and_fixes f = (Raise FileNotFoundError, f))
  /\ (rke2_install f <> None -> core_install f = None ->
      fst (update_timeouts_and_fixes f) = Raise FileNotFoundError
      /\ core_install (snd (update_timeouts_and_fixes f)) = None)
  /\ forall core,
       rke2_install f <> None ->
       rke2_install (snd (update_timeouts_and_fixes f))
       = rke2_install
           (snd (update_timeouts_and_fixes
                   {| rke2_install := rke2_install f;
                      core_install := core |})).
Proof.
  rewrite !update_timeouts_and_fixes_steps; cbn [rke2_install core_install].
  destruct (rke2_install f) as [content|], (core_install f) as [core|];
    cbn [fst snd rke2_install core_install].
  - split; [split; [intros _; split; discriminate|reflexivity]|].
    split; [discriminate|split; [discriminate|]].
    intros [core'|] _; rewrite update_timeouts_and_fixes_steps; reflexivity.
  - split; [split; [discriminate|intros [_ H]; now elim H]|].
    split; [discriminate|split; [now split|]].
    intros [core'|] _; rewrite update_timeouts_and_fixes_steps; reflexivity.
  - split; [split; [discriminate|intros [H _]; now elim H]|].
    split; [reflexivity|split; [intros H; now elim H|]].
    intros core' H; now elim H.
  - split; [split; [discriminate|intros [H _]; now elim H]|].
    split; [reflexivity|split; [intros H; now elim H|]].
    intros core' H; now elim H.
Qed.

(** ** The inventory *)

Lemma has_backslash_app (a b : str) :
  has_backslash (a ++ b) = has_backslash a || has_backslash b.
Proof. apply existsb_app. Qed.

Lemma re_sub_literal (R : PyRe)
  (attempt : option ascii -> str -> option (list str))
  (replacement s : str) :
  has_backslash replacement = false ->
  re_sub attempt replacement s
  = Ok (fst (re_subn attempt (literal_template replacement) s)).
Proof.
  intros H; unfold re_sub, read_replacement; now rewrite H.
Qed.

Lemma match_parameter_key (key : str) (prev : option ascii) (s : str) :
  starts_with key s = false -> match_parameter key prev s = None.
Proof. intros H; unfold match_parameter; now rewrite H. Qed.

Lemma re_subn_parameter_keyless (key : str) (template : list template_item)
  (s : str) :
  occurs key s = false ->
  re_subn (match_parameter key) template s = (s, 0).
Proof.
  apply (subn_from_keyless _ _ key (match_parameter_key key)).
Qed.

Lemma first_existing_key_cases (E : HostEnv) :
  let key := first_existing_key ssh_key_locations "~/.ssh/id_rsa" in
  key = lit "~/.ssh/id_rsa" \/ key = lit "~/.ssh/id_ed25519"
  \/ key = lit "~/.ssh/id_ecdsa".
Proof.
  cbn [ssh_key_locations first_existing_key].
  destruct (key_exists "~/.ssh/id_rsa"); [now left|].
  destruct (key_exists "~/.ssh/id_ed25519"); [right; now left|].
  destruct (key_exists "~/.ssh/id_ecdsa"); [right; now right|now left].
Qed.

Lemma ssh_key_file_plain (E : HostEnv) :
  let key := first_existing_key ssh_key_locations "~/.ssh/id_rsa" in
  is_py_word key /\ is_plain key.
Proof.
  destruct (first_existing_key_cases E) as [H|[H|H]]; cbv zeta; rewrite H;
    (split; split; [discriminate|reflexivity|reflexivity|reflexivity]).
Qed.

(** The loop, for replacements without backslash: every line gives a
    line, and a line that is skipped or holds none of the three
    parameters gives itself. *)
Lemma update_host_lines_ok (R : PyRe) (ip_addr ansible_user ssh_key_file : str) :
  has_backslash ip_addr = false -> has_backslash ansible_user = false ->
  has_backslash ssh_key_file = false ->
  forall lines,
  exists updated_lines,
    update_host_lines ip_addr ansible_user ssh_key_file lines
    = Ok updated_lines
    /\ length updated_lines = length lines
    /\ forall i line,
         nth_error lines i = Some line ->
         (is_skipped_line line = true
          \/ (occurs "ansible_host=" line = false
              /\ occurs "ansible_user=" line = false
              /\ occurs "ansible_ssh_private_key_file=" line = false)) ->
         nth_error updated_lines i = Some line.
Proof.
  intros Hip Huser Hkey; induction lines as [|line lines IH].
  - exists []; repeat split; intros [|i] l; discriminate.
  - destruct IH as (updated & Hup & Hlen & Hkeep).
    cbn [update_host_lines].
    destruct (is_skipped_line line) eqn:Hskip.
    + rewrite Hup; cbn [bind]; exists (line :: updated).
      split; [reflexivity|split; [cbn [length]; now rewrite Hlen|]].
      intros [|i] l; cbn [nth_error]; [intros [= <-] _; reflexivity|].
      apply Hkeep.
    + do 3 (rewrite re_sub_literal
              by (rewrite has_backslash_app; cbn [orb];
                  first [exact Hip|exact Huser|exact Hkey]);
            cbn [bind]).
      rewrite Hup; cbn [bind].
      eexists; split; [reflexivity|split; [cbn [length]; now rewrite Hlen|]].
      intros [|i] l; cbn [nth_error]; [|apply Hkeep].
      intros [= <-] [Hs|(H1 & H2 & H3)]; [congruence|].
      rewrite (re_subn_parameter_keyless "ansible_host=") by assumption.
      cbn [fst].
      rewrite (re_subn_parameter_keyless "ansible_user=") by assumption.
      cbn [fst].
      rewrite (re_subn_parameter_keyless "ansible_ssh_private_key_file=")
        by assumption.
      reflexivity.
Qed.

(** X28.  update_hosts_ini, an existing file.  When neither the address nor
    the user name holds a backslash, the function returns and writes as
    many lines as the file had, joined by line feeds; comment lines,
    blank lines, and lines that hold none of the three parameters stand
    in their place unchanged. *)
Theorem update_hosts_ini_keeps_lines (E : HostEnv) (R : PyRe)
  (content ip_addr : str) :
  has_backslash ip_addr = false ->
  has_backslash (environ_get env_user "runner") = false ->
  exists updated_lines,
    update_hosts_ini (Some content) ip_addr
    = (Ok tt, Some (py_join [newline] updated_lines))
    /\ length updated_lines = length (py_splitlines content)
    /\ forall i line,
         nth_error (py_splitlines content) i = Some line ->
         (is_skipped_line line = true
          \/ (occurs "ansible_host=" line = false
              /\ occurs "ansible_user=" line = false
              /\ occurs "ansible_ssh_private_key_file=" line = false)) ->
         nth_error updated_lines i = Some line.
Proof.
  intros Hip Huser.
  destruct (ssh_key_file_plain E) as [_ [_ Hkey]].
  destruct (update_host_lines_ok R _ _ _ Hip Huser Hkey
              (py_splitlines content)) as (updated & Hup & Hrest).
  exists updated; split; [|exact Hrest].
  unfold update_hosts_ini; now rewrite Hup.
Qed.

Lemma update_hosts_ini_keeps_lines_witness :
  exists updated_lines,
    @update_hosts_ini ci_env strict_re (Some hosts_text) "10.1.0.4"
    = (Ok tt, Some (py_join [newline] updated_lines))
    /\ length updated_lines = length (py_splitlines hosts_text)
    /\ forall i line,
         nth_error (py_splitlines hosts_text) i = Some line ->
         (is_skipped_line line = true
          \/ (occurs "ansible_host=" line = false
              /\ occurs "ansible_user=" line = false
              /\ occurs "ansible_ssh_private_key_file=" line = false)) ->
         nth_error updated_lines i = Some line.
Proof.
  apply (update_hosts_ini_keeps_lines ci_env strict_re hosts_text "10.1.0.4");
    reflexivity.
Defined.

(** *** Places where a parameter can start *)

Lemma starts_nowhere_nil (p rest : str) : starts_nowhere p [] rest.
Proof. intros [|? ?] l2 H Hne; [cbn [app] in H; congruence|discriminate]. Qed.

Lemma starts_nowhere_app (p a b rest : str) :
  starts_nowhere p a (b ++ rest) -> starts_nowhere p b rest ->
  starts_nowhere p (a ++ b) rest.
Proof.
  intros Ha Hb l1 l2 Heq Hne.
  apply app_eq_app in Heq as (l & [[-> ->]|[-> ->]]).
  - destruct l as [|c l].
    + cbn [app]; apply (Hb [] b eq_refl).
      intros ->; now apply Hne.
    + rewrite <- app_assoc; apply (Ha l1 (c :: l) eq_refl); discriminate.
  - now apply (Hb l l2).
Qed.

Lemma starts_nowhere_clash (p l rest : str) :
  clashes_inside p l = true -> starts_nowhere p l rest.
Proof. intros H l1 l2; now apply no_start_inside. Qed.

(** A value that does not hold the pattern, before a character the
    pattern does not hold. *)
Lemma starts_nowhere_value (p value rest : str) (q : ascii) :
  occurs p value = false -> ~ In q p ->
  starts_nowhere p value (q :: rest).
Proof.
  intros Hocc Hq l1 l2 Hv Hne.
  apply (no_start_before p value (q :: rest) [] q rest Hocc eq_refl Hq l1 l2
           Hv) in Hne.
  now rewrite app_nil_r in Hne.
Qed.

Lemma starts_nowhere_last (p s : str) :
  occurs p s = false -> starts_nowhere p s [].
Proof.
  intros Hocc l1 l2 -> _; rewrite app_nil_r.
  now apply (occurs_false_suffix _ l1).
Qed.

Lemma starts_nowhere_occurs (p s : str) :
  starts_nowhere p s [] -> p <> [] -> occurs p s = false.
Proof.
  intros H Hne; destruct (occurs p s) eqn:Hocc; [exfalso|reflexivity].
  apply occurs_split in Hocc as (a & b & ->).
  assert (Hs : starts_with p ((p ++ b) ++ []) = false).
  { apply (H a (p ++ b) eq_refl); destruct p; [congruence|discriminate]. }
  now rewrite app_nil_r, starts_with_app in Hs.
Qed.

(** One parameter of a line: its value is replaced. *)
Lemma re_subn_parameter (key before value rest new : str) :
  key <> [] ->
  starts_nowhere key before (key ++ value ++ rest) ->
  is_py_word value ->
  (rest = [] \/ exists c r, rest = c :: r /\ is_space c = true) ->
  starts_nowhere key rest [] ->
  re_subn (match_parameter key) (literal_template (key ++ new))
    (before ++ key ++ value ++ rest)
  = (before ++ key ++ new ++ rest, 1).
Proof.
  intros Hkey Hbefore [Hne Hvalue] Hrest Hafter; unfold re_subn.
  rewrite (subn_from_copy_key _ _ key (match_parameter_key key))
    by exact Hbefore.
  replace (key ++ value ++ rest) with ((key ++ value) ++ rest)
    by now rewrite <- app_assoc.
  rewrite (subn_from_match _ _ _ (key ++ value) rest [key ++ value]).
  - rewrite (subn_from_keyless _ _ key (match_parameter_key key))
      by now apply starts_nowhere_occurs.
    rewrite expand_literal_template; cbn [fst snd].
    now rewrite <- !app_assoc.
  - unfold match_parameter.
    rewrite <- app_assoc, starts_with_app.
    rewrite skipn_app, skipn_all, Nat.sub_diag; cbn [skipn app].
    assert (Hspan : span is_nonspace (value ++ rest) = (value, rest)).
    { destruct Hrest as [->|(c & r & -> & Hc)].
      - rewrite app_nil_r; now apply span_all.
      - apply span_app; [assumption|]; unfold is_nonspace; now rewrite Hc. }
    rewrite Hspan; destruct value; [congruence|reflexivity].
  - reflexivity.
  - destruct key; [congruence|discriminate].
Qed.

Lemma plain_no_parameter (key1 key2 value : str) :
  is_plain value -> occurs (key1 ++ lit "=" ++ key2) value = false.
Proof.
  intros [Heq _].
  destruct (occurs (key1 ++ lit "=" ++ key2) value) eqn:H; [|reflexivity].
  apply occurs_inner in H; congruence.
Qed.

Lemma space_not_in_host_key : ~ In " "%char (lit "ansible_host=").
Proof. intros H; vm_compute in H; intuition discriminate. Qed.

Lemma space_not_in_user_key : ~ In " "%char (lit "ansible_user=").
Proof. intros H; vm_compute in H; intuition discriminate. Qed.

Lemma space_not_in_file_key :
  ~ In " "%char (lit "ansible_ssh_private_key_file=").
Proof. intros H; vm_compute in H; intuition discriminate. Qed.

Lemma nowhere_literal_then (p l x rest : str) :
  clashes_inside p l = true -> starts_nowhere p x rest ->
  starts_nowhere p (l ++ x) rest.
Proof.
  intros Hl Hx; apply starts_nowhere_app; [|assumption].
  now apply starts_nowhere_clash.
Qed.

Lemma nowhere_value_then (p value x rest : str) (q : ascii) :
  occurs p value = false -> ~ In q p ->
  starts_nowhere p (q :: x) rest ->
  starts_nowhere p (value ++ q :: x) rest.
Proof.
  intros Hv Hq Hx; apply starts_nowhere_app; [|assumption].
  now apply starts_nowhere_value.
Qed.

Lemma plain_no_host (value : str) :
  is_plain value -> occurs "ansible_host=" value = false.
Proof. apply (plain_no_parameter "ansible_host" []). Qed.

Lemma plain_no_user (value : str) :
  is_plain value -> occurs "ansible_user=" value = false.
Proof. apply (plain_no_parameter "ansible_user" []). Qed.

Lemma plain_no_file (value : str) :
  is_plain value -> occurs "ansible_ssh_private_key_file=" value = false.
Proof. apply (plain_no_parameter "ansible_ssh_private_key_file" []). Qed.

(** *** The line of the node *)

Section NodeLine.

Variables ip_addr0 ip_addr ansible_user ssh_key_file : str.
Hypothesis Hip0 : is_py_word ip_addr0.
Hypothesis Hip : is_plain ip_addr.
Hypothesis Huser_word : is_py_word ansible_user.
Hypothesis Huser : is_plain ansible_user.
Hypothesis Hkey_word : is_py_word ssh_key_file.
Hypothesis Hkey : is_plain ssh_key_file.

Lemma node_line_host :
  re_subn (match_parameter "ansible_host=")
    (literal_template (lit "ansible_host=" ++ ip_addr))
    (node_line ip_addr0 ansible_user ssh_key_file)
  = (node_line ip_addr ansible_user ssh_key_file, 1).
Proof.
  unfold node_line.
  apply (re_subn_parameter "ansible_host=" "node1 " ip_addr0
           (lit " " ++ lit "ansible_user=" ++ ansible_user
            ++ lit " " ++ lit "ansible_ssh_private_key_file=" ++ ssh_key_file)
           ip_addr).
  - discriminate.
  - apply starts_nowhere_clash; vm_compute; reflexivity.
  - exact Hip0.
  - right; exists " "%char; eexists; split; reflexivity.
  - change (lit " " ++ lit "ansible_user=" ++ ?x)
      with (lit " ansible_user=" ++ x).
    apply nowhere_literal_then; [vm_compute; reflexivity|].
    change (lit " " ++ ?x) with (" "%char :: x).
    apply nowhere_value_then;
      [now apply plain_no_host|apply space_not_in_host_key|].
    change (" "%char :: lit "ansible_ssh_private_key_file=" ++ ssh_key_file)
      with (lit " ansible_ssh_private_key_file=" ++ ssh_key_file).
    apply nowhere_literal_then; [vm_compute; reflexivity|].
    apply starts_nowhere_last; now apply plain_no_host.
Qed.

Lemma node_line_user :
  re_subn (match_parameter "ansible_user=")
    (literal_template (lit "ansible_user=" ++ ansible_user))
    (node_line ip_addr ansible_user ssh_key_file)
  = (node_line ip_addr ansible_user ssh_key_file, 1).
Proof.
  unfold node_line.
  replace (lit "node1 " ++ lit "ansible_host=" ++ ip_addr
           ++ lit " " ++ lit "ansible_user=" ++ ansible_user
           ++ lit " " ++ lit "ansible_ssh_private_key_file=" ++ ssh_key_file)
    with ((lit "node1 ansible_host=" ++ ip_addr ++ lit " ")
          ++ lit "ansible_user=" ++ ansible_user
          ++ lit " " ++ lit "ansible_ssh_private_key_file=" ++ ssh_key_file)
    by (rewrite <- !app_assoc; reflexivity).
  apply (re_subn_parameter "ansible_user="
           (lit "node1 ansible_host=" ++ ip_addr ++ lit " ") ansible_user
           (lit " " ++ lit "ansible_ssh_private_key_file=" ++ ssh_key_file)
           ansible_user).
  - discriminate.
  - apply nowhere_literal_then; [vm_compute; reflexivity|].
    change (lit " " ++ ?x) with (" "%char :: x).
    apply nowhere_value_then;
      [now apply plain_no_user|apply space_not_in_user_key|].
    change (" "%char :: ?x) with ([" "%char] ++ x).
    apply nowhere_literal_then; [vm_compute; reflexivity|].
    apply starts_nowhere_nil.
  - exact Huser_word.
  - right; exists " "%char; eexists; split; reflexivity.
  - change (lit " " ++ lit "ansible_ssh_private_key_file=" ++ ?x)
      with (lit " ansible_ssh_private_key_file=" ++ x).
    apply nowhere_literal_then; [vm_compute; reflexivity|].
    apply starts_nowhere_last; now apply plain_no_user.
Qed.

Lemma node_line_file :
  re_subn (match_parameter "ansible_ssh_private_key_file=")
    (literal_template (lit "ansible_ssh_private_key_file=" ++ ssh_key_file))
    (node_line ip_addr ansible_user ssh_key_file)
  = (node_line ip_addr ansible_user ssh_key_file, 1).
Proof.
  unfold node_line.
  replace (lit "node1 " ++ lit "ansible_host=" ++ ip_addr
           ++ lit " " ++ lit "ansible_user=" ++ ansible_user
           ++ lit " " ++ lit "ansible_ssh_private_key_file=" ++ ssh_key_file)
    with ((lit "node1 ansible_host=" ++ ip_addr
           ++ lit " ansible_user=" ++ ansible_user ++ lit " ")
          ++ lit "ansible_ssh_private_key_file=" ++ ssh_key_file ++ [])
    by (rewrite <- !app_assoc, app_nil_r; reflexivity).
  rewrite (re_subn_parameter "ansible_ssh_private_key_file="
             (lit "node1 ansible_host=" ++ ip_addr
              ++ lit " ansible_user=" ++ ansible_user ++ lit " ")
             ssh_key_file [] ssh_key_file).
  - reflexivity.
  - discriminate.
  - rewrite <- ?app_assoc.
    apply nowhere_literal_then; [vm_compute; reflexivity|].
    change (lit " ansible_user=" ++ ?x)
      with (" "%char :: lit "ansible_user=" ++ x).
    apply nowhere_value_then;
      [now apply plain_no_file|apply space_not_in_file_key|].
    change (" "%char :: lit "ansible_user=" ++ ?x)
      with (lit " ansible_user=" ++ x).
    apply nowhere_literal_then; [vm_compute; reflexivity|].
    change (lit " " ++ ?x) with (" "%char :: x).
    apply nowhere_value_then;
      [now apply plain_no_file|apply space_not_in_file_key|].
    change (" "%char :: ?x) with ([" "%char] ++ x).
    apply nowhere_literal_then; [vm_compute; reflexivity|].
    apply starts_nowhere_nil.
  - exact Hkey_word.
  - now left.
  - apply starts_nowhere_nil.
Qed.

Lemma py_word_no_linebreak (w : str) :
  is_py_word w -> forallb (fun c => negb (is_linebreak c)) w = true.
Proof.
  intros [_ Hw]; apply forallb_forall; intros c Hc.
  rewrite forallb_forall in Hw; apply Hw in Hc.
  unfold is_nonspace in Hc; apply negb_true_iff in Hc.
  apply negb_true_iff; destruct (is_linebreak c) eqn:E; [|reflexivity].
  apply linebreak_is_space in E; congruence.
Qed.

Lemma node_line_no_linebreak :
  forallb (fun c => negb (is_linebreak c))
    (node_line ip_addr0 ansible_user ssh_key_file) = true.
Proof.
  unfold node_line; rewrite !forallb_app.
  rewrite (py_word_no_linebreak ip_addr0 Hip0).
  rewrite (py_word_no_linebreak ansible_user Huser_word).
  rewrite (py_word_no_linebreak ssh_key_file Hkey_word).
  reflexivity.
Qed.

(** The line is no comment and not blank. *)
Lemma node_line_not_skipped :
  is_skipped_line (node_line ip_addr0 ansible_user ssh_key_file) = false.
Proof.
  destruct Hkey_word as [Hne Hns].
  destruct (exists_last Hne) as (front & d & Hlast).
  assert (Hd : is_space d = false).
  { rewrite forallb_forall in Hns.
    assert (Hin : In d ssh_key_file)
      by (rewrite Hlast; apply in_or_app; right; now left).
    apply Hns in Hin; unfold is_nonspace in Hin.
    now apply negb_true_iff in Hin. }
  assert (Hstrip : py_strip (node_line ip_addr0 ansible_user ssh_key_file)
                   = node_line ip_addr0 ansible_user ssh_key_file).
  { unfold py_strip.
    assert (Hl : py_lstrip (node_line ip_addr0 ansible_user ssh_key_file)
                 = node_line ip_addr0 ansible_user ssh_key_file)
      by reflexivity.
    rewrite Hl; unfold node_line at 1; rewrite Hlast, !app_assoc, rev_unit.
    unfold py_lstrip; cbn [span]; rewrite Hd; cbn [snd].
    rewrite <- rev_unit, rev_involutive, <- !app_assoc, <- Hlast.
    reflexivity. }
  unfold is_skipped_line; rewrite Hstrip; reflexivity.
Qed.

End NodeLine.

(** The lines of a text whose lines all end in a line feed. *)
Lemma py_splitlines_lines (lines : list str) :
  (forall l, In l lines ->
             forallb (fun c => negb (is_linebreak c)) l = true) ->
  py_splitlines (flat_map (fun l => l ++ [newline]) lines) = lines.
Proof.
  unfold py_splitlines; induction lines as [|l lines IH]; intros H;
    [reflexivity|].
  cbn [flat_map]; rewrite <- app_assoc.
  rewrite splitlines_from_line by (apply H; now left).
  cbn [app splitlines_from andb].
  change (is_linebreak newline) with true; cbn iota.
  change (Ascii.eqb newline carriage_return) with false.
  f_equal; apply IH; intros l' Hl'; apply H; now right.
Qed.

Section HostLines.

Context {R : PyRe}.
Variables ip_addr ansible_user ssh_key_file : str.
Hypothesis Hip : is_plain ip_addr.
Hypothesis Huser_word : is_py_word ansible_user.
Hypothesis Huser : is_plain ansible_user.
Hypothesis Hkey_word : is_py_word ssh_key_file.
Hypothesis Hkey : is_plain ssh_key_file.

(** A line that is skipped or holds no parameter is kept. *)
Lemma update_host_lines_kept (line : str) (rest : list str) :
  is_skipped_line line = true
  \/ (occurs "ansible_host=" line = false
      /\ occurs "ansible_user=" line = false
      /\ occurs "ansible_ssh_private_key_file=" line = false) ->
  update_host_lines ip_addr ansible_user ssh_key_file (line :: rest)
  = (updated_lines <-
       update_host_lines ip_addr ansible_user ssh_key_file rest;;
     Ok (line :: updated_lines)).
Proof.
  intros H; cbn [update_host_lines].
  destruct (is_skipped_line line) eqn:Hs; [reflexivity|].
  destruct H as [H|(H1 & H2 & H3)]; [discriminate|].
  destruct Hip as [_ Hb1], Huser as [_ Hb2], Hkey as [_ Hb3].
  rewrite re_sub_literal
    by (rewrite has_backslash_app; cbn [orb]; exact Hb1).
  cbn [bind].
  rewrite (re_subn_parameter_keyless "ansible_host=") by assumption.
  cbn [fst].
  rewrite re_sub_literal
    by (rewrite has_backslash_app; cbn [orb]; exact Hb2).
  cbn [bind].
  rewrite (re_subn_parameter_keyless "ansible_user=") by assumption.
  cbn [fst].
  rewrite re_sub_literal
    by (rewrite has_backslash_app; cbn [orb]; exact Hb3).
  cbn [bind].
  rewrite (re_subn_parameter_keyless "ansible_ssh_private_key_file=")
    by assumption.
  reflexivity.
Qed.

(** The line of the node gets the new address. *)
Lemma update_host_lines_node (ip_addr0 : str) (rest : list str) :
  is_py_word ip_addr0 ->
  update_host_lines ip_addr ansible_user ssh_key_file
    (node_line ip_addr0 ansible_user ssh_key_file :: rest)
  = (updated_lines <-
       update_host_lines ip_addr ansible_user ssh_key_file rest;;
     Ok (node_line ip_addr ansible_user ssh_key_file :: updated_lines)).
Proof.
  intros Hip0; cbn [update_host_lines].
  rewrite (node_line_not_skipped ip_addr0 ansible_user ssh_key_file Hkey_word).
  destruct Hip as [He1 Hb1], Huser as [He2 Hb2], Hkey as [He3 Hb3].
  rewrite re_sub_literal
    by (rewrite has_backslash_app; cbn [orb]; exact Hb1).
  cbn [bind].
  rewrite (node_line_host ip_addr0 ip_addr) by (assumption || now split).
  cbn [fst].
  rewrite re_sub_literal
    by (rewrite has_backslash_app; cbn [orb]; exact Hb2).
  cbn [bind].
  rewrite node_line_user by (assumption || now split).
  cbn [fst].
  rewrite re_sub_literal
    by (rewrite has_backslash_app; cbn [orb]; exact Hb3).
  cbn [bind].
  rewrite node_line_file by (assumption || now split).
  reflexivity.
Qed.

End HostLines.

(** X29.  update_hosts_ini, creating and updating.  The file the function
    creates when there is none is a file it updates as a whole: run on
    it for another address (without equals sign and backslash), by a
    user whose name is a word without equals sign and backslash, the
    function writes what it would have created for that address, less
    the final line feed, which joining the lines drops. *)
Theorem update_hosts_ini_after_create (E : HostEnv) (R : PyRe)
  (ip_addr0 ip_addr : str) :
  is_py_word ip_addr0 -> is_plain ip_addr ->
  is_py_word (environ_get env_user "runner") ->
  is_plain (environ_get env_user "runner") ->
  exists text,
    update_hosts_ini (snd (update_hosts_ini None ip_addr0)) ip_addr
    = (Ok tt, Some text)
    /\ snd (update_hosts_ini None ip_addr) = Some (text ++ [newline]).
Proof.
  intros Hip0 Hip Huser_word Huser.
  destruct (ssh_key_file_plain E) as [Hkey_word Hkey].
  set (ansible_user := environ_get env_user "runner") in *.
  set (ssh_key_file := first_existing_key ssh_key_locations "~/.ssh/id_rsa")
    in *.
  change (snd (update_hosts_ini None ip_addr0))
    with (Some (new_hosts_text ip_addr0 ansible_user ssh_key_file)).
  change (snd (update_hosts_ini None ip_addr))
    with (Some (new_hosts_text ip_addr ansible_user ssh_key_file)).
  unfold update_hosts_ini; fold ansible_user; fold ssh_key_file.
  assert (Hlines :
            py_splitlines (new_hosts_text ip_addr0 ansible_user ssh_key_file)
            = [lit "[all]"; node_line ip_addr0 ansible_user ssh_key_file; [];
               lit "[master_nodes]"; lit "node1"; [];
               lit "[worker_nodes]"; [];
               lit "[gnbsim_nodes]"; lit "node1"]).
  { rewrite <- py_splitlines_lines.
    - f_equal; unfold new_hosts_text, node_line; cbn [flat_map].
      rewrite <- ?app_assoc; reflexivity.
    - intros l Hl; cbn [In] in Hl.
      repeat (destruct Hl as [<-|Hl];
              [first [reflexivity|now apply node_line_no_linebreak]|]).
      destruct Hl. }
  rewrite Hlines.
  rewrite (update_host_lines_kept _ _ _ Hip Huser Hkey "[all]")
    by (right; repeat split; reflexivity).
  rewrite (update_host_lines_node _ _ _ Hip Huser_word Huser Hkey_word Hkey
             ip_addr0) by assumption.
  do 8 (rewrite (update_host_lines_kept _ _ _ Hip Huser Hkey)
          by first [left; reflexivity|right; repeat split; reflexivity]).
  cbn [update_host_lines bind].
  eexists; split; [reflexivity|].
  unfold new_hosts_text, node_line; cbn [py_join].
  rewrite <- ?app_assoc; reflexivity.
Qed.

Lemma update_hosts_ini_after_create_witness :
  exists text,
    @update_hosts_ini ci_env strict_re
      (snd (@update_hosts_ini ci_env strict_re None "10.76.28.113"))
      "10.1.0.4"
    = (Ok tt, Some text)
    /\ snd (@update_hosts_ini ci_env strict_re None "10.1.0.4")
       = Some (text ++ [newline]).
Proof.
  apply (update_hosts_ini_after_create ci_env strict_re
           "10.76.28.113" "10.1.0.4").
  - split; [discriminate|reflexivity].
  - split; reflexivity.
  - split; [discriminate|reflexivity].
  - split; reflexivity.
Defined.

(** ** The whole run *)

Lemma digit_not_backslash (c : ascii) :
  is_digit c = true -> Ascii.eqb backslash c = false.
Proof.
  destruct c as [[] [] [] [] [] [] [] []]; vm_compute; congruence.
Qed.

Lemma number_no_backslash (d : str) :
  is_number d -> has_backslash d = false.
Proof.
  intros [_ Hd]; induction d as [|c d IH]; [reflexivity|].
  cbn [forallb] in Hd; apply andb_true_iff in Hd as [Hc Hd].
  cbn [has_backslash existsb]; rewrite (digit_not_backslash c Hc).
  now apply IH.
Qed.

(** An address made of digits and dots holds no backslash. *)
Lemma dotted_quad_no_backslash (ip_addr : str) :
  dotted_quad ip_addr -> has_backslash ip_addr = false.
Proof.
  intros (d1 & d2 & d3 & d4 & H1 & H2 & H3 & H4 & ->).
  rewrite !has_backslash_app.
  rewrite (number_no_backslash d1 H1), (number_no_backslash d2 H2).
  rewrite (number_no_backslash d3 H3), (number_no_backslash d4 H4).
  reflexivity.
Qed.

Lemma get_network_info_quad (E : IpCommand) (interface ip_addr : str) :
  get_network_info = Ok (interface, ip_addr) -> dotted_quad ip_addr.
Proof.
  unfold get_network_info.
  destruct ip_route as [route|e]; cbn [call bind]; [|discriminate].
  destruct (default_interface (py_splitlines route)) as [i|c|e] eqn:Hif;
    cbn [bind]; [|now apply default_interface_no_exit in Hif|discriminate].
  destruct (ip_addr_show i) as [addr|e]; cbn [call bind]; [|discriminate].
  destruct (search_inet addr) as [ip|] eqn:Hs; [|discriminate].
  intros [= _ <-]; now apply (occurs_inet_found addr).
Qed.

(** Without backslash in the address and the user name the inventory is
    written, whether it existed or not. *)
Lemma update_hosts_ini_returns (E : HostEnv) (R : PyRe)
  (hosts_file : option str) (ip_addr : str) :
  has_backslash ip_addr = false ->
  has_backslash (environ_get env_user "runner") = false ->
  exists text, update_hosts_ini hosts_file ip_addr = (Ok tt, Some text).
Proof.
  intros Hip Huser; destruct hosts_file as [content|]; [|now eexists].
  destruct (ssh_key_file_plain E) as [_ [_ Hkey]].
  destruct (update_host_lines_ok R _ _ _ Hip Huser Hkey
              (py_splitlines content)) as (updated & Hup & _).
  eexists; unfold update_hosts_ini; now rewrite Hup.
Qed.

Lemma update_vars_main_values_file (w : world) (interface ip_addr : str) :
  values_file (snd (update_vars_main w interface ip_addr)) = values_file w.
Proof.
  unfold update_vars_main; destruct (vars_file w) as [content|];
    [|reflexivity].
  destruct (str_eqb (py_replace "ens18" interface content) content);
    [reflexivity|].
  now destruct (str_eqb _ _).
Qed.

Lemma update_timeouts_and_fixes_ok (f : install_files) :
  fst (update_timeouts_and_fixes f) = Ok tt
  <-> rke2_install f <> None /\ core_install f <> None.
Proof.
  rewrite update_timeouts_and_fixes_steps.
  destruct (rke2_install f), (core_install f); cbn [fst]; split;
    try discriminate; try (intros [H1 H2]; congruence);
    intros _; split; discriminate.
Qed.

(** X30.  main, when it returns.  Once the directory exists and the network
    is detected, the inventory is written in any case when the user name
    holds no backslash (the address, digits and dots, holds none), also
    when a later step fails.  The run returns exactly when
    update_vars_main returns, both task files exist, and, if both image
    names are given and not empty, configure_sdcore_images returns on
    the tree as update_vars_main left it.  Without both image names the
    values file is left as it was. *)
Theorem main_returns (N : IpCommand) (E : HostEnv) (R : PyRe) (P : PyEnv)
  (args : arguments) (o : onramp) (interface ip_addr : str) :
  aether_onramp_dir_exists args = true ->
  get_network_info = Ok (interface, ip_addr) ->
  has_backslash (environ_get env_user "runner") = false ->
  let vars_step := update_vars_main (sdcore o) interface ip_addr in
  hosts_ini (snd (main args o)) <> None
  /\ (fst (main args o) = Ok tt
      <-> fst vars_step = Ok tt
          /\ rke2_install (installs o) <> None
          /\ core_install (installs o) <> None
          /\ forall image local_image,
               image_name args = Some image ->
               local_image_name args = Some local_image ->
               image <> [] -> local_image <> [] ->
               fst (configure_sdcore_images (snd vars_step) image local_image)
               = Ok tt)
  /\ (given (image_name args) && given (local_image_name args) = false ->
      values_file (sdcore (snd (main args o))) = values_file (sdcore o)).
Proof.
  intros Hdir Hnet Huser vars_step.
  pose proof (dotted_quad_no_backslash _ (get_network_info_quad _ _ _ Hnet))
    as Hip.
  destruct (update_hosts_ini_returns E R (hosts_ini o) ip_addr Hip Huser)
    as (text & Hhosts).
  pose proof (update_vars_main_values_file (sdcore o) interface ip_addr)
    as Hvalues.
  pose proof (update_timeouts_and_fixes_ok (installs o)) as Hinst.
  unfold main; rewrite Hdir; cbn [negb].
  unfold and_then, pure_step, on_hosts, on_sdcore, on_installs.
  rewrite Hnet, Hhosts; cbn [hosts_ini sdcore installs].
  fold vars_step in Hvalues |- *.
  destruct vars_step as [[[]|c|e] w1]; cbn [fst snd] in *;
    cbn [hosts_ini sdcore installs].
  2,3: (split; [discriminate|split; [|intros _; exact Hvalues]];
        split; [discriminate|intros [H _]; discriminate]).
  destruct (update_timeouts_and_fixes (installs o)) as [[[]|c|e] i1];
    cbn [fst snd] in *; cbn [hosts_ini sdcore installs].
  2,3: (split; [discriminate|split; [|intros _; exact Hvalues]];
        split; [discriminate|intros (_ & H1 & H2 & _)];
        destruct Hinst as [_ Hinst]; specialize (Hinst (conj H1 H2));
        discriminate).
  destruct Hinst as [Hinst _]; specialize (Hinst eq_refl) as [Hr Hc].
  destruct (image_name args) as [image|] eqn:Himage;
    [destruct (local_image_name args) as [local_image|] eqn:Hlocal|].
  - destruct image as [|a image]; [|destruct local_image as [|b local_image]];
      cbn [given andb hosts_ini sdcore installs fst snd].
    + split; [discriminate|split; [|intros _; exact Hvalues]].
      split; [intros _|reflexivity].
      repeat split; try assumption.
      intros ? ? [= <-] _ H; now elim H.
    + split; [discriminate|split; [|intros _; exact Hvalues]].
      split; [intros _|reflexivity].
      repeat split; try assumption.
      intros ? ? _ [= <-] _ H; now elim H.
    + destruct (configure_sdcore_images w1 (a :: image) (b :: local_image))
        as [r w2] eqn:Hconf; cbn [hosts_ini sdcore installs fst snd].
      split; [discriminate|split; [|discriminate]].
      split.
      * intros ->; repeat split; try assumption.
        intros ? ? [= <-] [= <-] _ _; now rewrite Hconf.
      * intros (_ & _ & _ & H).
        specialize (H _ _ eq_refl eq_refl).
        rewrite Hconf in H; apply H; discriminate.
  - cbn [hosts_ini sdcore installs fst snd].
    split; [discriminate|split; [|intros _; exact Hvalues]].
    split; [intros _|reflexivity].
    repeat split; try assumption; intros ? ? _ [=].
  - cbn [hosts_ini sdcore installs fst snd].
    split; [discriminate|split; [|intros _; exact Hvalues]].
    split; [intros _|reflexivity].
    repeat split; try assumption; intros ? ? [=].
Qed.

Lemma main_returns_witness :
  hosts_ini
    (snd (@main usual_ip ci_env strict_re chart_env plain_arguments
            onramp_example)) <> None
  /\ values_file
       (sdcore (snd (@main usual_ip ci_env strict_re chart_env
                       plain_arguments onramp_example)))
     = values_file (sdcore onramp_example).
Proof.
  destruct (main_returns usual_ip ci_env strict_re chart_env plain_arguments
              onramp_example "eth0" "10.1.0.4" eq_refl eq_refl eq_refl)
    as (Hhosts & _ & Hvalues).
  split; [exact Hhosts|apply Hvalues; reflexivity].
Defined.
